(** * replaceableParts engine: a shallow embedding and its properties

    The development follows the engine source (the version with grid
    placement).  JavaScript numbers are modelled exactly: integer valued
    fields (quantities, weights, credits, energy, coordinates, seeds) are
    [Z], fractional fields (market multipliers, prices, research chances,
    the values drawn from the generator) are [Q].  The products that decide
    the credits of a sale are rounded as the doubles round them (module
    [Double]); the sums and differences that only move a multiplier or a
    weight are kept exact.  A state is a JSON value, so [deepClone] is the identity
    on it; a number slot that holds NaN between two calls is the JSON
    [null] the next call reads, written [Null] below. *)

From Stdlib Require Import ZArith QArith Qround Qminmax Qpower Qabs Lia Lqa.
From stdpp Require Import gmap strings list fin_maps pretty.

Local Open Scope Z_scope.

(** ** 32-bit integer arithmetic of the generator *)

Module Int32.

Definition two32 : Z := 4294967296.

(** [x | 0]: the signed 32-bit value of an integer. *)
Definition ToInt32 (z : Z) : Z := (z + 2147483648) mod two32 - 2147483648.

(** [x >>> 0]: the unsigned 32-bit value of an integer. *)
Definition ToUint32 (z : Z) : Z := z mod two32.

Definition imul (a b : Z) : Z := ToInt32 (ToInt32 a * ToInt32 b).
Definition bxor (a b : Z) : Z := Z.lxor (ToInt32 a) (ToInt32 b).
Definition bor (a b : Z) : Z := Z.lor (ToInt32 a) (ToInt32 b).
Definition ushr (a n : Z) : Z := Z.shiftr (ToUint32 a) n.

End Int32.

(** ** PRNG - Mulberry32

    The closure variable [currentSeed] is threaded explicitly: [next] takes
    it and returns the drawn value together with its new content. *)

Definition next (currentSeed : Z) : Q * Z :=
  let s0 := Int32.ToInt32 currentSeed in
  let s1 := Int32.ToInt32 (s0 + 0x6D2B79F5) in
  let t1 := Int32.imul (Int32.bxor s1 (Int32.ushr s1 15)) (Int32.bor 1 s1) in
  let t2 := Int32.bxor (t1 + Int32.imul (Int32.bxor t1 (Int32.ushr t1 7))
                                        (Int32.bor 61 t1)) t1 in
  (Qmake (Int32.ToUint32 (Int32.bxor t2 (Int32.ushr t2 14))) 4294967296, s1).

(** ** Doubles

    A JS number is a binary64 value.  A rational stands for the double
    nearest to it, which is how a number of the rules or of the state is
    read; [round] gives that double (to nearest, ties to the even
    mantissa, subnormals included) and is the identity on a double.  The
    finite range is assumed: overflow to Infinity is not modelled. *)

Module Double.

(** [floor(log2 q)] for [q > 0]. *)
Definition ilog2 (q : Q) : Z :=
  let e := Z.log2 (Qnum q) - Z.log2 (Zpos (Qden q)) in
  if Qle_bool (2 ^ e) q then e else e - 1.

(** To the nearest integer, a tie going to the even one. *)
Definition roundHalfEven (q : Q) : Z :=
  let f := Qfloor q in
  match (q - inject_Z f ?= 1 # 2)%Q with
  | Lt => f
  | Gt => f + 1
  | Eq => if Z.even f then f else f + 1
  end.

(** The exponent of the last place of the doubles around [a > 0]:
    53 significant bits, and no place below [2^-1074]. *)
Definition ulpExponent (a : Q) : Z := Z.max (ilog2 a - 52) (-1074).

Definition round (q : Q) : Q :=
  let q := Qred q in
  if Qeq_bool q 0 then 0%Q
  else
    let a := Qabs q in
    let e := ulpExponent a in
    let m := (inject_Z (roundHalfEven (a / 2 ^ e)) * 2 ^ e)%Q in
    if Qle_bool 0 q then m else (- m)%Q.

(** [a * b] on doubles. *)
Definition mul (a b : Q) : Q := round (round a * round b).

End Double.

(** ** Data model *)

(** A number slot of a JS object used as a map. *)
Inductive cell : Type :=
| Num (z : Z)
| Null.

#[global] Instance cell_eq_dec : EqDecision cell.
Proof. solve_decision. Defined.

(** The numeric value of a slot that is present ([null] counts as 0). *)
Definition cellZ (c : cell) : Z :=
  match c with Num z => z | Null => 0 end.

(** [obj[k] || 0].  The keys are item ids of the rule tables.  A key that
    names a property of [Object.prototype] ([constructor], [toString],
    ...), which an object without a slot of its own reads from its
    prototype, is outside this model. *)
Definition orZero (m : gmap string cell) (k : string) : Z :=
  match m !! k with Some c => cellZ c | None => 0 end.

(** [obj[k] -= q; if (obj[k] === 0) delete obj[k]].  On a missing key the
    difference is NaN, which is stored. *)
Definition debit (m : gmap string cell) (k : string) (q : Z) : gmap string cell :=
  match m !! k with
  | None => <[k := Null]> m
  | Some c => if cellZ c - q =? 0 then delete k m else <[k := Num (cellZ c - q)]> m
  end.

Inductive Status : Type := idle | working | blocked.

#[global] Instance Status_eq_dec : EqDecision Status.
Proof. solve_decision. Defined.

Record Machine : Type := mkMachine {
  m_id : string;
  recipeId : option string;
  internalBuffer : gmap string cell;
  status : Status;
  enabled : bool;
  m_spaceUsed : Z;
  energyConsumption : Z;
  m_x : Z;
  m_y : Z
}.

Record Generator : Type := mkGenerator {
  g_id : string;
  g_type : string;
  energyOutput : Z;
  g_spaceUsed : Z;
  g_x : Z;
  g_y : Z
}.

Record ExtractionNode : Type := mkNode {
  n_id : string;
  resourceType : string;
  rate : Z;
  active : bool
}.

Inductive PlacementType : Type := type_machine | type_generator.

Record Placement : Type := mkPlacement {
  p_id : string;
  p_x : Z;
  p_y : Z;
  p_size : Z;
  p_type : PlacementType
}.

Record FloorSpace : Type := mkFloorSpace {
  width : Z;
  height : Z;
  placements : list Placement
}.

Record Energy : Type := mkEnergy {
  produced : Z;
  consumed : Z
}.

Record Research : Type := mkResearch {
  r_active : bool;
  r_energyConsumption : Z
}.

Record State : Type := mkState {
  tick : Z;
  rngSeed : Z;
  credits : Z;
  floorSpace : FloorSpace;
  energy : Energy;
  inventorySpace : Z;
  inventory : gmap string cell;
  machines : list Machine;
  generators : list Generator;
  extractionNodes : list ExtractionNode;
  discoveredRecipes : list string;
  unlockedRecipes : list string;
  research : Research;
  marketPopularity : gmap string Q
}.

(** ** Rules *)

Record Material : Type := mkMaterial {
  mat_id : string;
  mat_name : string;
  basePrice : Q;
  weight : Z
}.

(** [inputs] and [outputs] are the entries of the recipe's objects, in
    their own order. *)
Record Recipe : Type := mkRecipe {
  rec_id : string;
  inputs : list (string * Z);
  outputs : list (string * Z)
}.

Record MarketRules : Type := mkMarket {
  decayRate : Q;
  recoveryRate : Q;
  minPopularity : Q;
  maxPopularity : Q
}.

Record ResearchRules : Type := mkResearchRules {
  energyCost : Z;
  discoveryChance : Q;
  proximityWeight : Q
}.

Record MachineRules : Type := mkMachineRules {
  mr_itemId : string;
  baseSpace : Z;
  baseEnergy : Z
}.

Record GeneratorType : Type := mkGeneratorType {
  gt_id : string;
  gt_itemId : string;
  gt_energyOutput : Z;
  spaceCost : Z
}.

Record FloorRules : Type := mkFloorRules {
  initialWidth : Z;
  initialChunkSize : Z;
  costPerCell : Z
}.

Record InventoryRules : Type := mkInventoryRules {
  baseCost : Q;
  costGrowth : Q;
  upgradeAmount : Z
}.

Record Rules : Type := mkRules {
  materials : list Material;
  recipes : list Recipe;
  market : MarketRules;
  researchRules : ResearchRules;
  machineRules : MachineRules;
  generatorTypes : list GeneratorType;
  floorRules : FloorRules;
  inventoryRules : InventoryRules
}.

(** ** Utility functions *)

(** JS truthiness of a string or null. *)
Definition truthy (o : option string) : bool :=
  match o with
  | Some s => negb (String.eqb s "")
  | None => false
  end.

Definition deepClone (s : State) : State := s.

Definition findMaterial (itemId : string) (rules : Rules) : option Material :=
  find (fun m => String.eqb (mat_id m) itemId) (materials rules).

Definition getItemWeight (itemId : string) (rules : Rules) : Z :=
  match findMaterial itemId rules with
  | Some material => weight material
  | None => 1
  end.

(** A stack bound: a quotient by a zero weight is infinite or NaN. *)
Inductive bound : Type :=
| Finite (z : Z)
| PosInf
| NegInf
| NaN.

Definition getMaxStack (itemId : string) (inventoryCapacity : Z) (rules : Rules) : bound :=
  let w := getItemWeight itemId rules in
  if w =? 0 then
    (if 0 <? inventoryCapacity then PosInf
     else if inventoryCapacity <? 0 then NegInf else NaN)
  else Finite (inventoryCapacity / w).

(** [maxStack - currentAmount] *)
Definition spaceLeftOf (maxStack : bound) (currentAmount : Z) : bound :=
  match maxStack with
  | Finite z => Finite (z - currentAmount)
  | b => b
  end.

(** [Math.min(n, spaceLeft)] *)
Definition minWith (n : Z) (spaceLeft : bound) : bound :=
  match spaceLeft with
  | Finite z => Finite (Z.min n z)
  | PosInf => Finite n
  | NegInf => NegInf
  | NaN => NaN
  end.

(** [spaceLeft < quantity] *)
Definition lessThan (spaceLeft : bound) (quantity : Z) : bool :=
  match spaceLeft with
  | Finite z => z <? quantity
  | NegInf => true
  | PosInf | NaN => false
  end.

(** ** Grid placement utilities *)

(** [Math.sqrt] on a floor-space cost that is a perfect square (1, 4, 9,
    16, ...), as the source's comment has it; on those the integer square
    root is exact.  On a cost that is no perfect square the source's side
    is no integer and this definition does not give it. *)
Definition getStructureSize (spaceCost : Z) : Z := Z.sqrt spaceCost.

Definition isWithinBounds (x y size width height : Z) : bool :=
  (0 <=? x) && (0 <=? y) && (x + size <=? width) && (y + size <=? height).

(** The test of one existing placement inside [isColliding]. *)
Definition noOverlap (x y size : Z) (placement : Placement) : bool :=
  let pSize := p_size placement in
  (x + size <=? p_x placement) || (p_x placement + pSize <=? x) ||
  (y + size <=? p_y placement) || (p_y placement + pSize <=? y).

Fixpoint isColliding (x y size : Z) (placements : list Placement) : bool :=
  match placements with
  | [] => false
  | placement :: rest =>
      if negb (noOverlap x y size placement) then true
      else isColliding x y size rest
  end.

Record PlaceResult : Type := mkPlaceResult {
  valid : bool;
  place_error : option string
}.

Definition canPlaceAt (state : State) (x y size : Z) : PlaceResult :=
  let fs := floorSpace state in
  if negb (isWithinBounds x y size (width fs) (height fs)) then
    mkPlaceResult false (Some "Position out of bounds")
  else if isColliding x y size (placements fs) then
    mkPlaceResult false (Some "Position collides with existing structure")
  else mkPlaceResult true None.

Record Expansion : Type := mkExpansion {
  chunkSize : Z;
  newWidth : Z;
  newHeight : Z;
  cellsAdded : Z;
  cost : Z;
  expandWidth : bool
}.

(** The [while] loop that finds the current target square.  It need not
    terminate (a target that is not positive never overtakes the floor), so
    it runs on fuel and [None] stands for a loop that is still running. *)
Fixpoint chunkLoop (fuel : nat) (width height chunkSize targetSquare : Z)
  : option (Z * Z) :=
  if (targetSquare <=? width) && (targetSquare <=? height) then
    match fuel with
    | O => None
    | S fuel' => chunkLoop fuel' width height (chunkSize * 2) (targetSquare * 2)
    end
  else Some (chunkSize, targetSquare).

(** Fuel that is enough whenever the loop terminates at all. *)
Definition chunkFuel (width height : Z) : nat := Z.to_nat (Z.min width height).

Definition getNextExpansionChunk (state : State) (rules : Rules) : option Expansion :=
  let width := width (floorSpace state) in
  let height := height (floorSpace state) in
  let fr := floorRules rules in
  match chunkLoop (chunkFuel width height) width height
                  (initialChunkSize fr) (initialWidth fr * 2) with
  | None => None
  | Some (chunkSize, targetSquare) =>
      let expandWidth := width <? targetSquare in
      let newWidth := if expandWidth then width + chunkSize else width in
      let newHeight := if expandWidth then height else height + chunkSize in
      let cellsAdded := chunkSize * chunkSize in
      let cost := cellsAdded * costPerCell fr in
      Some (mkExpansion chunkSize newWidth newHeight cellsAdded cost expandWidth)
  end.

(** ** Energy calculations *)

(** [machine.enabled && machine.recipeId && machine.status !== 'blocked'] *)
Definition drawsPower (machine : Machine) : bool :=
  enabled machine && truthy (recipeId machine) &&
  negb (bool_decide (status machine = blocked)).

Definition calculateEnergy (state : State) : Energy :=
  let produced := fold_left (fun sum g => sum + energyOutput g) (generators state) 0 in
  let consumed :=
    fold_left (fun consumed machine =>
                 if drawsPower machine then consumed + energyConsumption machine
                 else consumed)
              (machines state) 0 in
  mkEnergy produced consumed.

(** ** Field updates (the assignments to the cloned state) *)

Definition setStatus (st : Status) (m : Machine) : Machine :=
  mkMachine (m_id m) (recipeId m) (internalBuffer m) st (enabled m)
            (m_spaceUsed m) (energyConsumption m) (m_x m) (m_y m).

Definition setBuffer (b : gmap string cell) (m : Machine) : Machine :=
  mkMachine (m_id m) (recipeId m) b (status m) (enabled m)
            (m_spaceUsed m) (energyConsumption m) (m_x m) (m_y m).

Definition setRecipe (r : option string) (m : Machine) : Machine :=
  mkMachine (m_id m) r (internalBuffer m) (status m) (enabled m)
            (m_spaceUsed m) (energyConsumption m) (m_x m) (m_y m).

Definition setEnabled (e : bool) (m : Machine) : Machine :=
  mkMachine (m_id m) (recipeId m) (internalBuffer m) (status m) e
            (m_spaceUsed m) (energyConsumption m) (m_x m) (m_y m).

Definition setTickSeed (t seed : Z) (s : State) : State :=
  mkState t seed (credits s) (floorSpace s) (energy s) (inventorySpace s)
          (inventory s) (machines s) (generators s) (extractionNodes s)
          (discoveredRecipes s) (unlockedRecipes s) (research s)
          (marketPopularity s).

Definition setCredits (c : Z) (s : State) : State :=
  mkState (tick s) (rngSeed s) c (floorSpace s) (energy s) (inventorySpace s)
          (inventory s) (machines s) (generators s) (extractionNodes s)
          (discoveredRecipes s) (unlockedRecipes s) (research s)
          (marketPopularity s).

Definition setFloorSpace (f : FloorSpace) (s : State) : State :=
  mkState (tick s) (rngSeed s) (credits s) f (energy s) (inventorySpace s)
          (inventory s) (machines s) (generators s) (extractionNodes s)
          (discoveredRecipes s) (unlockedRecipes s) (research s)
          (marketPopularity s).

Definition setEnergy (e : Energy) (s : State) : State :=
  mkState (tick s) (rngSeed s) (credits s) (floorSpace s) e (inventorySpace s)
          (inventory s) (machines s) (generators s) (extractionNodes s)
          (discoveredRecipes s) (unlockedRecipes s) (research s)
          (marketPopularity s).

Definition setInventorySpace (n : Z) (s : State) : State :=
  mkState (tick s) (rngSeed s) (credits s) (floorSpace s) (energy s) n
          (inventory s) (machines s) (generators s) (extractionNodes s)
          (discoveredRecipes s) (unlockedRecipes s) (research s)
          (marketPopularity s).

Definition setInventory (i : gmap string cell) (s : State) : State :=
  mkState (tick s) (rngSeed s) (credits s) (floorSpace s) (energy s)
          (inventorySpace s) i (machines s) (generators s) (extractionNodes s)
          (discoveredRecipes s) (unlockedRecipes s) (research s)
          (marketPopularity s).

Definition setMachines (ms : list Machine) (s : State) : State :=
  mkState (tick s) (rngSeed s) (credits s) (floorSpace s) (energy s)
          (inventorySpace s) (inventory s) ms (generators s) (extractionNodes s)
          (discoveredRecipes s) (unlockedRecipes s) (research s)
          (marketPopularity s).

Definition setGenerators (gs : list Generator) (s : State) : State :=
  mkState (tick s) (rngSeed s) (credits s) (floorSpace s) (energy s)
          (inventorySpace s) (inventory s) (machines s) gs (extractionNodes s)
          (discoveredRecipes s) (unlockedRecipes s) (research s)
          (marketPopularity s).

Definition setDiscovered (l : list string) (s : State) : State :=
  mkState (tick s) (rngSeed s) (credits s) (floorSpace s) (energy s)
          (inventorySpace s) (inventory s) (machines s) (generators s)
          (extractionNodes s) l (unlockedRecipes s) (research s)
          (marketPopularity s).

Definition setUnlocked (l : list string) (s : State) : State :=
  mkState (tick s) (rngSeed s) (credits s) (floorSpace s) (energy s)
          (inventorySpace s) (inventory s) (machines s) (generators s)
          (extractionNodes s) (discoveredRecipes s) l (research s)
          (marketPopularity s).

Definition setResearch (r : Research) (s : State) : State :=
  mkState (tick s) (rngSeed s) (credits s) (floorSpace s) (energy s)
          (inventorySpace s) (inventory s) (machines s) (generators s)
          (extractionNodes s) (discoveredRecipes s) (unlockedRecipes s) r
          (marketPopularity s).

Definition setMarketPopularity (p : gmap string Q) (s : State) : State :=
  mkState (tick s) (rngSeed s) (credits s) (floorSpace s) (energy s)
          (inventorySpace s) (inventory s) (machines s) (generators s)
          (extractionNodes s) (discoveredRecipes s) (unlockedRecipes s)
          (research s) p.

(** [list.includes(id)] *)
Definition includes (l : list string) (id : string) : bool :=
  existsb (String.eqb id) l.

Definition findRecipe (id : string) (rules : Rules) : option Recipe :=
  find (fun r => String.eqb (rec_id r) id) (recipes rules).

(** ** Simulation logic *)

(** *** 1. Power allocation

    [blockLoop n deficit ms] is the [for] loop at [i = n - 1]: it walks
    the machines from the last one down while the deficit is positive and
    returns the machines together with the deficit that is left. *)
Fixpoint blockLoop (n : nat) (deficit : Z) (ms : list Machine) : list Machine * Z :=
  match n with
  | O => (ms, deficit)
  | S i =>
      if 0 <? deficit then
        match ms !! i with
        | Some machine =>
            if drawsPower machine then
              blockLoop i (deficit - energyConsumption machine)
                        (<[i := setStatus blocked machine]> ms)
            else blockLoop i deficit ms
        | None => (ms, deficit)
        end
      else (ms, deficit)
  end.

Definition allocatePower (newState : State) : State :=
  let energy := calculateEnergy newState in
  let newState := setEnergy energy newState in
  if produced energy <? consumed energy then
    let deficit := consumed energy - produced energy in
    let ms := fst (blockLoop (length (machines newState)) deficit (machines newState)) in
    let newState := setMachines ms newState in
    setEnergy (calculateEnergy newState) newState
  else newState.

(** *** 2. Extraction phase *)

Definition extractNode (rules : Rules) (space : Z)
    (inv : gmap string cell) (node : ExtractionNode) : gmap string cell :=
  if active node then
    let resourceId := resourceType node in
    let currentAmount := orZero inv resourceId in
    let maxStack := getMaxStack resourceId space rules in
    let spaceLeft := spaceLeftOf maxStack currentAmount in
    match minWith (rate node) spaceLeft with
    | Finite toAdd =>
        if 0 <? toAdd then <[resourceId := Num (currentAmount + toAdd)]> inv
        else inv
    | _ => inv
    end
  else inv.

Definition extractionPhase (rules : Rules) (newState : State) : State :=
  setInventory
    (fold_left (extractNode rules (inventorySpace newState))
               (extractionNodes newState) (inventory newState))
    newState.

(** *** 3. Machine processing *)

(** One round of the pull loop.  When [toPull] is positive the inventory
    slot is a positive number, so the slot that [-=] reads is [available]. *)
Definition pullItem (acc : gmap string cell * gmap string cell)
    (entry : string * Z) : gmap string cell * gmap string cell :=
  let '(buffer, inv) := acc in
  let '(itemId, needed) := entry in
  let inBuffer := orZero buffer itemId in
  let stillNeeded := needed - inBuffer in
  if 0 <? stillNeeded then
    let available := orZero inv itemId in
    let toPull := Z.min stillNeeded available in
    if 0 <? toPull then
      (<[itemId := Num (inBuffer + toPull)]> buffer,
       <[itemId := Num (available - toPull)]> inv)
    else (buffer, inv)
  else (buffer, inv).

Definition pullPhase (recipe : Recipe) (buffer inv : gmap string cell)
  : gmap string cell * gmap string cell :=
  fold_left pullItem (inputs recipe) (buffer, inv).

(** The completion check: no input is short in the buffer. *)
Definition bufferComplete (recipe : Recipe) (buffer : gmap string cell) : bool :=
  forallb (fun entry : string * Z => negb (orZero buffer entry.1 <? entry.2))
          (inputs recipe).

(** The space check: no output lacks space for its whole quantity. *)
Definition canProduce (rules : Rules) (space : Z) (recipe : Recipe)
    (inv : gmap string cell) : bool :=
  forallb (fun entry : string * Z =>
             let currentAmount := orZero inv entry.1 in
             let maxStack := getMaxStack entry.1 space rules in
             negb (lessThan (spaceLeftOf maxStack currentAmount) entry.2))
          (outputs recipe).

Definition consumeBuffer (recipe : Recipe) (buffer : gmap string cell)
  : gmap string cell :=
  fold_left (fun b (entry : string * Z) => debit b entry.1 entry.2)
            (inputs recipe) buffer.

Definition addOutputs (recipe : Recipe) (inv : gmap string cell)
  : gmap string cell :=
  fold_left (fun i (entry : string * Z) =>
               <[entry.1 := Num (orZero i entry.1 + entry.2)]> i)
            (outputs recipe) inv.

(** What follows the pull phase for one machine. *)
Definition completion (rules : Rules) (space : Z) (recipe : Recipe)
    (buffer inv : gmap string cell) : gmap string cell * gmap string cell :=
  if bufferComplete recipe buffer then
    if canProduce rules space recipe inv then
      (consumeBuffer recipe buffer, addOutputs recipe inv)
    else (buffer, inv)
  else (buffer, inv).

(** The body of the machine loop: the machine and the shared inventory. *)
Definition processMachine (rules : Rules) (space : Z) (unlocked : list string)
    (machine : Machine) (inv : gmap string cell) : Machine * gmap string cell :=
  if negb (enabled machine) || negb (truthy (recipeId machine)) ||
     bool_decide (status machine = blocked) then (machine, inv)
  else
    match findRecipe (default "" (recipeId machine)) rules with
    | None => (setStatus idle machine, inv)
    | Some recipe =>
        if negb (includes unlocked (rec_id recipe)) then
          (setStatus idle machine, inv)
        else
          let machine := setStatus working machine in
          let '(buffer, inv) := pullPhase recipe (internalBuffer machine) inv in
          let '(buffer, inv) := completion rules space recipe buffer inv in
          (setBuffer buffer machine, inv)
    end.

Fixpoint machineLoop (rules : Rules) (space : Z) (unlocked : list string)
    (ms : list Machine) (inv : gmap string cell)
  : list Machine * gmap string cell :=
  match ms with
  | [] => ([], inv)
  | machine :: rest =>
      let '(machine', inv') := processMachine rules space unlocked machine inv in
      let '(rest', inv'') := machineLoop rules space unlocked rest inv' in
      (machine' :: rest', inv'')
  end.

Definition machinePhase (rules : Rules) (newState : State) : State :=
  let '(ms, inv) := machineLoop rules (inventorySpace newState)
                                (unlockedRecipes newState)
                                (machines newState) (inventory newState) in
  setInventory inv (setMachines ms newState).

(** *** 4. Research phase *)

(** [a < b] on drawn values. *)
Definition Qltb (a b : Q) : bool := negb (Qle_bool b a).

Definition undiscoveredRecipes (rules : Rules) (discovered : list string) : list Recipe :=
  filter (fun r => negb (includes discovered (rec_id r))) (recipes rules).

(** The weight of an undiscovered recipe: 1, plus the proximity weight for
    every input item held in the inventory. *)
Definition recipeWeight (rules : Rules) (inv : gmap string cell) (recipe : Recipe) : Q :=
  fold_left (fun weight (entry : string * Z) =>
               if 0 <? orZero inv entry.1
               then (weight + proximityWeight (researchRules rules))%Q
               else weight)
            (inputs recipe) 1%Q.

(** The weighted selection loop, which stops at the first recipe that
    brings [selection] to zero or below. *)
Fixpoint selectLoop (weighted : list (Recipe * Q)) (selection : Q) : option Recipe :=
  match weighted with
  | [] => None
  | (recipe, weight) :: rest =>
      let selection := (selection - weight)%Q in
      if Qle_bool selection 0 then Some recipe else selectLoop rest selection
  end.

(** Returns the state and the seed the generator is left with. *)
Definition researchPhase (rules : Rules) (seed : Z) (newState : State) : State * Z :=
  let spareEnergy := produced (energy newState) - consumed (energy newState) in
  if r_active (research newState) && (energyCost (researchRules rules) <=? spareEnergy) then
    let '(roll, seed) := next seed in
    let discoveryChance := discoveryChance (researchRules rules) in
    let undiscovered := undiscoveredRecipes rules (discoveredRecipes newState) in
    if (0 <? length undiscovered)%nat && Qltb roll discoveryChance then
      let weighted :=
        map (fun recipe => (recipe, recipeWeight rules (inventory newState) recipe))
            undiscovered in
      let totalWeight := fold_left (fun sum w => (sum + w.2)%Q) weighted 0%Q in
      let '(draw, seed) := next seed in
      let selection := (draw * totalWeight)%Q in
      match selectLoop weighted selection with
      | Some recipe =>
          (setDiscovered (discoveredRecipes newState ++ [rec_id recipe]) newState, seed)
      | None => (newState, seed)
      end
    else (newState, seed)
  else (newState, seed).

(** *** 5. Market recovery

    [soldThisTick] is never filled, so every tracked item recovers. *)
Definition marketRecovery (rules : Rules) (newState : State) : State :=
  setMarketPopularity
    ((fun p => Qmin (maxPopularity (market rules)) (p + recoveryRate (market rules))%Q)
       <$> marketPopularity newState)
    newState.

Definition simulateTick (state : State) (rules : Rules) : State :=
  let newState := deepClone state in
  let seed := rngSeed state in
  let newState := allocatePower newState in
  let newState := extractionPhase rules newState in
  let newState := machinePhase rules newState in
  let '(newState, seed) := researchPhase rules seed newState in
  let newState := marketRecovery rules newState in
  setTickSeed (tick newState + 1) seed newState.

(** ** Action handlers *)

Record Result : Type := mkResult {
  state : State;
  error : option string
}.

(** [findIndex], together with the element found there. *)
Fixpoint findIndex {A} (f : A -> bool) (l : list A) : option (nat * A) :=
  match l with
  | [] => None
  | a :: rest =>
      if f a then Some (O, a)
      else (fun found : nat * A => (S found.1, found.2)) <$> findIndex f rest
  end.

(** [generateId()] reads [Math.random()], which is no function of the
    engine's arguments: the id it would return is the [randomId] the
    handlers take. *)
Definition generateId (randomId : string) : string := randomId.

Definition materialName (itemId : string) (rules : Rules) : string :=
  match findMaterial itemId rules with
  | Some material => mat_name material
  | None => itemId
  end.

Definition addMachine (randomId : string) (state : State) (rules : Rules)
    (px py : option Z) : Result :=
  let newState := deepClone state in
  match px, py with
  | Some x, Some y =>
      let size := getStructureSize (baseSpace (machineRules rules)) in
      let placement := canPlaceAt newState x y size in
      if negb (valid placement) then mkResult newState (place_error placement)
      else
        let requiredItemId := mr_itemId (machineRules rules) in
        let available := orZero (inventory newState) requiredItemId in
        if available <? 1 then
          mkResult newState
            (Some ("Need 1 " +:+ materialName requiredItemId rules +:+
                   " in inventory to deploy a machine"))
        else
          let newState :=
            setInventory (debit (inventory newState) requiredItemId 1) newState in
          let machineId := generateId randomId in
          let newState :=
            setMachines
              (machines newState ++
               [mkMachine machineId None ∅ idle true
                          (baseSpace (machineRules rules))
                          (baseEnergy (machineRules rules)) x y])
              newState in
          let fs := floorSpace newState in
          let newState :=
            setFloorSpace
              (mkFloorSpace (width fs) (height fs)
                 (placements fs ++ [mkPlacement machineId x y size type_machine]))
              newState in
          mkResult newState None
  | _, _ => mkResult newState (Some "Position (x, y) is required")
  end.

(** Returning a buffer to the inventory, one entry after the other; the
    keys of an object are distinct, so the order of the entries is
    immaterial and the loop is a pointwise merge. *)
Definition returnBuffer (buffer inv : gmap string cell) : gmap string cell :=
  merge (fun slot quantity =>
           match quantity with
           | Some q => Some (Num (from_option cellZ 0 slot + cellZ q))
           | None => slot
           end)
        inv buffer.

Definition removePlacement (id : string) (fs : FloorSpace) : FloorSpace :=
  match findIndex (fun p => String.eqb (p_id p) id) (placements fs) with
  | Some (placementIndex, _) =>
      mkFloorSpace (width fs) (height fs) (delete placementIndex (placements fs))
  | None => fs
  end.

Definition removeMachine (state : State) (rules : Rules) (machineId : string) : Result :=
  let newState := deepClone state in
  match findIndex (fun m => String.eqb (m_id m) machineId) (machines newState) with
  | None => mkResult newState (Some "Machine not found")
  | Some (machineIndex, machine) =>
      let newState :=
        setInventory (returnBuffer (internalBuffer machine) (inventory newState))
                     newState in
      let newState := setMachines (delete machineIndex (machines newState)) newState in
      let newState :=
        setFloorSpace (removePlacement machineId (floorSpace newState)) newState in
      mkResult newState None
  end.

Definition assignRecipe (state : State) (rules : Rules) (machineId : string)
    (newRecipe : option string) : Result :=
  let newState := deepClone state in
  match findIndex (fun m => String.eqb (m_id m) machineId) (machines newState) with
  | None => mkResult newState (Some "Machine not found")
  | Some (machineIndex, machine) =>
      let rejected :=
        match newRecipe with
        | Some id =>
            match findRecipe id rules with
            | None => Some "Recipe not found"
            | Some _ =>
                if negb (includes (unlockedRecipes newState) id)
                then Some "Recipe not unlocked" else None
            end
        | None => None
        end in
      match rejected with
      | Some msg => mkResult newState (Some msg)
      | None =>
          let newState :=
            setInventory (returnBuffer (internalBuffer machine) (inventory newState))
                         newState in
          let machine :=
            setStatus (if truthy newRecipe then working else idle)
                      (setBuffer ∅ (setRecipe newRecipe machine)) in
          mkResult (setMachines (<[machineIndex := machine]> (machines newState)) newState)
                   None
      end
  end.

Definition findGeneratorType (id : string) (rules : Rules) : option GeneratorType :=
  find (fun g => String.eqb (gt_id g) id) (generatorTypes rules).

Definition addGenerator (randomId : string) (state : State) (rules : Rules)
    (generatorType : string) (px py : option Z) : Result :=
  let newState := deepClone state in
  match px, py with
  | Some x, Some y =>
      match findGeneratorType generatorType rules with
      | None => mkResult newState (Some "Generator type not found")
      | Some genConfig =>
          let size := getStructureSize (spaceCost genConfig) in
          let placement := canPlaceAt newState x y size in
          if negb (valid placement) then mkResult newState (place_error placement)
          else
            let requiredItemId := gt_itemId genConfig in
            let available := orZero (inventory newState) requiredItemId in
            if available <? 1 then
              mkResult newState
                (Some ("Need 1 " +:+ materialName requiredItemId rules +:+
                       " in inventory to deploy this generator"))
            else
              let newState :=
                setInventory (debit (inventory newState) requiredItemId 1) newState in
              let generatorId := generateId randomId in
              let newState :=
                setGenerators
                  (generators newState ++
                   [mkGenerator generatorId generatorType (gt_energyOutput genConfig)
                                (spaceCost genConfig) x y])
                  newState in
              let fs := floorSpace newState in
              let newState :=
                setFloorSpace
                  (mkFloorSpace (width fs) (height fs)
                     (placements fs ++
                      [mkPlacement generatorId x y size type_generator]))
                  newState in
              mkResult (setEnergy (calculateEnergy newState) newState) None
      end
  | _, _ => mkResult newState (Some "Position (x, y) is required")
  end.

Definition removeGenerator (state : State) (rules : Rules) (generatorId : string) : Result :=
  let newState := deepClone state in
  match findIndex (fun g => String.eqb (g_id g) generatorId) (generators newState) with
  | None => mkResult newState (Some "Generator not found")
  | Some (genIndex, _) =>
      let newState := setGenerators (delete genIndex (generators newState)) newState in
      let newState :=
        setFloorSpace (removePlacement generatorId (floorSpace newState)) newState in
      mkResult (setEnergy (calculateEnergy newState) newState) None
  end.

(** [None] when the expansion loop does not terminate. *)
Definition buyFloorSpace (state : State) (rules : Rules) : option Result :=
  let newState := deepClone state in
  match getNextExpansionChunk newState rules with
  | None => None
  | Some expansion =>
      if credits newState <? cost expansion then
        Some (mkResult newState
                (Some ("Not enough credits (need " +:+ pretty (cost expansion) +:+ ")")))
      else
        let newState := setCredits (credits newState - cost expansion) newState in
        let newState :=
          setFloorSpace
            (mkFloorSpace (newWidth expansion) (newHeight expansion)
                          (placements (floorSpace newState)))
            newState in
        Some (mkResult newState None)
  end.

(** [marketPopularity[itemId] || fallback]: a multiplier of 0 is falsy. *)
Definition popularityOr (fallback : Q) (pop : gmap string Q) (itemId : string) : Q :=
  match pop !! itemId with
  | Some p => if Qeq_bool p 0 then fallback else p
  | None => fallback
  end.

(** The credits are the floor of a product of doubles, which rounding can
    move by one (4.35 x 100 is 434.99999999999994): both products are
    rounded.  The multiplier that is stored is kept as the exact
    difference. *)
Definition sellGoods (state : State) (rules : Rules) (itemId : string)
    (quantity : Z) : Result :=
  let newState := deepClone state in
  let available := orZero (inventory newState) itemId in
  if available <? quantity then
    mkResult newState (Some "Not enough items in inventory")
  else
    match findMaterial itemId rules with
    | None => mkResult newState (Some "Item not found in materials list")
    | Some material =>
        let popularity := popularityOr 1 (marketPopularity newState) itemId in
        let pricePerUnit := Double.mul (basePrice material) popularity in
        let totalCredits := Qfloor (Double.mul pricePerUnit (inject_Z quantity)) in
        let newState :=
          setInventory (debit (inventory newState) itemId quantity) newState in
        let newState := setCredits (credits newState + totalCredits) newState in
        let started :=
          popularityOr (maxPopularity (market rules)) (marketPopularity newState) itemId in
        let decayed :=
          Qmax (minPopularity (market rules))
               (started - decayRate (market rules) * inject_Z quantity) in
        mkResult
          (setMarketPopularity (<[itemId := decayed]> (marketPopularity newState)) newState)
          None
    end.

Definition toggleResearch (state : State) (rules : Rules) (active : bool) : Result :=
  let newState := deepClone state in
  let newState :=
    setResearch (mkResearch active (r_energyConsumption (research newState))) newState in
  mkResult (setEnergy (calculateEnergy newState) newState) None.

Definition unlockRecipe (state : State) (rules : Rules) (recipeId : string) : Result :=
  let newState := deepClone state in
  if negb (includes (discoveredRecipes newState) recipeId) then
    mkResult newState (Some "Recipe not discovered yet")
  else if includes (unlockedRecipes newState) recipeId then
    mkResult newState (Some "Recipe already unlocked")
  else
    mkResult (setUnlocked (unlockedRecipes newState ++ [recipeId]) newState) None.

Definition unblockMachine (state : State) (rules : Rules) (machineId : string) : Result :=
  let newState := deepClone state in
  match findIndex (fun m => String.eqb (m_id m) machineId) (machines newState) with
  | None => mkResult newState (Some "Machine not found")
  | Some (machineIndex, machine) =>
      if negb (bool_decide (status machine = blocked)) then
        mkResult newState (Some "Machine is not blocked")
      else
        let machine :=
          setStatus (if truthy (recipeId machine) then working else idle) machine in
        let newState :=
          setMachines (<[machineIndex := machine]> (machines newState)) newState in
        mkResult (setEnergy (calculateEnergy newState) newState) None
  end.

Definition toggleMachine (state : State) (rules : Rules) (machineId : string) : Result :=
  let newState := deepClone state in
  match findIndex (fun m => String.eqb (m_id m) machineId) (machines newState) with
  | None => mkResult newState (Some "Machine not found")
  | Some (machineIndex, machine) =>
      let machine := setEnabled (negb (enabled machine)) machine in
      let newState :=
        setMachines (<[machineIndex := machine]> (machines newState)) newState in
      mkResult (setEnergy (calculateEnergy newState) newState) None
  end.

(** The cost is [floor(baseCost * costGrowth ^ currentLevel)].  The
    quotient and the power are exact here; an upgrade amount of 0 or a
    growth of 0, on which the source computes with infinities, is outside
    what this definition covers. *)
Definition buyInventorySpace (state : State) (rules : Rules) : Result :=
  let newState := deepClone state in
  let ir := inventoryRules rules in
  let currentLevel := inventorySpace newState / upgradeAmount ir in
  let cost := Qfloor (baseCost ir * costGrowth ir ^ currentLevel) in
  if credits newState <? cost then
    mkResult newState (Some ("Not enough credits (need " +:+ pretty cost +:+ ")"))
  else
    let newState := setCredits (credits newState - cost) newState in
    mkResult (setInventorySpace (inventorySpace newState + upgradeAmount ir) newState)
             None.

(** ** Main engine function *)

Inductive Action : Type :=
| SIMULATE
| ADD_MACHINE (x y : option Z)
| REMOVE_MACHINE (machineId : string)
| ASSIGN_RECIPE (machineId : string) (recipeId : option string)
| ADD_GENERATOR (generatorType : string) (x y : option Z)
| REMOVE_GENERATOR (generatorId : string)
| BUY_FLOOR_SPACE
| SELL_GOODS (itemId : string) (quantity : Z)
| TOGGLE_RESEARCH (active : bool)
| UNLOCK_RECIPE (recipeId : string)
| UNBLOCK_MACHINE (machineId : string)
| TOGGLE_MACHINE (machineId : string)
| BUY_INVENTORY_SPACE
| UNKNOWN (type : string).

(** [randomId] is the id [generateId] returns during this call; the
    result is [None] when the call does not return. *)
Definition engine (randomId : string) (state : State) (rules : Rules)
    (action : Action) : option Result :=
  match action with
  | SIMULATE => Some (mkResult (simulateTick state rules) None)
  | ADD_MACHINE x y => Some (addMachine randomId state rules x y)
  | REMOVE_MACHINE machineId => Some (removeMachine state rules machineId)
  | ASSIGN_RECIPE machineId recipeId => Some (assignRecipe state rules machineId recipeId)
  | ADD_GENERATOR generatorType x y =>
      Some (addGenerator randomId state rules generatorType x y)
  | REMOVE_GENERATOR generatorId => Some (removeGenerator state rules generatorId)
  | BUY_FLOOR_SPACE => buyFloorSpace state rules
  | SELL_GOODS itemId quantity => Some (sellGoods state rules itemId quantity)
  | TOGGLE_RESEARCH active => Some (toggleResearch state rules active)
  | UNLOCK_RECIPE recipeId => Some (unlockRecipe state rules recipeId)
  | UNBLOCK_MACHINE machineId => Some (unblockMachine state rules machineId)
  | TOGGLE_MACHINE machineId => Some (toggleMachine state rules machineId)
  | BUY_INVENTORY_SPACE => Some (buyInventorySpace state rules)
  | UNKNOWN type => Some (mkResult state (Some ("Unknown action type: " +:+ type)))
  end.

(** ** The earlier copy of the tick

    The repository holds a second copy of [simulateTick], from the engine
    without grid placement.  It differs from the one above in the
    completion of a recipe only: it consumes the buffer at once and adds of
    each output what fits, the excess being wasted. *)

Module Earlier.

Definition addOutputs (rules : Rules) (space : Z) (recipe : Recipe)
    (inv : gmap string cell) : gmap string cell :=
  fold_left (fun i (entry : string * Z) =>
               let currentAmount := orZero i entry.1 in
               let maxStack := getMaxStack entry.1 space rules in
               let spaceLeft := spaceLeftOf maxStack currentAmount in
               match minWith entry.2 spaceLeft with
               | Finite toAdd =>
                   if 0 <? toAdd then <[entry.1 := Num (currentAmount + toAdd)]> i
                   else i
               | _ => i
               end)
            (outputs recipe) inv.

Definition completion (rules : Rules) (space : Z) (recipe : Recipe)
    (buffer inv : gmap string cell) : gmap string cell * gmap string cell :=
  if bufferComplete recipe buffer then
    (consumeBuffer recipe buffer, addOutputs rules space recipe inv)
  else (buffer, inv).

Definition processMachine (rules : Rules) (space : Z) (unlocked : list string)
    (machine : Machine) (inv : gmap string cell) : Machine * gmap string cell :=
  if negb (enabled machine) || negb (truthy (recipeId machine)) ||
     bool_decide (status machine = blocked) then (machine, inv)
  else
    match findRecipe (default "" (recipeId machine)) rules with
    | None => (setStatus idle machine, inv)
    | Some recipe =>
        if negb (includes unlocked (rec_id recipe)) then
          (setStatus idle machine, inv)
        else
          let machine := setStatus working machine in
          let '(buffer, inv) := pullPhase recipe (internalBuffer machine) inv in
          let '(buffer, inv) := completion rules space recipe buffer inv in
          (setBuffer buffer machine, inv)
    end.

Fixpoint machineLoop (rules : Rules) (space : Z) (unlocked : list string)
    (ms : list Machine) (inv : gmap string cell)
  : list Machine * gmap string cell :=
  match ms with
  | [] => ([], inv)
  | machine :: rest =>
      let '(machine', inv') := processMachine rules space unlocked machine inv in
      let '(rest', inv'') := machineLoop rules space unlocked rest inv' in
      (machine' :: rest', inv'')
  end.

Definition machinePhase (rules : Rules) (newState : State) : State :=
  let '(ms, inv) := machineLoop rules (inventorySpace newState)
                                (unlockedRecipes newState)
                                (machines newState) (inventory newState) in
  setInventory inv (setMachines ms newState).

Definition simulateTick (state : State) (rules : Rules) : State :=
  let newState := deepClone state in
  let seed := rngSeed state in
  let newState := allocatePower newState in
  let newState := extractionPhase rules newState in
  let newState := machinePhase rules newState in
  let '(newState, seed) := researchPhase rules seed newState in
  let newState := marketRecovery rules newState in
  setTickSeed (tick newState + 1) seed newState.

End Earlier.

(** ** Sample data

    A cut of the default rules (the floor rules follow the source's
    comment: an 8x8 start whose first target is 16x16) and small states on
    which the engine is evaluated below. *)

Definition sampleRules : Rules :=
  mkRules
    [ mkMaterial "wood" "Wood" 2 1;
      mkMaterial "stone" "Stone" 2 1;
      mkMaterial "planks" "Planks" 5 2;
      mkMaterial "production_machine" "Production Machine" 100 20;
      mkMaterial "manual_crank" "Manual Crank" 30 8 ]
    [ mkRecipe "planks" [("wood", 2)] [("planks", 1)];
      mkRecipe "charcoal" [("wood", 3)] [("charcoal", 2)];
      mkRecipe "stone_bricks" [("stone", 2)] [("stone_bricks", 1)] ]
    (mkMarket (5 # 100) (2 # 100) (1 # 2) 2)
    (mkResearchRules 3 (15 # 100) (1 # 2))
    (mkMachineRules "production_machine" 4 2)
    [ mkGeneratorType "manual_crank" "manual_crank" 3 1;
      mkGeneratorType "water_wheel" "water_wheel" 8 4 ]
    (mkFloorRules 8 8 10)
    (mkInventoryRules 50 (3 # 2) 50).

Definition sampleState : State :=
  mkState 0 12345 500 (mkFloorSpace 8 8 []) (mkEnergy 0 0) 100
          {[ "wood" := Num 7 ]} [] []
          [mkNode "node_wood_1" "wood" 2 true]
          ["planks"] ["planks"] (mkResearch false 5)
          {[ "wood" := 1%Q ]}.

(** ** Doubles, as a number format

    [magnitude a] is what [Double.round] gives on a positive [a]; a value
    is [representable] when it is an integer of at most 53 bits times a
    power of two that is not below the smallest subnormal. *)

Definition magnitude (a : Q) : Q :=
  (inject_Z (Double.roundHalfEven (a / 2 ^ Double.ulpExponent a))
   * 2 ^ Double.ulpExponent a)%Q.

Definition representable (q : Q) : Prop :=
  exists m e : Z, -1074 <= e /\ Z.abs m <= 2 ^ 53 /\ (q == inject_Z m * 2 ^ e)%Q.

(** The sample rules with another market table. *)
Definition withMarket (m : MarketRules) (rules : Rules) : Rules :=
  mkRules (materials rules) (recipes rules) m (researchRules rules)
          (machineRules rules) (generatorTypes rules) (floorRules rules)
          (inventoryRules rules).


(** A market whose minimum exceeds its maximum. *)
Definition invertedRules : Rules :=
  withMarket (mkMarket (5 # 100) (2 # 100) 3 2) sampleRules.

(** A 16x8 floor, the second step of the expansion sequence, with credits
    to spare. *)
Definition floor16x8 : State :=
  setFloorSpace (mkFloorSpace 16 8 []) (setCredits 5000 sampleState).

(** ** Floor expansion, as the specification words it *)

(** The number of floor cells an expansion really adds. *)
Definition cellsActuallyAdded (before after : FloorSpace) : Z :=
  width after * height after - width before * height before.

(** [n] successive purchases of floor space. *)
Fixpoint expandTimes (n : nat) (rules : Rules) (s : State) : option State :=
  match n with
  | O => Some s
  | S k =>
      match buyFloorSpace s rules with
      | Some res => expandTimes k rules (state res)
      | None => None
      end
  end.

Definition dimensions (s : State) : Z * Z :=
  (width (floorSpace s), height (floorSpace s)).

(** ** Power allocation, as the specification words it *)

(** Marking an eligible machine (enabled, assigned, not blocked). *)
Definition blockIfDrawing (m : Machine) : Machine :=
  if drawsPower m then setStatus blocked m else m.

(** The summed draw of the eligible machines of a list. *)
Fixpoint drawOf (ms : list Machine) : Z :=
  match ms with
  | [] => 0
  | m :: rest => (if drawsPower m then energyConsumption m else 0) + drawOf rest
  end.

(** The deficit once the machines from position [j] on have been walked. *)
Definition deficitAfter (s : State) (j : nat) : Z :=
  consumed (calculateEnergy s) - produced (calculateEnergy s)
  - drawOf (drop j (machines s)).

(** ** Recipe completion, as the specification words it *)

(** The quantity an entry list asks of an item: its multiplicity in the
    multiset the entries stand for. *)
Fixpoint quantityOf (entries : list (string * Z)) (itemId : string) : Z :=
  match entries with
  | [] => 0
  | entry :: rest =>
      (if decide (entry.1 = itemId) then entry.2 else 0) + quantityOf rest itemId
  end.

(** An output has room when the space left for its item, the maximum
    stack less the current amount, is not below its whole quantity. *)
Definition hasRoom (rules : Rules) (space : Z) (inv : gmap string cell)
    (entry : string * Z) : Prop :=
  lessThan (spaceLeftOf (getMaxStack entry.1 space rules) (orZero inv entry.1))
           entry.2 = false.

Definition planksRecipe : Recipe := mkRecipe "planks" [("wood", 2)] [("planks", 1)].

Definition sampleMachine : Machine :=
  mkMachine "m1" (Some "planks") ∅ working true 4 2 0 0.

(** ** Research, as the specification words it *)

(** The state the research phase of a tick starts from. *)
Definition beforeResearch (s : State) (rules : Rules) : State :=
  machinePhase rules (extractionPhase rules (allocatePower (deepClone s))).

(** How many of the input items are held with a quantity above 0. *)
Fixpoint heldCount (inv : gmap string cell) (entries : list (string * Z)) : Z :=
  match entries with
  | [] => 0
  | e :: rest => (if 0 <? orZero inv e.1 then 1 else 0) + heldCount inv rest
  end.

Fixpoint sumWeights (weight : Recipe -> Q) (l : list Recipe) : Q :=
  match l with
  | [] => 0
  | r :: rest => weight r + sumWeights weight rest
  end.

(** The selection that is left after the weights of [walked] have been
    subtracted from [x]. *)
Definition runningSelection (weight : Recipe -> Q) (x : Q) (walked : list Recipe) : Q :=
  x - sumWeights weight walked.

(** [r] is the recipe at which the walk over [und], in order, first brings
    the running selection to 0 or below. *)
Definition selected (weight : Recipe -> Q) (x : Q) (und : list Recipe) (r : Recipe) : Prop :=
  exists pre post,
    und = pre ++ r :: post /\
    (runningSelection weight x (pre ++ [r]) <= 0)%Q /\
    forall n : nat, (n < length pre)%nat ->
                    (0 < runningSelection weight x (take (S n) pre))%Q.

(** A state whose seed makes the first draw of the tick fall below the
    discovery chance, with research on and a generator to feed it. *)
Definition researchState (seed : Z) : State :=
  mkState 0 seed 500 (mkFloorSpace 8 8 []) (mkEnergy 0 0) 100
          {[ "wood" := Num 7 ]} []
          [mkGenerator "starter_crank" "manual_crank" 3 1 0 0]
          [mkNode "node_wood_1" "wood" 2 true]
          ["planks"] ["planks"] (mkResearch true 5) ∅.

(** ** Placement, as the specification words it *)

(** The footprint of [p] lies within the floor. *)
Definition inBounds (fs : FloorSpace) (p : Placement) : Prop :=
  0 <= p_x p /\ 0 <= p_y p /\
  p_x p + p_size p <= width fs /\ p_y p + p_size p <= height fs.

(** The square anchored at [(x, y)] and [p]'s square do not overlap: one
    is entirely left of, right of, above or below the other. *)
Definition apart (x y size : Z) (p : Placement) : Prop :=
  x + size <= p_x p \/ p_x p + p_size p <= x \/
  y + size <= p_y p \/ p_y p + p_size p <= y.

Definition disjointPlacements (p q : Placement) : Prop :=
  apart (p_x p) (p_y p) (p_size p) q.

Definition placementsOk (fs : FloorSpace) : Prop :=
  Forall (inBounds fs) (placements fs) /\
  forall (i j : nat) (p q : Placement),
    i <> j -> placements fs !! i = Some p -> placements fs !! j = Some q ->
    disjointPlacements p q.

(** The states reached from [s0] by ticks and accepted commands. *)
Inductive reachable (rules : Rules) (s0 : State) : State -> Prop :=
| reachable_start : reachable rules s0 s0
| reachable_step (s : State) (randomId : string) (a : Action) (res : Result) :
    reachable rules s0 s ->
    engine randomId s rules a = Some res ->
    error res = None ->
    reachable rules s0 (state res).

(** An 8x8 floor with one 2x2 structure in its far corner. *)
Definition crowdedCorner : State :=
  setFloorSpace (mkFloorSpace 8 8 [mkPlacement "m0" 6 6 2 type_machine]) sampleState.

(** A state that holds a machine to deploy. *)
Definition readyToBuild : State :=
  setInventory {[ "production_machine" := Num 1 ]} sampleState.

(** ** Capacity, as the specification words it *)

(** Every slot of an inventory fits the weight capacity. *)
Definition fitsCapacity (rules : Rules) (space : Z) (inv : gmap string cell) : Prop :=
  forall (itemId : string) (c : cell),
    inv !! itemId = Some c -> cellZ c * getItemWeight itemId rules <= space.

Definition capacityOk (rules : Rules) (s : State) : Prop :=
  fitsCapacity rules (inventorySpace s) (inventory s).

(** Rules as the tables give them: positive weights, recipe outputs that
    are an object's entries (distinct keys), and an upgrade that does not
    shrink the store. *)
Definition rulesOk (rules : Rules) : Prop :=
  (forall m, m ∈ materials rules -> 0 < weight m) /\
  (forall r, r ∈ recipes rules -> NoDup (outputs r).*1) /\
  0 <= upgradeAmount (inventoryRules rules).

(** The commands that keep the capacity: all but the two that return a
    buffer, a sale being of at least one unit. *)
Definition keepsCapacity (a : Action) : Prop :=
  match a with
  | REMOVE_MACHINE _ => False
  | ASSIGN_RECIPE _ _ => False
  | SELL_GOODS _ quantity => 0 < quantity
  | _ => True
  end.

(** A full store of wood, and a machine that still holds one wood. *)
Definition fullStore : State :=
  setMachines [mkMachine "m1" (Some "planks") {[ "wood" := Num 1 ]} working false 4 2 0 0]
              (setInventory {[ "wood" := Num 100 ]} sampleState).

(** ** Replaying commands *)

(** [createInitialState]: a copy of the initial state, seeded. *)
Definition createInitialState (initialState : State) (customSeed : option Z) : State :=
  let state := deepClone initialState in
  match customSeed with
  | Some seed => setTickSeed (tick state) seed state
  | None => state
  end.

(** Applying commands in order; [randomIds n] is the id [Math.random]
    would give during the [n]-th call. *)
Fixpoint replay (randomIds : nat -> string) (n : nat) (rules : Rules)
    (s : State) (commands : list Action) : option State :=
  match commands with
  | [] => Some s
  | a :: rest =>
      match engine (randomIds n) s rules a with
      | Some res => replay randomIds (S n) rules (state res) rest
      | None => None
      end
  end.

(** A machine on the planks recipe, two wood in store and no room for a
    plank (50 planks of weight 2 on a capacity of 100); no extraction. *)
Definition stalledState : State :=
  mkState 0 12345 500 (mkFloorSpace 8 8 []) (mkEnergy 3 2) 100
          {[ "wood" := Num 2; "planks" := Num 50 ]}
          [sampleMachine]
          [mkGenerator "starter_crank" "manual_crank" 3 1 0 0]
          []
          ["planks"; "charcoal"] ["planks"; "charcoal"] (mkResearch false 5) ∅.

(** The same with a machine on the charcoal recipe (3 wood for 2
    charcoal) and room for one charcoal only. *)
Definition nearlyFullState : State :=
  mkState 0 12345 500 (mkFloorSpace 8 8 []) (mkEnergy 3 2) 100
          {[ "wood" := Num 3; "charcoal" := Num 99 ]}
          [mkMachine "m1" (Some "charcoal") ∅ working true 4 2 0 0]
          [mkGenerator "starter_crank" "manual_crank" 3 1 0 0]
          []
          ["planks"; "charcoal"] ["planks"; "charcoal"] (mkResearch false 5) ∅.

(** Three machines that draw 2 each on a supply of 3. *)
Definition brownoutState : State :=
  setMachines
    [ mkMachine "m1" (Some "planks") ∅ working true 4 2 0 0;
      mkMachine "m2" (Some "planks") ∅ working true 4 2 2 0;
      mkMachine "m3" (Some "planks") ∅ working true 4 2 4 0 ]
    (setGenerators [mkGenerator "starter_crank" "manual_crank" 3 1 0 2] sampleState).

Fixpoint simulateTicks (n : nat) (rules : Rules) (s : State) : State :=
  match n with
  | O => s
  | S k => simulateTicks k rules (simulateTick s rules)
  end.

(** ** More of the engine, as its users see it *)

(** The seed the generator holds after [n] draws. *)
Fixpoint seedAfter (n : nat) (seed : Z) : Z :=
  match n with
  | O => seed
  | S k => (next (seedAfter k seed)).2
  end.

(** What a tick may change of a machine: its status and its buffer, and
    nothing at all of a machine that is blocked. *)
Definition tickedMachine (m m' : Machine) : Prop :=
  m_id m' = m_id m /\ recipeId m' = recipeId m /\ enabled m' = enabled m /\
  m_spaceUsed m' = m_spaceUsed m /\ energyConsumption m' = energyConsumption m /\
  m_x m' = m_x m /\ m_y m' = m_y m /\
  (status m = blocked -> m' = m).

(** The recipe lists are sets, and what is unlocked has been discovered. *)
Definition recipesOk (s : State) : Prop :=
  NoDup (discoveredRecipes s) /\ NoDup (unlockedRecipes s) /\
  unlockedRecipes s ⊆ discoveredRecipes s.

(** Market constants as the tables give them. *)
Definition marketOk (rules : Rules) : Prop :=
  (minPopularity (market rules) <= maxPopularity (market rules))%Q /\
  (0 <= decayRate (market rules))%Q /\
  (0 <= recoveryRate (market rules))%Q.

(** Every tracked multiplier lies between the configured bounds. *)
Definition popularityOk (rules : Rules) (s : State) : Prop :=
  forall (k : string) (p : Q),
    marketPopularity s !! k = Some p ->
    (minPopularity (market rules) <= p <= maxPopularity (market rules))%Q.

(** A sale of a quantity that is not negative, any other command. *)
Definition sellsNonNegative (a : Action) : Prop :=
  match a with
  | SELL_GOODS _ quantity => 0 <= quantity
  | _ => True
  end.

(** Two machines drawing 2 each on a supply of 3, the second one shed. *)
Definition shedState : State :=
  setEnergy (mkEnergy 3 2)
    (setMachines
       [ mkMachine "m1" (Some "planks") ∅ working true 4 2 0 0;
         mkMachine "m2" (Some "planks") ∅ blocked true 4 2 2 0 ]
       (setGenerators [mkGenerator "starter_crank" "manual_crank" 3 1 0 2] sampleState)).

(** The energy snapshot is the energy of the state that carries it. *)
Definition snapshotCurrent (s : State) : Prop := energy s = calculateEnergy s.

(** The commands that do not take a machine's draw away behind the
    snapshot's back: all but REMOVE_MACHINE and ASSIGN_RECIPE. *)
Definition keepsSnapshot (a : Action) : Prop :=
  match a with
  | REMOVE_MACHINE _ => False
  | ASSIGN_RECIPE _ _ => False
  | _ => True
  end.


(** ** The frontend's dispatch

    The page keeps the game state and a log of ticks, newest first.  The
    entry that [generateTickLog] builds from the two states (its events and
    a wall-clock stamp) is kept abstract; showing the error and redrawing
    the page are left out. *)

Section Frontend.

Variable LogEntry : Type.
Variable generateTickLog : State -> State -> LogEntry.

Record Page : Type := mkPage {
  gameState : State;
  tickLog : list LogEntry
}.

Definition MAX_LOG_ENTRIES : nat := 100.

(** [tickLog.unshift(logEntry); if (tickLog.length > MAX_LOG_ENTRIES) tickLog.pop()] *)
Definition pushLog (logEntry : LogEntry) (log : list LogEntry) : list LogEntry :=
  let log := logEntry :: log in
  if (MAX_LOG_ENTRIES <? length log)%nat then removelast log else log.

Definition isSimulate (action : Action) : bool :=
  match action with SIMULATE => true | _ => false end.

Definition dispatch (randomId : string) (rules : Rules) (page : Page)
    (action : Action) : option Page :=
  let prevState := gameState page in
  match engine randomId (gameState page) rules action with
  | None => None
  | Some result =>
      if truthy (error result) then Some page
      else
        let gameState := state result in
        let tickLog :=
          if isSimulate action
          then pushLog (generateTickLog prevState gameState) (tickLog page)
          else tickLog page in
        Some (mkPage gameState tickLog)
  end.

End Frontend.

Arguments mkPage {LogEntry}.
Arguments gameState {LogEntry}.
Arguments tickLog {LogEntry}.
Arguments pushLog {LogEntry}.
Arguments dispatch {LogEntry}.

(** ** Stock that is never negative *)

(** No slot of an inventory or of a buffer holds a negative number. *)
Definition nonNegative (m : gmap string cell) : Prop :=
  forall (k : string) (c : cell), m !! k = Some c -> 0 <= cellZ c.

Definition stockOk (s : State) : Prop :=
  nonNegative (inventory s) /\
  Forall (fun m => nonNegative (internalBuffer m)) (machines s).

(** Recipes as the tables give them: the inputs are an object's entries
    (distinct keys) and no output quantity is negative. *)
Definition recipeTablesOk (rules : Rules) : Prop :=
  forall r, r ∈ recipes rules ->
    NoDup (inputs r).*1 /\ Forall (fun e : string * Z => 0 <= e.2) (outputs r).

(** A machine holding one wood of the two its recipe needs, next to an
    inventory of one more. *)
Definition halfFedState : State :=
  setInventory {[ "wood" := Num 1 ]}
    (setMachines [mkMachine "m1" (Some "planks") {[ "wood" := Num 1 ]} working true 4 2 0 0]
       sampleState).

(** * Properties *)

(** ** The generator *)

(** The first draws of Mulberry32 from a few seeds, and the seed it is
    left with. *)
Lemma next_test_vectors :
  next 12345 = (Qmake 4207900869 4294967296, 1831578158) /\
  next 7 = (Qmake 50271532 4294967296, 1831565820) /\
  next (-5) = (Qmake 2078107854 4294967296, 1831565808) /\
  next 2147483647 = (Qmake 1842962257 4294967296, -315917836).
Proof. vm_compute. repeat split. Qed.

(** A draw lies in [0, 1). *)
Lemma next_range (seed : Z) : (0 <= (next seed).1 < 1)%Q.
Proof.
  unfold next. cbn [fst]. unfold Int32.ToUint32, Int32.two32.
  set (v := Int32.bxor _ _).
  pose proof (Z.mod_pos_bound v 4294967296 ltac:(lia)) as Hb.
  unfold Qle, Qlt. simpl. lia.
Qed.

(** ** Rejected commands *)

Ltac handler_cases :=
  repeat (simpl in *; simplify_eq; try done; case_match).

(** C2: whenever the engine returns a result that carries an error message,
    for any state, rules and command (unknown tags included), the state in
    the result is the input state: no effect is applied in part. *)
Theorem engine_error_keeps_state (randomId : string) (s : State) (rules : Rules)
    (a : Action) (res : Result) :
  engine randomId s rules a = Some res ->
  error res <> None ->
  state res = s.
Proof.
  intros Hrun Herr.
  destruct a; simpl in Hrun.
  all: try (injection Hrun as <-).
  - done.
  - unfold addMachine, deepClone in *. handler_cases.
  - unfold removeMachine, deepClone in *. handler_cases.
  - unfold assignRecipe, deepClone in *. handler_cases.
  - unfold addGenerator, deepClone in *. handler_cases.
  - unfold removeGenerator, deepClone in *. handler_cases.
  - unfold buyFloorSpace, deepClone in *. handler_cases.
  - unfold sellGoods, deepClone in *. handler_cases.
  - done.
  - unfold unlockRecipe, deepClone in *. handler_cases.
  - unfold unblockMachine, deepClone in *. handler_cases.
  - unfold toggleMachine, deepClone in *. handler_cases.
  - unfold buyInventorySpace, deepClone in *. handler_cases.
  - done.
Qed.

Lemma engine_error_keeps_state_witness :
  exists res,
    engine "id" sampleState sampleRules (SELL_GOODS "wood" 8) = Some res /\
    error res = Some "Not enough items in inventory" /\
    state res = sampleState.
Proof.
  eexists. split; [reflexivity |]. split; [reflexivity |].
  apply (engine_error_keeps_state "id" sampleState sampleRules (SELL_GOODS "wood" 8)).
  - reflexivity.
  - discriminate.
Defined.

(** ** Selling goods *)

Lemma orZero_Some (m : gmap string cell) (k : string) (c : cell) :
  m !! k = Some c -> orZero m k = cellZ c.
Proof. intros H. unfold orZero. by rewrite H. Qed.

Lemma orZero_None (m : gmap string cell) (k : string) :
  m !! k = None -> orZero m k = 0.
Proof. intros H. unfold orZero. by rewrite H. Qed.

Lemma orZero_insert (m : gmap string cell) (k : string) (z : Z) :
  orZero (<[k := Num z]> m) k = z.
Proof. unfold orZero. by rewrite lookup_insert_eq. Qed.

Lemma orZero_insert_ne (m : gmap string cell) (k j : string) (c : cell) :
  k <> j -> orZero (<[k := c]> m) j = orZero m j.
Proof. intros H. unfold orZero. by rewrite lookup_insert_ne. Qed.

Lemma debit_other (m : gmap string cell) (k j : string) (q : Z) :
  k <> j -> debit m k q !! j = m !! j.
Proof.
  intros H. unfold debit.
  destruct (m !! k) as [c|]; [destruct (cellZ c - q =? 0) |].
  - by rewrite lookup_delete_ne.
  - by rewrite lookup_insert_ne.
  - by rewrite lookup_insert_ne.
Qed.

Lemma orZero_debit_other (m : gmap string cell) (k j : string) (q : Z) :
  k <> j -> orZero (debit m k q) j = orZero m j.
Proof. intros H. unfold orZero. by rewrite debit_other. Qed.

(** Debiting a slot that is present leaves the difference (a slot that
    reaches 0 is deleted and reads as 0). *)
Lemma orZero_debit_present (m : gmap string cell) (k : string) (c : cell) (q : Z) :
  m !! k = Some c -> orZero (debit m k q) k = cellZ c - q.
Proof.
  intros H. unfold debit. rewrite H.
  destruct (cellZ c - q =? 0) eqn:E.
  - apply Z.eqb_eq in E. unfold orZero. rewrite lookup_delete_eq. lia.
  - apply orZero_insert.
Qed.

Lemma popularityOr_tracked (fallback p : Q) (pop : gmap string Q) (k : string) :
  pop !! k = Some p -> ~ (p == 0)%Q -> popularityOr fallback pop k = p.
Proof.
  intros H Hp. unfold popularityOr. rewrite H.
  destruct (Qeq_bool p 0) eqn:E; [| done].
  apply Qeq_bool_iff in E. contradiction.
Qed.

Lemma popularityOr_untracked (fallback : Q) (pop : gmap string Q) (k : string) :
  pop !! k = None -> popularityOr fallback pop k = fallback.
Proof. intros H. unfold popularityOr. by rewrite H. Qed.

Lemma popularityOr_default (fallback : Q) (pop : gmap string Q) (k : string) :
  (forall p, pop !! k = Some p -> ~ (p == 0)%Q) ->
  popularityOr fallback pop k = default fallback (pop !! k).
Proof.
  intros H. destruct (pop !! k) as [p|] eqn:E.
  - simpl. apply popularityOr_tracked; auto.
  - simpl. by apply popularityOr_untracked.
Qed.

(** *** Rounding to a double *)

Lemma pow2_pos (e : Z) : (0 < 2 ^ e)%Q.
Proof. by apply Qpower_0_lt. Qed.

Lemma pow2_plus (e f : Z) : (2 ^ (e + f) == 2 ^ e * 2 ^ f)%Q.
Proof. apply Qpower_plus. discriminate. Qed.

Lemma pow2_succ (e : Z) : (2 ^ (e + 1) == 2 * 2 ^ e)%Q.
Proof. rewrite pow2_plus. change (2 ^ 1)%Q with 2%Q. ring. Qed.

Lemma pow2_le (e f : Z) : e <= f -> (2 ^ e <= 2 ^ f)%Q.
Proof. intros H. apply Qpower_le_compat_l; [exact H | discriminate]. Qed.

Lemma pow2_lt (e f : Z) : e < f -> (2 ^ e < 2 ^ f)%Q.
Proof. intros H. apply Qpower_lt_compat_l; [exact H | reflexivity]. Qed.

Lemma pow2_binade_unique (q : Q) (e f : Z) :
  (2 ^ e <= q < 2 ^ (e + 1))%Q -> (2 ^ f <= q < 2 ^ (f + 1))%Q -> e = f.
Proof.
  intros [He1 He2] [Hf1 Hf2].
  assert (H1 : (2 ^ e < 2 ^ (f + 1))%Q) by (eapply Qle_lt_trans; eauto).
  assert (H2 : (2 ^ f < 2 ^ (e + 1))%Q) by (eapply Qle_lt_trans; eauto).
  apply Qpower_lt_compat_l_inv in H1; [| reflexivity].
  apply Qpower_lt_compat_l_inv in H2; [| reflexivity]. lia.
Qed.

Lemma inject_pow2 (a : Z) : 0 <= a -> (inject_Z (2 ^ a) == 2 ^ a)%Q.
Proof. intros H. by rewrite Zpower_Qpower. Qed.

Lemma ilog2_spec (q : Q) :
  (0 < q)%Q -> (2 ^ Double.ilog2 q <= q < 2 ^ (Double.ilog2 q + 1))%Q.
Proof.
  intros Hq. destruct q as [n d].
  assert (Hn : 0 < n) by (unfold Qlt in Hq; simpl in Hq; lia).
  unfold Double.ilog2. cbn [Qnum Qden].
  set (a := Z.log2 n). set (b := Z.log2 (Z.pos d)).
  pose proof (Z.log2_spec n Hn) as [Ha1 Ha2]. fold a in Ha1, Ha2.
  pose proof (Z.log2_spec (Z.pos d) ltac:(lia)) as [Hb1 Hb2]. fold b in Hb1, Hb2.
  pose proof (Z.log2_nonneg n) as Ha0. fold a in Ha0.
  pose proof (Z.log2_nonneg (Z.pos d)) as Hb0. fold b in Hb0.
  rewrite <- Z.add_1_r in Ha2, Hb2.
  assert (Hq' : (n # d == inject_Z n / inject_Z (Z.pos d))%Q) by apply Qmake_Qdiv.
  assert (Hd : (0 < inject_Z (Z.pos d))%Q) by (unfold Qlt; simpl; lia).
  assert (Hnd : (inject_Z n == (n # d) * inject_Z (Z.pos d))%Q).
  { rewrite Hq'. field. intros H. rewrite H in Hd. by apply Qlt_irrefl in Hd. }
  assert (Qa1 : (2 ^ a <= inject_Z n)%Q)
    by (rewrite <- inject_pow2 by done; by rewrite <- Zle_Qle).
  assert (Qa2 : (inject_Z n < 2 ^ (a + 1))%Q)
    by (rewrite <- inject_pow2 by lia; by rewrite <- Zlt_Qlt).
  assert (Qb1 : (2 ^ b <= inject_Z (Z.pos d))%Q)
    by (rewrite <- inject_pow2 by done; by rewrite <- Zle_Qle).
  assert (Qb2 : (inject_Z (Z.pos d) < 2 ^ (b + 1))%Q)
    by (rewrite <- inject_pow2 by lia; by rewrite <- Zlt_Qlt).
  assert (Hup : (n # d < 2 ^ (a - b + 1))%Q).
  { assert (H : (2 ^ (a + 1) == 2 ^ (a - b + 1) * 2 ^ b)%Q).
    { rewrite <- pow2_plus. by replace (a - b + 1 + b) with (a + 1) by lia. }
    pose proof (pow2_pos (a - b + 1)). pose proof (pow2_pos b).
    rewrite H, Hnd in Qa2. nra. }
  assert (Hlow : (2 ^ (a - b - 1) < n # d)%Q).
  { assert (H : (2 ^ a == 2 ^ (a - b - 1) * 2 ^ (b + 1))%Q).
    { rewrite <- pow2_plus. by replace (a - b - 1 + (b + 1)) with a by lia. }
    pose proof (pow2_pos (a - b - 1)). pose proof (pow2_pos (b + 1)).
    rewrite H, Hnd in Qa1. nra. }
  destruct (Qle_bool (2 ^ (a - b)) (n # d)) eqn:E.
  - apply Qle_bool_iff in E. split; [exact E | exact Hup].
  - split; [by apply Qlt_le_weak |].
    replace (a - b - 1 + 1) with (a - b) by lia.
    apply Qnot_le_lt. intros H. apply Qle_bool_iff in H. congruence.
Qed.

Lemma ilog2_unique (q : Q) (e : Z) :
  (2 ^ e <= q < 2 ^ (e + 1))%Q -> Double.ilog2 q = e.
Proof.
  intros H. assert (Hq : (0 < q)%Q).
  { eapply Qlt_le_trans; [apply (pow2_pos e) | apply H]. }
  apply (pow2_binade_unique q); [by apply ilog2_spec | exact H].
Qed.

Lemma ilog2_comp (p q : Q) : (0 < p)%Q -> (p == q)%Q -> Double.ilog2 p = Double.ilog2 q.
Proof.
  intros Hp Heq. apply ilog2_unique. rewrite Heq.
  apply ilog2_spec. by rewrite <- Heq.
Qed.

Lemma roundHalfEven_comp (p q : Q) :
  (p == q)%Q -> Double.roundHalfEven p = Double.roundHalfEven q.
Proof.
  intros H. unfold Double.roundHalfEven.
  rewrite (Qfloor_comp _ _ H).
  assert (Hc : (p - inject_Z (Qfloor q) ?= 1 # 2)%Q = (q - inject_Z (Qfloor q) ?= 1 # 2)%Q)
    by (by rewrite H).
  by rewrite Hc.
Qed.

Lemma roundHalfEven_Z (z : Z) : Double.roundHalfEven (inject_Z z) = z.
Proof.
  unfold Double.roundHalfEven. rewrite Qfloor_Z.
  assert (H : ((inject_Z z - inject_Z z ?= 1 # 2) = Lt)%Q).
  { rewrite <- Qlt_alt. ring_simplify. reflexivity. }
  by rewrite H.
Qed.

Lemma roundHalfEven_near (q : Q) :
  (q - (1 # 2) <= inject_Z (Double.roundHalfEven q) <= q + (1 # 2))%Q.
Proof.
  unfold Double.roundHalfEven.
  pose proof (Qfloor_le q) as Hlo. pose proof (Qlt_floor q) as Hhi.
  rewrite inject_Z_plus in Hhi. change (inject_Z 1) with 1%Q in Hhi.
  destruct (q - inject_Z (Qfloor q) ?= 1 # 2)%Q eqn:E.
  - apply Qeq_alt in E. destruct (Z.even (Qfloor q)).
    + lra.
    + rewrite inject_Z_plus. change (inject_Z 1) with 1%Q. lra.
  - apply Qlt_alt in E. lra.
  - apply Qgt_alt in E. rewrite inject_Z_plus. change (inject_Z 1) with 1%Q. lra.
Qed.

(** Rounding stays between the integers that bracket the value. *)
Lemma roundHalfEven_between (q : Q) (lo hi : Z) :
  (inject_Z lo <= q <= inject_Z hi)%Q ->
  lo <= Double.roundHalfEven q <= hi.
Proof.
  intros [Hlo Hhi].
  assert (Hf : lo <= Qfloor q).
  { rewrite <- (Qfloor_Z lo). by apply Qfloor_resp_le. }
  unfold Double.roundHalfEven.
  pose proof (Qfloor_le q) as Hfl.
  assert (Hup : forall r, (0 < r)%Q -> (q - inject_Z (Qfloor q) == r)%Q \/
                                       (r <= q - inject_Z (Qfloor q))%Q ->
                          Qfloor q + 1 <= hi).
  { intros r Hr Hcase.
    assert (Hlt : (inject_Z (Qfloor q) < inject_Z hi)%Q) by (destruct Hcase; lra).
    rewrite <- Zlt_Qlt in Hlt. lia. }
  destruct (q - inject_Z (Qfloor q) ?= 1 # 2)%Q eqn:E.
  - apply Qeq_alt in E.
    assert (Qfloor q + 1 <= hi) by (apply (Hup (1 # 2)%Q); [reflexivity | by left]).
    destruct (Z.even (Qfloor q)); lia.
  - assert (Hle : (inject_Z (Qfloor q) <= inject_Z hi)%Q) by lra.
    rewrite <- Zle_Qle in Hle. lia.
  - apply Qgt_alt in E.
    assert (Qfloor q + 1 <= hi)
      by (apply (Hup (1 # 2)%Q); [reflexivity | right; by apply Qlt_le_weak]).
    lia.
Qed.

Lemma magnitude_comp (p q : Q) : (0 < p)%Q -> (p == q)%Q -> (magnitude p == magnitude q)%Q.
Proof.
  intros Hp H. unfold magnitude, Double.ulpExponent.
  rewrite (ilog2_comp p q Hp H).
  rewrite (roundHalfEven_comp (p / 2 ^ _) (q / 2 ^ Z.max (Double.ilog2 q - 52) (-1074)));
    [reflexivity | by rewrite H].
Qed.

Lemma round_zero (q : Q) : (q == 0)%Q -> Double.round q = 0%Q.
Proof.
  intros H. unfold Double.round.
  assert (Hz : Qeq_bool (Qred q) 0 = true)
    by (apply Qeq_bool_iff; by rewrite Qred_correct).
  by rewrite Hz.
Qed.

Lemma round_pos (q : Q) : (0 < q)%Q -> (Double.round q == magnitude q)%Q.
Proof.
  intros Hq. unfold Double.round.
  pose proof (Qred_correct q) as Hred.
  assert (Hz : Qeq_bool (Qred q) 0 = false).
  { destruct (Qeq_bool (Qred q) 0) eqn:E; [| done].
    apply Qeq_bool_iff in E. rewrite Hred in E. lra. }
  assert (Hs : Qle_bool 0 (Qred q) = true)
    by (apply Qle_bool_iff; rewrite Hred; lra).
  rewrite Hz, Hs.
  assert (Ha : (Qabs (Qred q) == q)%Q) by (rewrite Hred; apply Qabs_pos; lra).
  apply (magnitude_comp (Qabs (Qred q)) q); [lra | done].
Qed.

Lemma round_neg (q : Q) : (q < 0)%Q -> (Double.round q == - magnitude (- q))%Q.
Proof.
  intros Hq. unfold Double.round.
  pose proof (Qred_correct q) as Hred.
  assert (Hz : Qeq_bool (Qred q) 0 = false).
  { destruct (Qeq_bool (Qred q) 0) eqn:E; [| done].
    apply Qeq_bool_iff in E. rewrite Hred in E. lra. }
  assert (Hs : Qle_bool 0 (Qred q) = false).
  { destruct (Qle_bool 0 (Qred q)) eqn:E; [| done].
    apply Qle_bool_iff in E. rewrite Hred in E. lra. }
  rewrite Hz, Hs.
  assert (Ha : (Qabs (Qred q) == - q)%Q) by (rewrite Hred; apply Qabs_neg; lra).
  apply Qopp_comp.
  apply (magnitude_comp (Qabs (Qred q)) (- q)); [lra | done].
Qed.

Lemma ulpExponent_bound (a : Q) : -1074 <= Double.ulpExponent a.
Proof. unfold Double.ulpExponent. lia. Qed.

(** What rounding gives has at most 53 significant bits at the exponent
    of the last place. *)
Lemma magnitude_mantissa (a : Q) :
  (0 < a)%Q ->
  0 <= Double.roundHalfEven (a / 2 ^ Double.ulpExponent a) <= 2 ^ 53.
Proof.
  intros Ha. apply roundHalfEven_between.
  pose proof (pow2_pos (Double.ulpExponent a)) as Hp.
  destruct (ilog2_spec a Ha) as [_ Hup].
  split.
  - change (inject_Z 0) with 0%Q. apply Qle_shift_div_l; [done | lra].
  - apply Qle_shift_div_r; [done |].
    rewrite inject_pow2 by lia. rewrite <- pow2_plus.
    apply Qlt_le_weak. eapply Qlt_le_trans; [exact Hup |].
    apply pow2_le. unfold Double.ulpExponent. lia.
Qed.

Lemma magnitude_of_mantissa (a : Q) (m e : Z) :
  0 < m < 2 ^ 53 -> -1074 <= e -> (a == inject_Z m * 2 ^ e)%Q ->
  (magnitude a == a)%Q.
Proof.
  intros [Hm0 Hm] He Ha.
  pose proof (pow2_pos e) as Hpe.
  assert (Hmq : (0 < inject_Z m)%Q) by (change 0%Q with (inject_Z 0); by rewrite <- Zlt_Qlt).
  assert (Hpos : (0 < a)%Q) by (rewrite Ha; nra).
  pose proof (Z.log2_spec m Hm0) as [Hl1 Hl2]. rewrite <- Z.add_1_r in Hl2.
  pose proof (Z.log2_nonneg m) as Hl0.
  assert (Hl53 : Z.log2 m < 53) by (apply Z.log2_lt_pow2; lia).
  assert (Hlog : Double.ilog2 a = Z.log2 m + e).
  { apply ilog2_unique. rewrite Ha.
    replace (Z.log2 m + e + 1) with (Z.log2 m + 1 + e) by lia.
    rewrite (pow2_plus (Z.log2 m) e), (pow2_plus (Z.log2 m + 1) e).
    rewrite <- (inject_pow2 (Z.log2 m)), <- (inject_pow2 (Z.log2 m + 1)) by lia.
    rewrite Zle_Qle in Hl1. rewrite Zlt_Qlt in Hl2.
    split.
    - apply Qmult_le_compat_r; [exact Hl1 | lra].
    - apply Qmult_lt_compat_r; [exact Hpe | exact Hl2]. }
  unfold magnitude, Double.ulpExponent. rewrite Hlog.
  set (u := Z.max (Z.log2 m + e - 52) (-1074)).
  assert (Hu : u <= e) by (unfold u; lia).
  pose proof (pow2_pos u) as Hpu.
  assert (Hdiv : (a / 2 ^ u == inject_Z (m * 2 ^ (e - u)))%Q).
  { rewrite inject_Z_mult, inject_pow2 by lia. rewrite Ha.
    replace e with (e - u + u) at 1 by lia. rewrite pow2_plus. field. lra. }
  rewrite (roundHalfEven_comp _ _ Hdiv), roundHalfEven_Z.
  rewrite inject_Z_mult, inject_pow2 by lia. rewrite Ha.
  replace e with (e - u + u) at 2 by lia. rewrite (pow2_plus (e - u) u). ring.
Qed.

Lemma magnitude_of_double (a : Q) (m e : Z) :
  0 < m <= 2 ^ 53 -> -1074 <= e -> (a == inject_Z m * 2 ^ e)%Q ->
  (magnitude a == a)%Q.
Proof.
  intros [Hm0 Hm] He Ha.
  destruct (Z.eq_dec m (2 ^ 53)) as [-> | Hne].
  - apply (magnitude_of_mantissa a (2 ^ 52) (e + 1)); [lia | lia |].
    rewrite Ha, pow2_succ. change (inject_Z (2 ^ 53)) with (2 * inject_Z (2 ^ 52))%Q. ring.
  - apply (magnitude_of_mantissa a m e); [lia | done | done].
Qed.

(** A double is left as it is. *)
Lemma round_of_double (q : Q) : representable q -> (Double.round q == q)%Q.
Proof.
  intros (m & e & He & Hm & Hq).
  pose proof (pow2_pos e) as Hpe.
  destruct (Z.lt_trichotomy m 0) as [Hneg | [-> | Hpos]].
  - assert (Hmq : (inject_Z m < 0)%Q)
      by (change 0%Q with (inject_Z 0); by rewrite <- Zlt_Qlt).
    assert (Hlt : (q < 0)%Q) by (rewrite Hq; nra).
    rewrite (round_neg q Hlt).
    rewrite (magnitude_of_double (- q) (- m) e); [ring | lia | done |].
    rewrite Hq, inject_Z_opp. ring.
  - rewrite round_zero; [| rewrite Hq; ring]. rewrite Hq. ring.
  - assert (Hmq : (0 < inject_Z m)%Q)
      by (change 0%Q with (inject_Z 0); by rewrite <- Zlt_Qlt).
    assert (Hlt : (0 < q)%Q) by (rewrite Hq; nra).
    rewrite (round_pos q Hlt).
    apply (magnitude_of_double q m e); [lia | done | done].
Qed.

(** What rounding gives is a double. *)
Lemma round_is_double (q : Q) : representable (Double.round q).
Proof.
  destruct (Q_dec q 0) as [[Hneg | Hpos] | Hz].
  - assert (Ha : (0 < - q)%Q) by lra.
    exists (- Double.roundHalfEven (- q / 2 ^ Double.ulpExponent (- q))),
           (Double.ulpExponent (- q)).
    split; [apply ulpExponent_bound |].
    pose proof (magnitude_mantissa (- q) Ha). split; [lia |].
    rewrite (round_neg q Hneg). unfold magnitude. rewrite inject_Z_opp. ring.
  - exists (Double.roundHalfEven (q / 2 ^ Double.ulpExponent q)), (Double.ulpExponent q).
    split; [apply ulpExponent_bound |].
    pose proof (magnitude_mantissa q Hpos). split; [lia |].
    by rewrite (round_pos q Hpos).
  - exists 0, 0. split; [lia |]. split; [simpl; lia |].
    rewrite (round_zero q Hz). reflexivity.
Qed.

Lemma round_idempotent (q : Q) : (Double.round (Double.round q) == Double.round q)%Q.
Proof. apply round_of_double, round_is_double. Qed.

(** Rounding is off by at most half a unit in the last place. *)
Lemma round_nearest (q : Q) :
  ~ (q == 0)%Q ->
  (Qabs (Double.round q - q) <= 2 ^ Double.ulpExponent (Qabs q) / 2)%Q.
Proof.
  intros Hnz.
  assert (Hmag : forall a, (0 < a)%Q ->
            (Qabs (magnitude a - a) <= 2 ^ Double.ulpExponent a / 2)%Q).
  { intros a Ha. unfold magnitude.
    pose proof (pow2_pos (Double.ulpExponent a)) as Hp.
    pose proof (roundHalfEven_near (a / 2 ^ Double.ulpExponent a)) as [Hlo Hhi].
    assert (Hxa : (a / 2 ^ Double.ulpExponent a * 2 ^ Double.ulpExponent a == a)%Q)
      by (field; lra).
    revert Hp Hlo Hhi Hxa.
    generalize (inject_Z (Double.roundHalfEven (a / 2 ^ Double.ulpExponent a))).
    generalize (a / 2 ^ Double.ulpExponent a)%Q.
    generalize (2 ^ Double.ulpExponent a)%Q.
    intros U x r Hp Hlo Hhi Hxa.
    apply Qabs_Qle_condition.
    assert (Hhalf : (U / 2 == U * (1 # 2))%Q) by (field).
    rewrite Hhalf. split; nra. }
  destruct (Q_dec q 0) as [[Hneg | Hpos] | Hz]; [| | contradiction].
  - rewrite (round_neg q Hneg).
    assert (Habs : (Qabs q == - q)%Q) by (apply Qabs_neg; lra).
    assert (Hu : Double.ulpExponent (Qabs q) = Double.ulpExponent (- q)).
    { unfold Double.ulpExponent. by rewrite (ilog2_comp (Qabs q) (- q)) by lra. }
    rewrite Hu. specialize (Hmag (- q)%Q ltac:(lra)).
    assert (He : (- magnitude (- q) - q == - (magnitude (- q) - - q))%Q) by ring.
    rewrite He, Qabs_opp. exact Hmag.
  - rewrite (round_pos q Hpos).
    assert (Habs : (Qabs q == q)%Q) by (apply Qabs_pos; lra).
    assert (Hu : Double.ulpExponent (Qabs q) = Double.ulpExponent q).
    { unfold Double.ulpExponent. by rewrite (ilog2_comp (Qabs q) q) by lra. }
    rewrite Hu. by apply Hmag.
Qed.

Lemma round_comp (p q : Q) : (p == q)%Q -> Double.round p = Double.round q.
Proof. intros H. unfold Double.round. by rewrite (Qred_complete _ _ H). Qed.


Lemma mul_zero_r (a : Q) : Double.mul a 0 = 0%Q.
Proof.
  unfold Double.mul. change (Double.round 0) with 0%Q.
  rewrite (round_comp (Double.round a * 0) 0); [reflexivity | ring].
Qed.

(** The doubles nearest to 0.1, 4.35 and 0.51, ties that go to the even
    mantissa (at 53 bits and among the subnormals), and the two sales
    whose credits rounding moves below the exact floor (435 and 255). *)
Lemma round_test_vectors :
  (Double.round (1 # 10) == 3602879701896397 # 36028797018963968)%Q /\
  (Double.round (435 # 100) == 4897664594765414 # 1125899906842624)%Q /\
  (Double.round (51 # 100) == 4593671619917906 # 9007199254740992)%Q /\
  (Double.round (inject_Z 9007199254740993) == inject_Z 9007199254740992)%Q /\
  (Double.round (inject_Z 9007199254740995) == inject_Z 9007199254740996)%Q /\
  (Double.round ((3 # 4) * 2 ^ (-1074)) == 2 ^ (-1074))%Q /\
  (Double.round ((3 # 2) * 2 ^ (-1074)) == 2 * 2 ^ (-1074))%Q /\
  (Double.round (2 ^ (-1075)) == 0)%Q /\
  Qfloor (Double.mul (Double.mul (435 # 100) 1) 100) = 434 /\
  Qfloor (Double.mul (Double.mul 5 (51 # 100)) 100) = 254 /\
  Qfloor (Double.mul (Double.mul 2 1) 5) = 10.
Proof. vm_compute. repeat split. Qed.






(** C10, the claim as stated fails when the configured minimum exceeds
    the configured maximum: with a minimum of 3 and a maximum of 2, a sale
    of 0 stone, absent from the inventory and untracked, is accepted and
    leaves the multiplier of stone at 3, not at the maximum. *)
Lemma sell_nothing_leaves_minimum :
  inventory sampleState !! "stone" = None /\
  marketPopularity sampleState !! "stone" = None /\
  findMaterial "stone" invertedRules = Some (mkMaterial "stone" "Stone" 2 1) /\
  exists res p,
    engine "id" sampleState invertedRules (SELL_GOODS "stone" 0) = Some res /\
    error res = None /\
    marketPopularity (state res) !! "stone" = Some p /\
    (p == 3)%Q /\ ~ (p == maxPopularity (market invertedRules))%Q.
Proof.
  split; [reflexivity |]. split; [reflexivity |]. split; [reflexivity |].
  do 2 eexists. split; [reflexivity |]. split; [reflexivity |].
  split; [reflexivity |]. split; [reflexivity | discriminate].
Qed.

(** C10, amended: for an item of the materials table that is absent from
    the inventory, SELL with quantity 0 is accepted without an error and
    leaves the credits as they were; when the item was untracked it leaves
    its multiplier at the larger of the configured minimum and the
    configured maximum, which is the configured maximum when the minimum
    does not exceed it. *)
Theorem sell_nothing_of_absent_item (randomId : string) (s : State) (rules : Rules)
    (itemId : string) (material : Material) :
  inventory s !! itemId = None ->
  findMaterial itemId rules = Some material ->
  exists res,
    engine randomId s rules (SELL_GOODS itemId 0) = Some res /\
    error res = None /\
    credits (state res) = credits s /\
    (marketPopularity s !! itemId = None ->
     exists p, marketPopularity (state res) !! itemId = Some p /\
               (p == Qmax (minPopularity (market rules))
                          (maxPopularity (market rules)))%Q /\
               ((minPopularity (market rules) <= maxPopularity (market rules))%Q ->
                (p == maxPopularity (market rules))%Q)).
Proof.
  intros Hinv Hmat.
  eexists. split; [reflexivity |].
  unfold sellGoods, deepClone.
  rewrite (orZero_None _ _ Hinv). cbn [Z.ltb Z.compare].
  rewrite Hmat. cbv zeta.
  unfold setMarketPopularity, setCredits, setInventory.
  cbn [state error credits inventory marketPopularity].
  split; [done |]. split.
  - change (inject_Z 0) with 0%Q. rewrite mul_zero_r.
    change (Qfloor 0) with 0. lia.
  - intros Hpop. eexists. split; [apply lookup_insert_eq |].
    rewrite (popularityOr_untracked _ _ _ Hpop).
    assert (Heq : (maxPopularity (market rules) - decayRate (market rules) * inject_Z 0
                   == maxPopularity (market rules))%Q) by ring.
    split.
    + by rewrite Heq.
    + intros Hminmax. rewrite Q.max_r; [exact Heq |]. by rewrite Heq.
Qed.

Lemma sell_nothing_of_absent_item_witness :
  exists res,
    engine "id" sampleState sampleRules (SELL_GOODS "stone" 0) = Some res /\
    error res = None /\
    credits (state res) = 500.
Proof.
  destruct (sell_nothing_of_absent_item "id" sampleState sampleRules "stone"
              (mkMaterial "stone" "Stone" 2 1))
    as (res & Hrun & Herr & Hcredits & _).
  - reflexivity.
  - reflexivity.
  - exists res. split; [exact Hrun |]. split; [exact Herr | exact Hcredits].
Defined.

(** ** Floor expansion *)

(** A target that is not positive never overtakes a floor it does not
    exceed: the loop runs on whatever the fuel. *)
Lemma chunkLoop_diverges (fuel : nat) (w h c t : Z) :
  t <= 0 -> t <= w -> t <= h -> chunkLoop fuel w h c t = None.
Proof.
  revert c t. induction fuel as [| fuel IH]; intros c t Ht Hw Hh; simpl.
  - assert ((t <=? w) && (t <=? h) = true) as ->; [| done].
    apply andb_true_iff. split; by apply Z.leb_le.
  - assert ((t <=? w) && (t <=? h) = true) as ->.
    { apply andb_true_iff. split; by apply Z.leb_le. }
    apply IH; lia.
Qed.

(** A positive target doubles past the floor before the fuel runs out. *)
Lemma chunkLoop_terminates (fuel : nat) (w h c t : Z) :
  0 < t -> Z.min w h < t + Z.of_nat fuel ->
  is_Some (chunkLoop fuel w h c t).
Proof.
  revert c t. induction fuel as [| fuel IH]; intros c t Ht Hfuel; simpl.
  - destruct ((t <=? w) && (t <=? h)) eqn:E; [| by eexists].
    apply andb_true_iff in E as [E1%Z.leb_le E2%Z.leb_le]. lia.
  - destruct ((t <=? w) && (t <=? h)) eqn:E; [| by eexists].
    apply IH; lia.
Qed.

Lemma chunkLoop_chunk_nonneg (fuel : nat) (w h c t c' t' : Z) :
  0 <= c -> chunkLoop fuel w h c t = Some (c', t') -> 0 <= c'.
Proof.
  revert c t. induction fuel as [| fuel IH]; intros c t Hc; simpl.
  - destruct ((t <=? w) && (t <=? h)); [done |]. intros [= <- <-]. done.
  - destruct ((t <=? w) && (t <=? h)); [| intros [= <- <-]; done].
    apply IH. lia.
Qed.

(** With a positive initial width the next chunk is always computed. *)
Lemma getNextExpansionChunk_total (s : State) (rules : Rules) :
  0 < initialWidth (floorRules rules) ->
  is_Some (getNextExpansionChunk s rules).
Proof.
  intros Hw. unfold getNextExpansionChunk.
  destruct (chunkLoop_terminates
              (chunkFuel (width (floorSpace s)) (height (floorSpace s)))
              (width (floorSpace s)) (height (floorSpace s))
              (initialChunkSize (floorRules rules))
              (initialWidth (floorRules rules) * 2)) as [[c t] ->].
  - lia.
  - unfold chunkFuel. lia.
  - by eexists.
Qed.

(** The next chunk is computed unless the target is not positive and
    within both dimensions, in which case the loop of the source runs
    forever. *)
Lemma getNextExpansionChunk_None (s : State) (rules : Rules) :
  getNextExpansionChunk s rules = None <->
  initialWidth (floorRules rules) * 2 <= 0 /\
  initialWidth (floorRules rules) * 2 <= width (floorSpace s) /\
  initialWidth (floorRules rules) * 2 <= height (floorSpace s).
Proof.
  unfold getNextExpansionChunk. split.
  - destruct (chunkLoop _ _ _ _ _) as [[c t]|] eqn:E; [done |]. intros _.
    destruct (decide (0 < initialWidth (floorRules rules) * 2)) as [Hpos | Hneg].
    + destruct (chunkLoop_terminates
                  (chunkFuel (width (floorSpace s)) (height (floorSpace s)))
                  (width (floorSpace s)) (height (floorSpace s))
                  (initialChunkSize (floorRules rules))
                  (initialWidth (floorRules rules) * 2) Hpos) as [? Hsome].
      * unfold chunkFuel. lia.
      * congruence.
    + split; [lia |].
      destruct (chunkFuel _ _); simpl in E;
        destruct ((_ <=? _) && (_ <=? _)) eqn:Ec; try done;
        apply andb_true_iff in Ec as [?%Z.leb_le ?%Z.leb_le]; done.
  - intros (H0 & Hw & Hh). by rewrite chunkLoop_diverges.
Qed.

(** An accepted expansion grows one dimension by the chunk and debits the
    computed cost. *)
Lemma buyFloorSpace_accepted (s : State) (rules : Rules) (res : Result) :
  buyFloorSpace s rules = Some res -> error res = None ->
  exists e, getNextExpansionChunk s rules = Some e /\
    credits (state res) = credits s - chunkSize e * chunkSize e * costPerCell (floorRules rules) /\
    placements (floorSpace (state res)) = placements (floorSpace s) /\
    ((width (floorSpace (state res)) = width (floorSpace s) + chunkSize e /\
      height (floorSpace (state res)) = height (floorSpace s)) \/
     (width (floorSpace (state res)) = width (floorSpace s) /\
      height (floorSpace (state res)) = height (floorSpace s) + chunkSize e)).
Proof.
  unfold buyFloorSpace, deepClone. intros Hrun Herr.
  destruct (getNextExpansionChunk s rules) as [e|] eqn:He; [| done].
  exists e. split; [done |].
  destruct (credits s <? cost e); injection Hrun as <-; [done |].
  unfold getNextExpansionChunk in He.
  destruct (chunkLoop _ _ _ _ _) as [[c t]|]; [| done].
  injection He as <-. simpl.
  destruct (width (floorSpace s) <? t); auto.
Qed.

(** The cells an accepted expansion really adds: the chunk times the
    dimension that does not grow, whereas the cost counts the chunk
    squared. *)
Lemma buyFloorSpace_cells (s : State) (rules : Rules) (res : Result) :
  buyFloorSpace s rules = Some res -> error res = None ->
  exists e, getNextExpansionChunk s rules = Some e /\
    credits s - credits (state res)
      = chunkSize e * chunkSize e * costPerCell (floorRules rules) /\
    (cellsActuallyAdded (floorSpace s) (floorSpace (state res))
       = chunkSize e * height (floorSpace s) \/
     cellsActuallyAdded (floorSpace s) (floorSpace (state res))
       = chunkSize e * width (floorSpace s)).
Proof.
  intros Hrun Herr.
  destruct (buyFloorSpace_accepted s rules res Hrun Herr)
    as (e & He & Hc & _ & [[Hw Hh] | [Hw Hh]]);
    exists e; (split; [done |]); (split; [lia |]);
    unfold cellsActuallyAdded; rewrite Hw, Hh; [left | right]; lia.
Qed.

(** From the initial 8x8 square the floor grows 16x8, 16x16, 32x16, 32x32. *)
Lemma expansion_sequence :
  let start := setFloorSpace (mkFloorSpace 8 8 []) (setCredits 100000 sampleState) in
  (dimensions <$> expandTimes 1 sampleRules start) = Some (16, 8) /\
  (dimensions <$> expandTimes 2 sampleRules start) = Some (16, 16) /\
  (dimensions <$> expandTimes 3 sampleRules start) = Some (32, 16) /\
  (dimensions <$> expandTimes 4 sampleRules start) = Some (32, 32) /\
  (chunkSize <$> getNextExpansionChunk start sampleRules) = Some 8 /\
  (chunkSize <$> (expandTimes 2 sampleRules start ≫= fun s => getNextExpansionChunk s sampleRules))
    = Some 16.
Proof. vm_compute. repeat split. Qed.

(** C7: on the 16x8 floor the accepted expansion grows the height to 16,
    which adds 128 cells, and debits 640 credits, the price of 64 cells at
    10 credits each. *)
Theorem floor_cost_ignores_cells_added :
  exists res,
    engine "id" floor16x8 sampleRules BUY_FLOOR_SPACE = Some res /\
    error res = None /\
    dimensions (state res) = (16, 16) /\
    cellsActuallyAdded (floorSpace floor16x8) (floorSpace (state res)) = 128 /\
    credits floor16x8 - credits (state res) = 640 /\
    cellsActuallyAdded (floorSpace floor16x8) (floorSpace (state res))
      * costPerCell (floorRules sampleRules) = 1280.
Proof. eexists. split; [reflexivity |]. vm_compute. repeat split. Qed.

(** ** Power allocation *)

Lemma drawOf_app (l1 l2 : list Machine) :
  drawOf (l1 ++ l2) = drawOf l1 + drawOf l2.
Proof. induction l1 as [| m l1 IH]; simpl; lia. Qed.

Lemma consumed_fold (ms : list Machine) (a : Z) :
  fold_left (fun consumed machine =>
               if drawsPower machine then consumed + energyConsumption machine
               else consumed) ms a = a + drawOf ms.
Proof.
  revert a. induction ms as [| m ms IH]; intros a; simpl; [lia |].
  rewrite IH. destruct (drawsPower m); lia.
Qed.




(** The loop at [n = length pre] walks [pre] from its end: it stops at a
    position [k], has marked every eligible machine from [k] on, and has
    left what is before [k] and behind [pre] alone. *)
Lemma blockLoop_walk (pre : list Machine) :
  forall (post : list Machine) (d : Z),
  exists k : nat,
    (k <= length pre)%nat /\
    blockLoop (length pre) d (pre ++ post) =
      (take k pre ++ (blockIfDrawing <$> drop k pre) ++ post,
       d - drawOf (drop k pre)) /\
    (k = O \/ d - drawOf (drop k pre) <= 0) /\
    (forall j : nat, (k < j <= length pre)%nat -> 0 < d - drawOf (drop j pre)).
Proof.
  induction pre as [| m pre IH] using rev_ind; intros post d.
  - exists O. simpl. repeat split; auto with lia.
    f_equal. lia.
  - rewrite length_app. simpl length.
    replace (length pre + 1)%nat with (S (length pre)) by lia.
    cbn [blockLoop].
    destruct (0 <? d) eqn:Hd.
    + apply Z.ltb_lt in Hd.
      rewrite <- app_assoc. cbn [app].
      rewrite list_lookup_middle by done.
      assert (Hstep : forall m' e,
                 drawOf [m] = e ->
                 blockIfDrawing m = m' ->
                 forall k : nat,
                 (k <= length pre)%nat ->
                 (k = O \/ d - e - drawOf (drop k pre) <= 0) ->
                 (forall j : nat, (k < j <= length pre)%nat ->
                                  0 < d - e - drawOf (drop j pre)) ->
                 (k <= S (length pre))%nat /\
                 (take k pre ++ (blockIfDrawing <$> drop k pre) ++ m' :: post,
                  d - e - drawOf (drop k pre)) =
                 (take k (pre ++ [m]) ++ (blockIfDrawing <$> drop k (pre ++ [m])) ++ post,
                  d - drawOf (drop k (pre ++ [m]))) /\
                 (k = O \/ d - drawOf (drop k (pre ++ [m])) <= 0) /\
                 (forall j : nat, (k < j <= S (length pre))%nat ->
                                  0 < d - drawOf (drop j (pre ++ [m])))).
      { intros m' e He Hm' k Hk Hstop Hrun.
        rewrite take_app_le, drop_app_le by lia.
        rewrite fmap_app, drawOf_app, He. cbn [fmap list_fmap]. rewrite Hm'.
        rewrite <- !app_assoc. cbn [app].
        split; [lia |]. split; [f_equal; lia |].
        split; [destruct Hstop; [by left | right; lia] |].
        intros j Hj. destruct (decide (j = S (length pre))) as [-> | Hne].
        - rewrite drop_ge by (rewrite length_app; simpl; lia). simpl. lia.
        - rewrite drop_app_le by lia. rewrite drawOf_app, He.
          specialize (Hrun j). lia. }
      destruct (drawsPower m) eqn:Hm.
      * rewrite insert_app_r_alt by lia.
        replace (length pre - length pre)%nat with O by lia. cbn [insert list_insert].
        destruct (IH (setStatus blocked m :: post) (d - energyConsumption m))
          as (k & Hk & Heq & Hstop & Hrun).
        exists k. rewrite Heq.
        apply (Hstep (setStatus blocked m) (energyConsumption m)); auto.
        -- simpl. rewrite Hm. lia.
        -- unfold blockIfDrawing. by rewrite Hm.
      * destruct (IH (m :: post) d) as (k & Hk & Heq & Hstop & Hrun).
        exists k. rewrite Heq.
        assert (Hd0 : forall z, d - z = d - 0 - z) by (intros; lia).
        rewrite (Hd0 (drawOf (drop k pre))).
        apply (Hstep m 0); auto.
        -- simpl. rewrite Hm. lia.
        -- unfold blockIfDrawing. by rewrite Hm.
        -- destruct Hstop; [by left | right; lia].
        -- intros j Hj. specialize (Hrun j Hj). lia.
    + apply Z.ltb_ge in Hd.
      exists (S (length pre)).
      rewrite take_ge, drop_ge by (rewrite length_app; simpl; lia).
      cbn [fmap list_fmap drawOf app].
      repeat split; auto with lia.
      f_equal. lia.
Qed.




(** ** Machine production *)

Lemma quantityOf_absent (entries : list (string * Z)) (k : string) :
  k ∉ entries.*1 -> quantityOf entries k = 0.
Proof.
  induction entries as [| e rest IH]; simpl; [done |].
  intros Hk. apply not_elem_of_cons in Hk as [Hne Hrest].
  rewrite IH by done. destruct (decide (e.1 = k)); [congruence | lia].
Qed.

Lemma bufferComplete_spec (recipe : Recipe) (buffer : gmap string cell) :
  bufferComplete recipe buffer = true <->
  forall e, e ∈ inputs recipe -> e.2 <= orZero buffer e.1.
Proof.
  unfold bufferComplete. rewrite forallb_forall. split.
  - intros H e He. apply list_elem_of_In in He. specialize (H e He).
    apply negb_true_iff, Z.ltb_ge in H. exact H.
  - intros H e He. apply list_elem_of_In in He.
    apply negb_true_iff, Z.ltb_ge. by apply H.
Qed.

Lemma canProduce_spec (rules : Rules) (space : Z) (recipe : Recipe)
    (inv : gmap string cell) :
  canProduce rules space recipe inv = true <->
  forall e, e ∈ outputs recipe -> hasRoom rules space inv e.
Proof.
  unfold canProduce, hasRoom. rewrite forallb_forall. split.
  - intros H e He. apply list_elem_of_In in He. specialize (H e He).
    by apply negb_true_iff in H.
  - intros H e He. apply list_elem_of_In in He.
    apply negb_true_iff. by apply H.
Qed.

(** Consuming a complete buffer takes each input quantity off its slot. *)
Lemma consume_debits (entries : list (string * Z)) :
  forall buffer : gmap string cell,
  NoDup entries.*1 ->
  Forall (fun e => 0 <= e.2) entries ->
  (forall e, e ∈ entries -> e.2 <= orZero buffer e.1) ->
  forall k,
    orZero (fold_left (fun b (entry : string * Z) => debit b entry.1 entry.2)
                      entries buffer) k
    = orZero buffer k - quantityOf entries k.
Proof.
  induction entries as [| [k1 q1] rest IH]; intros buffer Hnd Hpos Hfull k.
  - simpl. lia.
  - cbn [fold_left quantityOf fst snd].
    rewrite fmap_cons in Hnd. apply NoDup_cons in Hnd as [Hfresh Hnd].
    apply Forall_cons in Hpos as [Hq1 Hpos]. simpl in Hfresh, Hq1.
    assert (Hhead : orZero (debit buffer k1 q1) k1 = orZero buffer k1 - q1).
    { destruct (buffer !! k1) as [c|] eqn:E.
      - rewrite (orZero_debit_present _ _ _ _ E), (orZero_Some _ _ _ E). done.
      - specialize (Hfull (k1, q1) ltac:(left)). simpl in Hfull.
        rewrite (orZero_None _ _ E) in *.
        unfold debit. rewrite E. unfold orZero. rewrite lookup_insert_eq. simpl. lia. }
    rewrite IH; [| done | done |].
    + destruct (decide (k1 = k)) as [<- | Hne].
      * rewrite Hhead, quantityOf_absent by done. lia.
      * rewrite orZero_debit_other by done. lia.
    + intros e He.
      assert (k1 <> e.1).
      { intros ->. apply Hfresh. apply list_elem_of_fmap. by exists e. }
      rewrite orZero_debit_other by done. apply Hfull. by right.
Qed.

(** Adding the outputs credits each output quantity to its slot. *)
Lemma outputs_credit (entries : list (string * Z)) :
  forall (inv : gmap string cell) k,
    orZero (fold_left (fun i (entry : string * Z) =>
                         <[entry.1 := Num (orZero i entry.1 + entry.2)]> i)
                      entries inv) k
    = orZero inv k + quantityOf entries k.
Proof.
  induction entries as [| [k1 q1] rest IH]; intros inv k.
  - simpl. lia.
  - cbn [fold_left quantityOf fst snd]. rewrite IH.
    destruct (decide (k1 = k)) as [<- | Hne].
    + rewrite orZero_insert. lia.
    + rewrite orZero_insert_ne by done. lia.
Qed.

(** C4: the tick conserves.  Take a machine it processes (enabled, not
    blocked, its recipe in the rules and unlocked) whose buffer, after the
    pull phase, meets every input requirement.  If every output has room
    for its whole quantity, the buffer ends with exactly the input quantities taken off
    and the inventory with exactly the output quantities added; if some
    output lacks room, the buffer and the inventory stay as the pull phase
    left them: nothing is debited and no output is credited even in part.
    The recipe's inputs are an object's entries: distinct keys, with
    quantities that are not negative. *)
Theorem completion_conserves (rules : Rules) (space : Z) (unlocked : list string)
    (m : Machine) (inv : gmap string cell) (recipe : Recipe) (rid : string) :
  enabled m = true ->
  recipeId m = Some rid ->
  rid <> "" ->
  status m <> blocked ->
  findRecipe rid rules = Some recipe ->
  includes unlocked (rec_id recipe) = true ->
  NoDup (inputs recipe).*1 ->
  Forall (fun e => 0 <= e.2) (inputs recipe) ->
  let pulled := pullPhase recipe (internalBuffer m) inv in
  let result := processMachine rules space unlocked m inv in
  (forall e, e ∈ inputs recipe -> e.2 <= orZero pulled.1 e.1) ->
  ((forall e, e ∈ outputs recipe -> hasRoom rules space pulled.2 e) ->
   (forall k, orZero (internalBuffer result.1) k
              = orZero pulled.1 k - quantityOf (inputs recipe) k) /\
   (forall k, orZero result.2 k
              = orZero pulled.2 k + quantityOf (outputs recipe) k)) /\
  ((exists e, e ∈ outputs recipe /\ ~ hasRoom rules space pulled.2 e) ->
   internalBuffer result.1 = pulled.1 /\ result.2 = pulled.2).
Proof.
  intros Hen Hrec Hid Hst Hfind Hunl Hnd Hpos pulled result Hfull.
  subst result. unfold processMachine.
  rewrite Hen, Hrec. cbn [truthy negb orb default from_option id].
  apply String.eqb_neq in Hid. rewrite Hid. cbn [negb orb].
  rewrite bool_decide_eq_false_2 by done.
  rewrite Hfind, Hunl. cbn [negb].
  change (internalBuffer (setStatus working m)) with (internalBuffer m).
  fold pulled. destruct pulled as [buffer1 inv1] eqn:Epulled.
  cbn [fst snd] in *. unfold completion.
  rewrite (proj2 (bufferComplete_spec recipe buffer1) Hfull).
  destruct (canProduce rules space recipe inv1) eqn:Ecan.
  - cbn [fst snd internalBuffer setBuffer]. split.
    + intros _. split.
      * intros k. by apply consume_debits.
      * intros k. apply outputs_credit.
    + intros (e & He & Hno). exfalso. apply Hno.
      by apply (proj1 (canProduce_spec rules space recipe inv1) Ecan).
  - cbn [fst snd internalBuffer setBuffer]. split; [| done].
    intros Hroom. apply canProduce_spec in Hroom. congruence.
Qed.

Lemma completion_conserves_witness :
  orZero (processMachine sampleRules 100 ["planks"] sampleMachine
                         {[ "wood" := Num 2 ]}).2 "planks" = 1 /\
  orZero (internalBuffer
            (processMachine sampleRules 100 ["planks"] sampleMachine
                            {[ "wood" := Num 2 ]}).1) "wood" = 0.
Proof.
  destruct (completion_conserves sampleRules 100 ["planks"] sampleMachine
              {[ "wood" := Num 2 ]} planksRecipe "planks") as [Hroom _].
  - reflexivity.
  - reflexivity.
  - discriminate.
  - discriminate.
  - reflexivity.
  - reflexivity.
  - apply NoDup_singleton.
  - repeat constructor. simpl. lia.
  - intros e He. apply list_elem_of_singleton in He as ->. vm_compute. discriminate.
  - destruct Hroom as [Hbuffer Hinv].
    + intros e He. apply list_elem_of_singleton in He as ->. reflexivity.
    + split; [rewrite Hinv | rewrite Hbuffer]; reflexivity.
Defined.

(** The earlier copy of the tick, whose comments say that the excess is
    wasted, does otherwise by design.  On a machine whose buffer the pull
    phase completes (2 wood for the planks recipe) while the output has no
    room, it consumes the buffer and credits nothing, where the engine
    above holds the buffer intact; and with room for one charcoal of the
    two the recipe yields, it consumes the buffer and credits one, where
    the engine above credits none. *)
Lemma earlier_tick_wastes_inputs :
  let early := Earlier.simulateTick stalledState sampleRules in
  let late := simulateTick stalledState sampleRules in
  let early' := Earlier.simulateTick nearlyFullState sampleRules in
  let late' := simulateTick nearlyFullState sampleRules in
  (pullPhase planksRecipe (internalBuffer sampleMachine) (inventory stalledState)).1
    = {[ "wood" := Num 2 ]} /\
  ~ hasRoom sampleRules 100 (inventory stalledState) ("planks", 1) /\
  internalBuffer <$> machines early = [∅] /\
  orZero (inventory early) "wood" = 0 /\
  orZero (inventory early) "planks" = 50 /\
  internalBuffer <$> machines late = [{[ "wood" := Num 2 ]}] /\
  orZero (inventory late) "planks" = 50 /\
  internalBuffer <$> machines early' = [∅] /\
  orZero (inventory early') "charcoal" = 100 /\
  internalBuffer <$> machines late' = [{[ "wood" := Num 3 ]}] /\
  orZero (inventory late') "charcoal" = 99.
Proof.
  cbv zeta. repeat split; try reflexivity. vm_compute. discriminate.
Qed.

(** ** The phases of a tick and the fields they leave alone *)

Lemma machinePhase_fields (rules : Rules) (s : State) :
  floorSpace (machinePhase rules s) = floorSpace s /\
  energy (machinePhase rules s) = energy s /\
  inventorySpace (machinePhase rules s) = inventorySpace s /\
  discoveredRecipes (machinePhase rules s) = discoveredRecipes s /\
  research (machinePhase rules s) = research s.
Proof. unfold machinePhase. destruct (machineLoop _ _ _ _ _). done. Qed.

Lemma allocatePower_fields (s : State) :
  floorSpace (allocatePower s) = floorSpace s /\
  inventorySpace (allocatePower s) = inventorySpace s /\
  inventory (allocatePower s) = inventory s /\
  extractionNodes (allocatePower s) = extractionNodes s /\
  unlockedRecipes (allocatePower s) = unlockedRecipes s /\
  discoveredRecipes (allocatePower s) = discoveredRecipes s /\
  research (allocatePower s) = research s.
Proof. unfold allocatePower. case_match; done. Qed.

Lemma researchPhase_fields (rules : Rules) (seed : Z) (s : State) :
  floorSpace (researchPhase rules seed s).1 = floorSpace s /\
  energy (researchPhase rules seed s).1 = energy s /\
  inventorySpace (researchPhase rules seed s).1 = inventorySpace s /\
  inventory (researchPhase rules seed s).1 = inventory s.
Proof. unfold researchPhase. repeat case_match; done. Qed.

Lemma simulateTick_unfold (s : State) (rules : Rules) :
  simulateTick s rules =
    let mid := beforeResearch s rules in
    let after := researchPhase rules (rngSeed s) mid in
    setTickSeed (tick after.1 + 1) after.2 (marketRecovery rules after.1).
Proof.
  unfold simulateTick, beforeResearch. cbv zeta.
  by destruct (researchPhase _ _ _).
Qed.

Lemma beforeResearch_fields (s : State) (rules : Rules) :
  floorSpace (beforeResearch s rules) = floorSpace s /\
  energy (beforeResearch s rules) = energy (allocatePower s) /\
  inventorySpace (beforeResearch s rules) = inventorySpace s /\
  discoveredRecipes (beforeResearch s rules) = discoveredRecipes s /\
  research (beforeResearch s rules) = research s.
Proof.
  unfold beforeResearch, deepClone.
  destruct (machinePhase_fields rules (extractionPhase rules (allocatePower s)))
    as (-> & -> & -> & -> & ->).
  destruct (allocatePower_fields s) as (Hf & Hs & _ & _ & _ & Hd & Hr).
  unfold extractionPhase. simpl. by rewrite Hf, Hs, Hd, Hr.
Qed.

(** ** Research *)

Lemma Qle_bool_Qeq (x y : Q) : (x == y)%Q -> Qle_bool x 0 = Qle_bool y 0.
Proof.
  intros H. destruct (Qle_bool y 0) eqn:E.
  - apply Qle_bool_iff. apply Qle_bool_iff in E. lra.
  - destruct (Qle_bool x 0) eqn:E'; [| done].
    apply Qle_bool_iff in E'.
    assert (Qle_bool y 0 = true) by (apply Qle_bool_iff; lra). congruence.
Qed.

Lemma selectLoop_Qeq (weighted : list (Recipe * Q)) (x y : Q) :
  (x == y)%Q -> selectLoop weighted x = selectLoop weighted y.
Proof.
  revert x y. induction weighted as [| [r w] rest IH]; intros x y H; simpl; [done |].
  rewrite (Qle_bool_Qeq (x - w) (y - w)) by lra.
  destruct (Qle_bool (y - w) 0); [done |]. apply IH. lra.
Qed.

Section Selection.

Variable weight : Recipe -> Q.

Let weigh (und : list Recipe) : list (Recipe * Q) :=
  map (fun recipe => (recipe, weight recipe)) und.

Lemma sumWeights_app (l1 l2 : list Recipe) :
  (sumWeights weight (l1 ++ l2) == sumWeights weight l1 + sumWeights weight l2)%Q.
Proof. induction l1 as [| r l1 IH]; simpl; lra. Qed.

Lemma totalWeight_fold (und : list Recipe) (a : Q) :
  (fold_left (fun sum (w : Recipe * Q) => sum + w.2) (weigh und) a
   == a + sumWeights weight und)%Q.
Proof.
  revert a. induction und as [| r und IH]; intros a; simpl; [lra |].
  rewrite IH. lra.
Qed.

(** The loop returns the recipe the walk selects. *)
Lemma selected_selectLoop (pre post : list Recipe) (r : Recipe) :
  forall x : Q,
  (runningSelection weight x (pre ++ [r]) <= 0)%Q ->
  (forall n : nat, (n < length pre)%nat ->
                   (0 < runningSelection weight x (take (S n) pre))%Q) ->
  selectLoop (weigh (pre ++ r :: post)) x = Some r.
Proof.
  unfold runningSelection.
  induction pre as [| p pre IH]; intros x Hstop Hrun; simpl in *.
  - assert (Qle_bool (x - weight r) 0 = true) as ->; [| done].
    apply Qle_bool_iff. lra.
  - assert (Qle_bool (x - weight p) 0 = false) as ->.
    { destruct (Qle_bool (x - weight p) 0) eqn:E; [| done].
      apply Qle_bool_iff in E. specialize (Hrun O ltac:(lia)).
      rewrite take_0 in Hrun. simpl in Hrun. lra. }
    apply IH.
    + lra.
    + intros n Hn. specialize (Hrun (S n) ltac:(lia)).
      simpl in Hrun. lra.
Qed.

(** What the loop returns is selected by the walk. *)
Lemma selectLoop_selected (und : list Recipe) :
  forall (x : Q) (r : Recipe),
  selectLoop (weigh und) x = Some r -> selected weight x und r.
Proof.
  unfold selected, runningSelection.
  induction und as [| p und IH]; intros x r; simpl; [done |].
  destruct (Qle_bool (x - weight p) 0) eqn:E.
  - intros [= <-]. exists [], und. simpl.
    apply Qle_bool_iff in E. repeat split; [lra | intros n Hn; lia].
  - intros Hsel. apply IH in Hsel as (pre & post & -> & Hstop & Hrun).
    exists (p :: pre), post. simpl. repeat split; [lra |].
    intros [| n] Hn.
    + rewrite take_0. simpl.
      destruct (Qlt_le_dec 0 (x - (weight p + 0))) as [Hlt | Hle]; [done |].
      assert (Qle_bool (x - weight p) 0 = true) by (apply Qle_bool_iff; lra).
      congruence.
    + specialize (Hrun n ltac:(lia)). simpl. lra.
Qed.

Lemma selected_in (x : Q) (und : list Recipe) (r : Recipe) :
  selected weight x und r -> r ∈ und.
Proof. intros (pre & post & -> & _). set_solver. Qed.

End Selection.

Lemma recipeWeight_fold (rules : Rules) (inv : gmap string cell)
    (entries : list (string * Z)) (a : Q) :
  (fold_left (fun weight (entry : string * Z) =>
                if 0 <? orZero inv entry.1
                then weight + proximityWeight (researchRules rules)
                else weight) entries a
   == a + proximityWeight (researchRules rules) * inject_Z (heldCount inv entries))%Q.
Proof.
  revert a. induction entries as [| e rest IH]; intros a; cbn [fold_left heldCount].
  - change (inject_Z 0) with 0%Q. lra.
  - rewrite IH. rewrite inject_Z_plus.
    destruct (0 <? orZero inv e.1).
    + change (inject_Z 1) with 1%Q. lra.
    + change (inject_Z 0) with 0%Q. lra.
Qed.

Lemma recipeWeight_count (rules : Rules) (inv : gmap string cell) (recipe : Recipe) :
  (recipeWeight rules inv recipe
   == 1 + proximityWeight (researchRules rules)
          * inject_Z (heldCount inv (inputs recipe)))%Q.
Proof. unfold recipeWeight. apply recipeWeight_fold. Qed.

(** The research phase in one equation: whether it runs and draws a
    recipe, and which recipe the second draw selects. *)
Lemma researchPhase_discovered (rules : Rules) (seed : Z) (mid : State) :
  let und := undiscoveredRecipes rules (discoveredRecipes mid) in
  let weight := recipeWeight rules (inventory mid) in
  let spare := produced (energy mid) - consumed (energy mid) in
  discoveredRecipes (researchPhase rules seed mid).1 =
    if r_active (research mid) && (energyCost (researchRules rules) <=? spare)
       && ((0 <? length und)%nat
           && Qltb (next seed).1 (discoveryChance (researchRules rules)))
    then
      match selectLoop (map (fun recipe => (recipe, weight recipe)) und)
                       ((next (next seed).2).1 * sumWeights weight und) with
      | Some r => discoveredRecipes mid ++ [rec_id r]
      | None => discoveredRecipes mid
      end
    else discoveredRecipes mid.
Proof.
  cbv zeta. unfold researchPhase.
  destruct (r_active (research mid)
            && (energyCost (researchRules rules)
                <=? produced (energy mid) - consumed (energy mid))); [| done].
  destruct (next seed) as [roll seed1]. cbn [fst snd andb].
  destruct ((0 <? length (undiscoveredRecipes rules (discoveredRecipes mid)))%nat
            && Qltb roll (discoveryChance (researchRules rules))); [| done].
  destruct (next seed1) as [draw seed2]. cbn [fst snd].
  match goal with
  | |- context [selectLoop ?W (draw * fold_left ?f ?l ?a)%Q] =>
      rewrite (selectLoop_Qeq W (draw * fold_left f l a)
                 (draw * sumWeights (recipeWeight rules (inventory mid))
                           (undiscoveredRecipes rules (discoveredRecipes mid))))
  end.
  - destruct (selectLoop _ _); reflexivity.
  - rewrite (totalWeight_fold (recipeWeight rules (inventory mid))). lra.
Qed.

Lemma includes_spec (l : list string) (id : string) :
  includes l id = true <-> id ∈ l.
Proof.
  unfold includes. rewrite existsb_exists. split.
  - intros (x & Hx & Heq). apply String.eqb_eq in Heq as ->. by apply list_elem_of_In.
  - intros H. exists id. split; [by apply list_elem_of_In | apply String.eqb_refl].
Qed.

Lemma includes_false (l : list string) (id : string) :
  includes l id = false <-> id ∉ l.
Proof.
  rewrite <- includes_spec. destruct (includes l id); split; try done.
Qed.

(** The filter of the research phase keeps, in table order, the recipes
    of the rule table whose id is not among the discovered ones. *)
Lemma undiscoveredRecipes_filter (rules : Rules) (discovered : list string) :
  undiscoveredRecipes rules discovered
  = filter (fun r => rec_id r ∉ discovered) (recipes rules).
Proof.
  unfold undiscoveredRecipes. apply list_filter_iff. intros r.
  rewrite Is_true_true, negb_true_iff. apply includes_false.
Qed.

(** C8: a tick adds at most one recipe to the discovered set, a recipe
    of the rule table whose id was not discovered.  It adds one only when
    research is active, the spare energy (produced - consumed) is at least
    the research energy cost and the first draw is below the discovery
    chance.  The undiscovered recipes are the recipes of the rule table
    whose id is not in the discovered set, in table order.  The weight of
    a recipe is 1 + proximityWeight x the number of its input items held
    in the inventory with a quantity above 0.  When research runs, the
    first draw is below the chance and some recipe is undiscovered, the
    recipe added is the one selected by walking the undiscovered recipes
    in table order, subtracting each weight from the second draw scaled to
    the total weight, until the difference is <= 0; if the walk selects
    none, none is added. *)
Theorem research_discovers_at_most_one (s : State) (rules : Rules) :
  let s' := simulateTick s rules in
  let mid := beforeResearch s rules in
  let und := filter (fun r => rec_id r ∉ discoveredRecipes s) (recipes rules) in
  let weight := recipeWeight rules (inventory mid) in
  let spare := produced (energy s') - consumed (energy s') in
  let chance := discoveryChance (researchRules rules) in
  (discoveredRecipes s' = discoveredRecipes s \/
   exists r, r ∈ recipes rules /\ (rec_id r ∉ discoveredRecipes s) /\
             discoveredRecipes s' = discoveredRecipes s ++ [rec_id r]) /\
  (discoveredRecipes s' <> discoveredRecipes s ->
   r_active (research s) = true /\
   energyCost (researchRules rules) <= spare /\
   ((next (rngSeed s)).1 < chance)%Q) /\
  (forall recipe,
     (weight recipe
      == 1 + proximityWeight (researchRules rules)
             * inject_Z (heldCount (inventory mid) (inputs recipe)))%Q) /\
  (r_active (research s) = true ->
   energyCost (researchRules rules) <= spare ->
   und <> [] ->
   ((next (rngSeed s)).1 < chance)%Q ->
   let x := ((next (next (rngSeed s)).2).1 * sumWeights weight und)%Q in
   (forall r, selected weight x und r ->
              discoveredRecipes s' = discoveredRecipes s ++ [rec_id r]) /\
   ((forall r, ~ selected weight x und r) ->
    discoveredRecipes s' = discoveredRecipes s)).
Proof.
  cbv zeta. rewrite simulateTick_unfold. cbv zeta.
  cbn [discoveredRecipes energy setTickSeed marketRecovery setMarketPopularity].
  destruct (researchPhase_fields rules (rngSeed s) (beforeResearch s rules))
    as (_ & -> & _ & _).
  rewrite researchPhase_discovered.
  destruct (beforeResearch_fields s rules) as (_ & Hen & _ & Hdisc & Hres).
  rewrite Hdisc, Hres. rewrite undiscoveredRecipes_filter.
  set (und := filter (fun r => rec_id r ∉ discoveredRecipes s) (recipes rules)).
  set (weight := recipeWeight rules (inventory (beforeResearch s rules))).
  set (spare := produced (energy (beforeResearch s rules))
                - consumed (energy (beforeResearch s rules))).
  set (x := ((next (next (rngSeed s)).2).1 * sumWeights weight und)%Q).
  assert (Hchance : forall roll chance, Qltb roll chance = true <-> (roll < chance)%Q).
  { intros roll chance. unfold Qltb. rewrite negb_true_iff. split.
    - intros H. destruct (Qlt_le_dec roll chance) as [Hlt | Hle]; [done |].
      apply Qle_bool_iff in Hle. congruence.
    - intros H. destruct (Qle_bool chance roll) eqn:E; [| done].
      apply Qle_bool_iff in E. lra. }
  assert (Hlen : (0 <? length und)%nat = true <-> und <> []).
  { rewrite Nat.ltb_lt. destruct und; simpl; split; intros; try done; lia. }
  split; [| split; [| split]].
  - repeat case_match; auto.
    right. eexists.
    assert (Hin : r ∈ und) by (eapply selected_in; by apply selectLoop_selected).
    apply list_elem_of_filter in Hin as [Hnew Hin]. done.
  - intros Hneq.
    destruct (r_active (research s)) eqn:Hact; [| done].
    destruct (energyCost (researchRules rules) <=? spare) eqn:Hsp; [| done].
    destruct (0 <? length und)%nat eqn:Hu; [| done].
    destruct (Qltb (next (rngSeed s)).1 (discoveryChance (researchRules rules))) eqn:Hr;
      [| done].
    apply Z.leb_le in Hsp. apply Hchance in Hr. done.
  - intros recipe. apply recipeWeight_count.
  - intros Hact Hsp Hu Hr.
    rewrite Hact. apply Z.leb_le in Hsp. rewrite Hsp.
    apply Hlen in Hu. rewrite Hu. apply Hchance in Hr. rewrite Hr.
    cbn [andb]. split.
    + intros r (pre & post & Hund & Hstop & Hrun).
      rewrite Hund. by rewrite (selected_selectLoop weight pre post r x).
    + intros Hnone.
      destruct (selectLoop _ x) as [r|] eqn:Hsel; [| done].
      exfalso. apply (Hnone r). by apply selectLoop_selected.
Qed.

(** With seed 7 the first draw is below the chance of 15%: the tick
    discovers a recipe and leaves the seed two draws further. *)
Lemma research_tick_example :
  discoveredRecipes (simulateTick (researchState 7) sampleRules)
    = ["planks"; "charcoal"] /\
  rngSeed (simulateTick (researchState 7) sampleRules)
    = (next (next 7).2).2.
Proof. vm_compute. split; reflexivity. Qed.

(** ** Placement *)

Lemma isWithinBounds_spec (x y size w h : Z) :
  isWithinBounds x y size w h = true <->
  0 <= x /\ 0 <= y /\ x + size <= w /\ y + size <= h.
Proof. unfold isWithinBounds. rewrite !andb_true_iff, !Z.leb_le. tauto. Qed.

Lemma noOverlap_spec (x y size : Z) (p : Placement) :
  noOverlap x y size p = true <-> apart x y size p.
Proof. unfold noOverlap, apart. rewrite !orb_true_iff, !Z.leb_le. tauto. Qed.

Lemma isColliding_spec (x y size : Z) (pl : list Placement) :
  isColliding x y size pl = true <-> exists p, p ∈ pl /\ ~ apart x y size p.
Proof.
  induction pl as [| q pl IH]; simpl.
  - split; [done | intros (p & Hp & _); by apply elem_of_nil in Hp].
  - destruct (noOverlap x y size q) eqn:E; simpl.
    + rewrite IH. apply noOverlap_spec in E. split.
      * intros (p & Hp & Hn). exists p. split; [by right | done].
      * intros (p & Hp & Hn). apply elem_of_cons in Hp as [-> | Hp]; [done |].
        by exists p.
    + split; [| done]. intros _. exists q. split; [by left |].
      intros Ha. apply noOverlap_spec in Ha. congruence.
Qed.

Lemma isColliding_false (x y size : Z) (pl : list Placement) :
  isColliding x y size pl = false <-> forall p, p ∈ pl -> apart x y size p.
Proof.
  induction pl as [| q pl IH]; simpl.
  - split; [intros _ p Hp; by apply elem_of_nil in Hp | done].
  - destruct (noOverlap x y size q) eqn:E; simpl.
    + rewrite IH. apply noOverlap_spec in E. split.
      * intros H p Hp. apply elem_of_cons in Hp as [-> | Hp]; auto.
      * intros H p Hp. apply H. by right.
    + split; [done |]. intros H.
      assert (Ha : apart x y size q) by (apply H; by left).
      apply noOverlap_spec in Ha. congruence.
Qed.

(** What [canPlaceAt] answers, case by case. *)
Lemma canPlaceAt_spec (s : State) (x y size : Z) :
  let fs := floorSpace s in
  let within := 0 <= x /\ 0 <= y /\ x + size <= width fs /\ y + size <= height fs in
  let r := canPlaceAt s x y size in
  (place_error r = Some "Position out of bounds" <-> ~ within) /\
  (place_error r = Some "Position collides with existing structure" <->
   within /\ exists p, p ∈ placements fs /\ ~ apart x y size p) /\
  (valid r = true <-> within /\ forall p, p ∈ placements fs -> apart x y size p).
Proof.
  cbv zeta. unfold canPlaceAt.
  destruct (isWithinBounds x y size (width (floorSpace s)) (height (floorSpace s))) eqn:Eb.
  - apply isWithinBounds_spec in Eb. cbn [negb].
    destruct (isColliding x y size (placements (floorSpace s))) eqn:Ec; simpl.
    + pose proof (proj1 (isColliding_spec _ _ _ _) Ec) as Hc.
      split; [split; [done | tauto] |]. split; [tauto |].
      split; [done |]. intros [_ Hall].
      apply isColliding_false in Hall. congruence.
    + pose proof (proj1 (isColliding_false _ _ _ _) Ec) as Hc.
      split; [split; [done | tauto] |]. split; [| tauto].
      split; [done |]. intros [_ Hex].
      apply isColliding_spec in Hex. congruence.
  - assert (Hout : ~ (0 <= x /\ 0 <= y /\ x + size <= width (floorSpace s) /\
                      y + size <= height (floorSpace s))).
    { intros H. apply isWithinBounds_spec in H. congruence. }
    simpl. split; [tauto |]. split; [split; [done | tauto] |].
    split; [done | tauto].
Qed.

(** For squares of positive side the test is the geometric one: the
    squares are apart exactly when they share no cell. *)
Lemma apart_no_shared_cell (x y size : Z) (p : Placement) :
  0 < size -> 0 < p_size p ->
  apart x y size p <->
  ~ exists a b : Z,
      (x <= a < x + size /\ y <= b < y + size) /\
      (p_x p <= a < p_x p + p_size p /\ p_y p <= b < p_y p + p_size p).
Proof.
  intros Hs Hp. unfold apart. split.
  - intros H (a & b & ? & ?). lia.
  - intros H.
    destruct (decide (x + size <= p_x p \/ p_x p + p_size p <= x \/
                      y + size <= p_y p \/ p_y p + p_size p <= y)) as [|Hn]; [done |].
    exfalso. apply H. exists (Z.max x (p_x p)), (Z.max y (p_y p)). lia.
Qed.

Lemma disjointPlacements_sym (p q : Placement) :
  disjointPlacements p q -> disjointPlacements q p.
Proof. unfold disjointPlacements, apart. lia. Qed.

(** Pushing a placement that [canPlaceAt] accepts. *)
Lemma placementsOk_push (fs : FloorSpace) (new : Placement) :
  placementsOk fs ->
  inBounds fs new ->
  (forall p, p ∈ placements fs -> apart (p_x new) (p_y new) (p_size new) p) ->
  placementsOk (mkFloorSpace (width fs) (height fs) (placements fs ++ [new])).
Proof.
  intros [Hin Hpairs] Hnew Hfree. split; simpl.
  - apply Forall_app. split; [exact Hin |]. by apply Forall_singleton.
  - intros i j p q Hij Hi Hj.
    apply lookup_snoc_Some in Hi as [[Hil Hi] | [-> ->]];
      apply lookup_snoc_Some in Hj as [[Hjl Hj] | [-> ->]].
    + by apply (Hpairs i j).
    + apply disjointPlacements_sym. apply Hfree.
      apply list_elem_of_lookup. by exists i.
    + apply Hfree. apply list_elem_of_lookup. by exists j.
    + done.
Qed.

Lemma placementsOk_delete (fs : FloorSpace) (n : nat) :
  placementsOk fs ->
  placementsOk (mkFloorSpace (width fs) (height fs) (delete n (placements fs))).
Proof.
  intros [Hin Hpairs]. split; simpl.
  - by apply Forall_delete.
  - intros i j p q Hij Hi Hj.
    destruct (decide (i < n)%nat); destruct (decide (j < n)%nat).
    + rewrite list_lookup_delete_lt in Hi, Hj by done. by apply (Hpairs i j).
    + rewrite list_lookup_delete_lt in Hi by done.
      rewrite list_lookup_delete_ge in Hj by lia. apply (Hpairs i (S j)); auto with lia.
    + rewrite list_lookup_delete_ge in Hi by lia.
      rewrite list_lookup_delete_lt in Hj by done. apply (Hpairs (S i) j); auto with lia.
    + rewrite list_lookup_delete_ge in Hi, Hj by lia.
      apply (Hpairs (S i) (S j)); auto with lia.
Qed.

Lemma placementsOk_removePlacement (fs : FloorSpace) (id : string) :
  placementsOk fs -> placementsOk (removePlacement id fs).
Proof.
  intros H. unfold removePlacement.
  destruct (findIndex _ _) as [[n p]|]; [| done].
  by apply placementsOk_delete.
Qed.

Lemma placementsOk_grow (fs : FloorSpace) (w h : Z) :
  width fs <= w -> height fs <= h ->
  placementsOk fs -> placementsOk (mkFloorSpace w h (placements fs)).
Proof.
  intros Hw Hh [Hin Hpairs]. split; simpl; [| exact Hpairs].
  eapply Forall_impl; [exact Hin |].
  intros p (? & ? & ? & ?). unfold inBounds. simpl. lia.
Qed.

Lemma simulateTick_floorSpace (s : State) (rules : Rules) :
  floorSpace (simulateTick s rules) = floorSpace s.
Proof.
  rewrite simulateTick_unfold. cbv zeta.
  cbn [floorSpace setTickSeed marketRecovery setMarketPopularity].
  destruct (researchPhase_fields rules (rngSeed s) (beforeResearch s rules)) as (-> & _).
  by destruct (beforeResearch_fields s rules) as (-> & _).
Qed.

Ltac floor_unchanged :=
  repeat (simpl in *; try done; case_match).

(** Every tick and every accepted command keeps the placements disjoint
    and within the floor. *)
Lemma engine_keeps_placements (rules : Rules) (randomId : string) (s : State)
    (a : Action) (res : Result) :
  0 <= initialChunkSize (floorRules rules) ->
  engine randomId s rules a = Some res ->
  error res = None ->
  placementsOk (floorSpace s) ->
  placementsOk (floorSpace (state res)).
Proof.
  intros Hchunk Hrun Herr Hok.
  destruct a; simpl in Hrun.
  all: try (injection Hrun as <-).
  - simpl. by rewrite simulateTick_floorSpace.
  - unfold addMachine, deepClone in *.
    destruct x as [x|]; [| done]. destruct y as [y|]; [| done].
    destruct (valid (canPlaceAt s x y _)) eqn:Ev; [| simpl in Herr; by rewrite Herr in *].
    apply canPlaceAt_spec in Ev as [Hwithin Hfree].
    cbn [negb] in *. destruct (orZero (inventory s) _ <? 1); [done |].
    simpl. by apply placementsOk_push.
  - unfold removeMachine, deepClone in *.
    destruct (findIndex _ _) as [[n m]|]; [| done].
    simpl. by apply placementsOk_removePlacement.
  - unfold assignRecipe, deepClone in *. floor_unchanged.
  - unfold addGenerator, deepClone in *.
    destruct x as [x|]; [| done]. destruct y as [y|]; [| done].
    destruct (findGeneratorType _ _) as [cfg|]; [| done].
    destruct (valid (canPlaceAt s x y _)) eqn:Ev; [| simpl in Herr; by rewrite Herr in *].
    apply canPlaceAt_spec in Ev as [Hwithin Hfree].
    cbn [negb] in *. destruct (orZero (inventory s) _ <? 1); [done |].
    simpl. by apply placementsOk_push.
  - unfold removeGenerator, deepClone in *.
    destruct (findIndex _ _) as [[n g]|]; [| done].
    simpl. by apply placementsOk_removePlacement.
  - destruct (buyFloorSpace_accepted s rules res Hrun Herr)
      as (e & He & _ & Hpl & Hdim).
    assert (Hpos : 0 <= chunkSize e).
    { unfold getNextExpansionChunk in He.
      destruct (chunkLoop _ _ _ _ _) as [[c t]|] eqn:Eloop; [| done].
      injection He as <-. simpl.
      by apply (chunkLoop_chunk_nonneg _ _ _ _ _ _ _ Hchunk Eloop). }
    destruct (floorSpace (state res)) as [w h pl] eqn:Efs. simpl in *. subst pl.
    apply placementsOk_grow; [lia | lia | done].
  - unfold sellGoods, deepClone in *. floor_unchanged.
  - done.
  - unfold unlockRecipe, deepClone in *. floor_unchanged.
  - unfold unblockMachine, deepClone in *. floor_unchanged.
  - unfold toggleMachine, deepClone in *. floor_unchanged.
  - unfold buyInventorySpace, deepClone in *. floor_unchanged.
  - done.
Qed.

(** C6, the claim as stated fails: on an 8x8 floor with a 2x2 structure
    at (6,6), the 2x2 square at (7,7) intersects that structure, yet
    [canPlaceAt] answers with the out-of-bounds failure, not with the
    collision failure. *)
Lemma collision_hidden_by_bounds :
  (exists p, p ∈ placements (floorSpace crowdedCorner) /\ ~ apart 7 7 2 p) /\
  place_error (canPlaceAt crowdedCorner 7 7 2)
    <> Some "Position collides with existing structure" /\
  place_error (canPlaceAt crowdedCorner 7 7 2) = Some "Position out of bounds".
Proof.
  split; [| split; [discriminate | reflexivity]].
  exists (mkPlacement "m0" 6 6 2 type_machine). split.
  - apply list_elem_of_singleton. reflexivity.
  - unfold apart. simpl. lia.
Qed.

(** C6, amended: in every state reached by ticks and accepted commands
    from a state whose placements are pairwise apart and within the floor
    (the initial chunk size of the rules not being negative), all pairs of
    placements are apart and every footprint lies within the floor;
    [canPlaceAt] answers with the out-of-bounds failure exactly when the
    footprint leaves the floor, with the collision failure exactly when
    the footprint lies within the floor and is not apart from some existing
    placement, and accepts exactly when it lies within the floor and is
    apart from all of them. *)
Theorem placements_stay_disjoint (rules : Rules) (s0 s : State) :
  0 <= initialChunkSize (floorRules rules) ->
  placementsOk (floorSpace s0) ->
  reachable rules s0 s ->
  placementsOk (floorSpace s) /\
  forall x y size : Z,
    let fs := floorSpace s in
    let within := 0 <= x /\ 0 <= y /\ x + size <= width fs /\ y + size <= height fs in
    let r := canPlaceAt s x y size in
    (place_error r = Some "Position out of bounds" <-> ~ within) /\
    (place_error r = Some "Position collides with existing structure" <->
     within /\ exists p, p ∈ placements fs /\ ~ apart x y size p) /\
    (valid r = true <-> within /\ forall p, p ∈ placements fs -> apart x y size p).
Proof.
  intros Hchunk Hstart Hreach. split.
  - induction Hreach as [| s randomId a res Hreach IH Hrun Herr]; [done |].
    by apply (engine_keeps_placements rules randomId s a res).
  - intros x y size. apply canPlaceAt_spec.
Qed.

Lemma placements_stay_disjoint_witness :
  exists res,
    engine "m1" readyToBuild sampleRules (ADD_MACHINE (Some 0) (Some 0)) = Some res /\
    placements (floorSpace (state res)) = [mkPlacement "m1" 0 0 2 type_machine] /\
    placementsOk (floorSpace (state res)) /\
    place_error (canPlaceAt (state res) 1 1 2)
      = Some "Position collides with existing structure" /\
    valid (canPlaceAt (state res) 2 0 2) = true.
Proof.
  eexists. split; [reflexivity |]. split; [reflexivity |].
  destruct (placements_stay_disjoint sampleRules readyToBuild
              (state (addMachine "m1" readyToBuild sampleRules (Some 0) (Some 0))))
    as [Hok _].
  - simpl. lia.
  - split; simpl; [constructor |]. intros i j p q _ Hi. by destruct i.
  - apply (reachable_step sampleRules readyToBuild readyToBuild "m1"
             (ADD_MACHINE (Some 0) (Some 0))).
    + apply reachable_start.
    + reflexivity.
    + reflexivity.
  - split; [exact Hok |]. split; reflexivity.
Defined.

(** ** Inventory capacity *)

Lemma find_elem_of {A} (f : A -> bool) (l : list A) (a : A) :
  find f l = Some a -> a ∈ l /\ f a = true.
Proof.
  induction l as [| b l IH]; simpl; [done |].
  destruct (f b) eqn:E.
  - intros [= ->]. split; [by left | done].
  - intros H. destruct (IH H). split; [by right | done].
Qed.

Lemma getItemWeight_pos (rules : Rules) (k : string) :
  rulesOk rules -> 0 < getItemWeight k rules.
Proof.
  intros (Hw & _). unfold getItemWeight, findMaterial.
  destruct (find _ _) as [m|] eqn:E; [| lia].
  apply find_elem_of in E as [Hm _]. by apply Hw.
Qed.

Lemma orZero_pos_present (m : gmap string cell) (k : string) :
  0 < orZero m k -> exists c, m !! k = Some c /\ cellZ c = orZero m k.
Proof.
  unfold orZero. destruct (m !! k) as [c|]; [| lia]. intros _. by exists c.
Qed.

Section Capacity.

Variable rules : Rules.
Variable space : Z.
Hypothesis Hrules : rulesOk rules.

Lemma fits_insert (inv : gmap string cell) (k : string) (z : Z) :
  fitsCapacity rules space inv ->
  z * getItemWeight k rules <= space ->
  fitsCapacity rules space (<[k := Num z]> inv).
Proof.
  intros Hfit Hz j c Hj. destruct (decide (k = j)) as [<- | Hne].
  - rewrite lookup_insert_eq in Hj. by injection Hj as <-.
  - rewrite lookup_insert_ne in Hj by done. by apply Hfit.
Qed.

Lemma fits_delete (inv : gmap string cell) (k : string) :
  fitsCapacity rules space inv -> fitsCapacity rules space (delete k inv).
Proof.
  intros Hfit j c Hj. destruct (decide (k = j)) as [<- | Hne].
  - by rewrite lookup_delete_eq in Hj.
  - rewrite lookup_delete_ne in Hj by done. by apply Hfit.
Qed.

(** Lowering a slot that holds something keeps the capacity. *)
Lemma fits_lower (inv : gmap string cell) (k : string) (z : Z) :
  fitsCapacity rules space inv ->
  0 < orZero inv k -> z <= orZero inv k ->
  fitsCapacity rules space (<[k := Num z]> inv).
Proof.
  intros Hfit Hpos Hz. apply fits_insert; [done |].
  destruct (orZero_pos_present _ _ Hpos) as (c & Hc & Heq).
  specialize (Hfit k c Hc). pose proof (getItemWeight_pos rules k Hrules). nia.
Qed.

Lemma fits_debit (inv : gmap string cell) (k : string) (q : Z) :
  fitsCapacity rules space inv ->
  0 < orZero inv k -> 0 <= q ->
  fitsCapacity rules space (debit inv k q).
Proof.
  intros Hfit Hpos Hq. unfold debit.
  destruct (orZero_pos_present _ _ Hpos) as (c & Hc & Heq). rewrite Hc.
  destruct (cellZ c - q =? 0); [by apply fits_delete |].
  apply fits_lower; [done | done | lia].
Qed.

Lemma fits_extractNode (inv : gmap string cell) (node : ExtractionNode) :
  fitsCapacity rules space inv ->
  fitsCapacity rules space (extractNode rules space inv node).
Proof.
  intros Hfit. unfold extractNode.
  destruct (active node); [| done].
  unfold getMaxStack.
  pose proof (getItemWeight_pos rules (resourceType node) Hrules) as Hw.
  destruct (getItemWeight (resourceType node) rules =? 0) eqn:E;
    [apply Z.eqb_eq in E; lia |].
  cbn [spaceLeftOf minWith].
  destruct (0 <? _) eqn:Eadd; [| done].
  apply fits_insert; [done |].
  pose proof (Z.mul_div_le space _ Hw). nia.
Qed.

Lemma fits_extraction (nodes : list ExtractionNode) (inv : gmap string cell) :
  fitsCapacity rules space inv ->
  fitsCapacity rules space (fold_left (extractNode rules space) nodes inv).
Proof.
  revert inv. induction nodes as [| node nodes IH]; intros inv Hfit; simpl; [done |].
  apply IH. by apply fits_extractNode.
Qed.

Lemma fits_pull (entries : list (string * Z)) (buffer inv : gmap string cell) :
  fitsCapacity rules space inv ->
  fitsCapacity rules space (fold_left pullItem entries (buffer, inv)).2.
Proof.
  revert buffer inv.
  induction entries as [| [k needed] rest IH]; intros buffer inv Hfit; simpl; [done |].
  destruct (0 <? needed - orZero buffer k); [| by apply IH].
  destruct (0 <? Z.min (needed - orZero buffer k) (orZero inv k)) eqn:E; [| by apply IH].
  apply Z.ltb_lt in E. apply IH. apply fits_lower; [done | lia | lia].
Qed.

Lemma hasRoom_fits (inv : gmap string cell) (e : string * Z) :
  hasRoom rules space inv e ->
  (orZero inv e.1 + e.2) * getItemWeight e.1 rules <= space.
Proof.
  unfold hasRoom, getMaxStack.
  pose proof (getItemWeight_pos rules e.1 Hrules) as Hw.
  destruct (getItemWeight e.1 rules =? 0) eqn:E; [apply Z.eqb_eq in E; lia |].
  cbn [spaceLeftOf lessThan]. intros H. apply Z.ltb_ge in H.
  pose proof (Z.mul_div_le space _ Hw). nia.
Qed.

Lemma fits_outputs (entries : list (string * Z)) (inv : gmap string cell) :
  NoDup entries.*1 ->
  (forall e, e ∈ entries -> hasRoom rules space inv e) ->
  fitsCapacity rules space inv ->
  fitsCapacity rules space
    (fold_left (fun i (entry : string * Z) =>
                  <[entry.1 := Num (orZero i entry.1 + entry.2)]> i)
               entries inv).
Proof.
  revert inv.
  induction entries as [| [k q] rest IH]; intros inv Hnd Hroom Hfit; [done |].
  cbn [fold_left fst snd].
  rewrite fmap_cons in Hnd. apply NoDup_cons in Hnd as [Hfresh Hnd].
  apply IH; [done | |].
  - intros e He. unfold hasRoom.
    assert (k <> e.1).
    { intros ->. apply Hfresh. apply list_elem_of_fmap. by exists e. }
    rewrite orZero_insert_ne by done. apply Hroom. by right.
  - apply fits_insert; [done |].
    apply (hasRoom_fits inv (k, q)). apply Hroom. by left.
Qed.

Lemma fits_processMachine (unlocked : list string) (m : Machine)
    (inv : gmap string cell) :
  fitsCapacity rules space inv ->
  fitsCapacity rules space (processMachine rules space unlocked m inv).2.
Proof.
  intros Hfit. unfold processMachine.
  destruct (negb (enabled m) || negb (truthy (recipeId m))
            || bool_decide (status m = blocked)); [done |].
  destruct (findRecipe _ rules) as [recipe|] eqn:Efind; [| done].
  destruct (negb (includes unlocked (rec_id recipe))); [done |].
  pose proof (fits_pull (inputs recipe) (internalBuffer (setStatus working m)) inv Hfit)
    as Hpull.
  unfold pullPhase. destruct (fold_left pullItem _ _) as [buffer1 inv1].
  cbn [snd] in Hpull. unfold completion.
  destruct (bufferComplete recipe buffer1); [| done].
  destruct (canProduce rules space recipe inv1) eqn:Ecan; [| done].
  cbn [snd]. unfold addOutputs. apply fits_outputs; [| | done].
  - destruct Hrules as (_ & Hout & _). apply Hout.
    unfold findRecipe in Efind. by apply find_elem_of in Efind as [? _].
  - by apply canProduce_spec.
Qed.

Lemma fits_machineLoop (unlocked : list string) (ms : list Machine)
    (inv : gmap string cell) :
  fitsCapacity rules space inv ->
  fitsCapacity rules space (machineLoop rules space unlocked ms inv).2.
Proof.
  revert inv. induction ms as [| m ms IH]; intros inv Hfit; simpl; [done |].
  pose proof (fits_processMachine unlocked m inv Hfit) as Hm.
  destruct (processMachine rules space unlocked m inv) as [m' inv'].
  specialize (IH inv' Hm).
  by destruct (machineLoop rules space unlocked ms inv') as [rest' inv''].
Qed.

End Capacity.

Lemma simulateTick_capacity (rules : Rules) (s : State) :
  rulesOk rules -> capacityOk rules s -> capacityOk rules (simulateTick s rules).
Proof.
  intros Hrules Hok. unfold capacityOk.
  rewrite simulateTick_unfold. cbv zeta.
  cbn [inventory inventorySpace setTickSeed marketRecovery setMarketPopularity].
  destruct (researchPhase_fields rules (rngSeed s) (beforeResearch s rules))
    as (_ & _ & -> & ->).
  unfold beforeResearch, deepClone, machinePhase, extractionPhase.
  destruct (allocatePower_fields s) as (_ & Hspace & Hinv & _).
  cbn [inventory inventorySpace machines unlockedRecipes setInventory].
  rewrite Hspace, Hinv.
  pose proof (fits_machineLoop rules (inventorySpace s) Hrules
                (unlockedRecipes (allocatePower s)) (machines (allocatePower s))
                _ (fits_extraction rules (inventorySpace s) Hrules
                     (extractionNodes (allocatePower s)) (inventory s) Hok)) as Hloop.
  destruct (machineLoop _ _ _ _ _) as [ms inv].
  cbn [inventory inventorySpace setInventory setMachines]. by rewrite Hspace.
Qed.

(** C3, the claim as stated fails: with a full store of wood (100 units of
    weight 1 on a capacity of 100) and a machine that holds one wood in its
    buffer, REMOVE_MACHINE and ASSIGN_RECIPE are accepted and leave 101
    wood in the inventory. *)
Lemma buffer_return_overfills :
  capacityOk sampleRules fullStore /\
  (exists res,
     engine "id" fullStore sampleRules (REMOVE_MACHINE "m1") = Some res /\
     error res = None /\
     inventory (state res) !! "wood" = Some (Num 101) /\
     ~ capacityOk sampleRules (state res)) /\
  (exists res,
     engine "id" fullStore sampleRules (ASSIGN_RECIPE "m1" None) = Some res /\
     error res = None /\
     inventory (state res) !! "wood" = Some (Num 101) /\
     ~ capacityOk sampleRules (state res)).
Proof.
  split; [| split].
  - intros k c Hk.
    change (inventory fullStore) with ({[ "wood" := Num 100 ]} : gmap string cell) in Hk.
    apply lookup_singleton_Some in Hk as [<- <-]. vm_compute. discriminate.
  - eexists. split; [reflexivity |]. split; [reflexivity |]. split; [reflexivity |].
    intros H. specialize (H "wood" (Num 101) eq_refl). vm_compute in H. by apply H.
  - eexists. split; [reflexivity |]. split; [reflexivity |]. split; [reflexivity |].
    intros H. specialize (H "wood" (Num 101) eq_refl). vm_compute in H. by apply H.
Qed.

(** C3, amended: with rules whose weights are positive, whose recipe
    outputs have distinct keys and whose storage upgrade is not negative,
    a state in which every inventory slot satisfies quantity x weight <=
    inventorySpace is taken to such a state by every tick and by every
    accepted command other than REMOVE_MACHINE and ASSIGN_RECIPE (a sale
    being of at least one unit); the two commands left out return the
    buffer to the inventory without a capacity check. *)
Theorem capacity_kept (rules : Rules) (randomId : string) (s : State)
    (a : Action) (res : Result) :
  rulesOk rules ->
  capacityOk rules s ->
  keepsCapacity a ->
  engine randomId s rules a = Some res ->
  error res = None ->
  capacityOk rules (state res).
Proof.
  intros Hrules Hok Hkeep Hrun Herr.
  destruct a; simpl in Hrun; try done.
  all: try (injection Hrun as <-).
  - by apply simulateTick_capacity.
  - unfold addMachine, deepClone in *.
    destruct x as [x|]; [| done]. destruct y as [y|]; [| done].
    destruct (valid (canPlaceAt s x y _)); [| simpl in Herr; by rewrite Herr in *].
    cbn [negb] in *.
    destruct (orZero (inventory s) _ <? 1) eqn:E; [done |].
    apply Z.ltb_ge in E. unfold capacityOk. simpl.
    apply fits_debit; [done | done | lia | lia].
  - unfold addGenerator, deepClone in *.
    destruct x as [x|]; [| done]. destruct y as [y|]; [| done].
    destruct (findGeneratorType _ _) as [cfg|]; [| done].
    destruct (valid (canPlaceAt s x y _)); [| simpl in Herr; by rewrite Herr in *].
    cbn [negb] in *.
    destruct (orZero (inventory s) _ <? 1) eqn:E; [done |].
    apply Z.ltb_ge in E. unfold capacityOk. simpl.
    apply fits_debit; [done | done | lia | lia].
  - unfold removeGenerator, deepClone in *. floor_unchanged.
  - unfold buyFloorSpace, deepClone in *.
    destruct (getNextExpansionChunk s rules) as [e|]; [| done].
    destruct (credits s <? cost e); injection Hrun as <-; done.
  - unfold sellGoods, deepClone in *. simpl in Hkeep.
    destruct (orZero (inventory s) itemId <? quantity) eqn:E; [done |].
    apply Z.ltb_ge in E.
    destruct (findMaterial itemId rules); [| done].
    unfold capacityOk. simpl.
    apply fits_debit; [done | done | lia | lia].
  - done.
  - unfold unlockRecipe, deepClone in *. floor_unchanged.
  - unfold unblockMachine, deepClone in *. floor_unchanged.
  - unfold toggleMachine, deepClone in *. floor_unchanged.
  - unfold buyInventorySpace, deepClone in *.
    destruct (credits s <? _); [done |].
    unfold capacityOk. simpl. intros k c Hk. specialize (Hok k c Hk).
    destruct Hrules as (_ & _ & Hup). lia.
  - done.
Qed.

Lemma sampleRules_ok : rulesOk sampleRules.
Proof.
  split; [| split].
  - intros m Hm. simpl in Hm.
    repeat (apply elem_of_cons in Hm as [-> | Hm]; [simpl; lia |]).
    by apply elem_of_nil in Hm.
  - intros r Hr. simpl in Hr.
    repeat (apply elem_of_cons in Hr as [-> | Hr]; [apply NoDup_singleton |]).
    by apply elem_of_nil in Hr.
  - simpl. lia.
Qed.

Lemma capacity_kept_witness :
  capacityOk sampleRules (state (mkResult (simulateTick sampleState sampleRules) None)).
Proof.
  apply (capacity_kept sampleRules "id" sampleState SIMULATE).
  - apply sampleRules_ok.
  - intros k c Hk.
    change (inventory sampleState) with ({[ "wood" := Num 7 ]} : gmap string cell) in Hk.
    apply lookup_singleton_Some in Hk as [<- <-]. vm_compute. discriminate.
  - exact I.
  - reflexivity.
  - reflexivity.
Defined.

(** ** Replaying commands *)

(** Only the two build commands read the random id. *)
Lemma engine_randomId_only_builds (id1 id2 : string) (s : State) (rules : Rules)
    (a : Action) :
  (forall x y, a <> ADD_MACHINE x y) ->
  (forall t x y, a <> ADD_GENERATOR t x y) ->
  engine id1 s rules a = engine id2 s rules a.
Proof.
  intros Hm Hg. destruct a; try reflexivity.
  - by destruct (Hm x y).
  - by destruct (Hg generatorType x y).
Qed.

(** C1: two replays of the one command ADD_MACHINE(0,0) from the same
    fresh state seeded with 12345 end in different states: the id of the
    machine built (and of its placement) is whatever [Math.random] gave in
    each run, while the seed persisted in the two states is the same. *)
Theorem replay_ids_differ :
  let fresh := createInitialState readyToBuild (Some 12345) in
  let commands := [ADD_MACHINE (Some 0) (Some 0)] in
  exists s1 s2,
    replay (fun _ => "k3j9x2a") 0 sampleRules fresh commands = Some s1 /\
    replay (fun _ => "p0q8w1z") 0 sampleRules fresh commands = Some s2 /\
    m_id <$> machines s1 = ["k3j9x2a"] /\
    m_id <$> machines s2 = ["p0q8w1z"] /\
    rngSeed s1 = rngSeed s2 /\
    s1 <> s2.
Proof.
  cbv zeta. eexists. eexists.
  split; [reflexivity |]. split; [reflexivity |].
  split; [reflexivity |]. split; [reflexivity |].
  split; [reflexivity |].
  intros H. apply (f_equal (fun s => m_id <$> machines s)) in H.
  vm_compute in H. discriminate.
Qed.

(** ** The scenarios of the specification *)

(** One node of wood at rate 2 on a capacity of 100: 2 after one tick, 100
    after 50 ticks, and nothing more after that. *)
Lemma extraction_scenario :
  let start := setInventory ∅ sampleState in
  inventory (simulateTicks 1 sampleRules start) = {[ "wood" := Num 2 ]} /\
  inventory (simulateTicks 50 sampleRules start) = {[ "wood" := Num 100 ]} /\
  inventory (simulateTicks 60 sampleRules start) = {[ "wood" := Num 100 ]}.
Proof. vm_compute. repeat split. Qed.

(** Three machines drawing 2 each on a supply of 3: the last two are shed,
    the first keeps working. *)
Lemma brownout_scenario :
  status <$> machines (allocatePower brownoutState) = [working; blocked; blocked] /\
  energy (allocatePower brownoutState) = mkEnergy 3 2.
Proof. vm_compute. split; reflexivity. Qed.

(** * Further properties of the engine *)

(** ** The generator *)

Lemma ToInt32_range (z : Z) : -2147483648 <= Int32.ToInt32 z < 2147483648.
Proof.
  unfold Int32.ToInt32, Int32.two32.
  pose proof (Z.mod_pos_bound (z + 2147483648) 4294967296 ltac:(lia)). lia.
Qed.

Lemma ToInt32_congruent (z : Z) : (Int32.ToInt32 z - z) mod 4294967296 = 0.
Proof.
  unfold Int32.ToInt32, Int32.two32.
  replace ((z + 2147483648) mod 4294967296 - 2147483648 - z)
    with ((z + 2147483648) mod 4294967296 - (z + 2147483648)) by lia.
  rewrite Zminus_mod, Z.mod_mod, Z.sub_diag by lia. reflexivity.
Qed.

Lemma ToInt32_wrap (z k : Z) : Int32.ToInt32 (z + k * 4294967296) = Int32.ToInt32 z.
Proof.
  unfold Int32.ToInt32, Int32.two32.
  replace (z + k * 4294967296 + 2147483648) with (z + 2147483648 + k * 4294967296) by lia.
  by rewrite Z.mod_add by lia.
Qed.

Lemma ToInt32_idem (z : Z) : Int32.ToInt32 (Int32.ToInt32 z) = Int32.ToInt32 z.
Proof.
  pose proof (ToInt32_range z) as Hr. unfold Int32.ToInt32 at 1. unfold Int32.two32.
  rewrite Z.mod_small by lia. lia.
Qed.

Lemma ToInt32_add (a b : Z) :
  Int32.ToInt32 (Int32.ToInt32 a + b) = Int32.ToInt32 (a + b).
Proof.
  unfold Int32.ToInt32, Int32.two32.
  f_equal.
  replace ((a + 2147483648) mod 4294967296 - 2147483648 + b + 2147483648)
    with ((a + 2147483648) mod 4294967296 + b) by lia.
  rewrite Zplus_mod_idemp_l. f_equal. lia.
Qed.

Lemma next_seed (seed : Z) : (next seed).2 = Int32.ToInt32 (seed + 0x6D2B79F5).
Proof. unfold next. cbn [snd]. apply ToInt32_add. Qed.

(** X1: every draw is a multiple of 2^-32 in [0, 1), and the seed the
    generator is left with is the signed 32-bit value of the seed plus
    0x6D2B79F5, whatever integer the seed was. *)
Theorem next_draw_and_seed (seed : Z) :
  (exists k : Z, 0 <= k < 4294967296 /\ (next seed).1 = Qmake k 4294967296) /\
  (0 <= (next seed).1 < 1)%Q /\
  (next seed).2 = Int32.ToInt32 (seed + 0x6D2B79F5) /\
  -2147483648 <= (next seed).2 < 2147483648.
Proof.
  split; [| split; [apply next_range | split]].
  - unfold next. cbn [fst]. eexists. split; [| reflexivity].
    unfold Int32.ToUint32, Int32.two32. apply Z.mod_pos_bound. lia.
  - unfold next. cbn [snd]. apply ToInt32_add.
  - unfold next. cbn [snd]. apply ToInt32_range.
Qed.

Lemma next_wrap (seed k : Z) : next (seed + k * 4294967296) = next seed.
Proof. unfold next. by rewrite ToInt32_wrap. Qed.

Lemma seedAfter_position (n : nat) (seed : Z) :
  (0 < n)%nat ->
  seedAfter n seed = Int32.ToInt32 (seed + Z.of_nat n * 0x6D2B79F5).
Proof.
  induction n as [| n IH]; [lia |]. intros _.
  cbn [seedAfter]. rewrite (next_seed (seedAfter n seed)).
  destruct n as [| n].
  - cbn [seedAfter]. f_equal; lia.
  - rewrite IH by lia. rewrite ToInt32_add. f_equal; lia.
Qed.

(** X2: the stream depends on the seed modulo 2^32 only, and the seed
    persisted after [n >= 1] draws is the signed 32-bit value of the
    starting seed plus [n] times 0x6D2B79F5: a persisted seed resumes the
    stream where it stopped. *)
Theorem generator_stream (n m : nat) (seed k : Z) :
  (0 < n)%nat ->
  next (seed + k * 4294967296) = next seed /\
  seedAfter n seed = Int32.ToInt32 (seed + Z.of_nat n * 0x6D2B79F5) /\
  seedAfter m (seedAfter n seed) = seedAfter (m + n) seed.
Proof.
  intros Hn. split; [apply next_wrap | split; [by apply seedAfter_position |]].
  induction m as [| m IH]; [done |]. cbn [seedAfter Nat.add]. by rewrite IH.
Qed.

Lemma generator_stream_witness :
  seedAfter 2 12345 = Int32.ToInt32 (12345 + 2 * 0x6D2B79F5) /\
  seedAfter 1 (seedAfter 2 12345) = seedAfter 3 12345.
Proof.
  destruct (generator_stream 2 1 12345 0) as (_ & H2 & H3); [lia |].
  split; [exact H2 | exact H3].
Defined.

(** ** Capacity utilities *)

(** X3: for an item of positive weight the maximum stack is the largest
    quantity whose weight fits the capacity, and an item that is not in the
    materials table weighs 1, so its stack is the capacity itself. *)
Theorem getMaxStack_largest_fit (itemId : string) (capacity : Z) (rules : Rules) :
  0 < getItemWeight itemId rules ->
  exists m : Z,
    getMaxStack itemId capacity rules = Finite m /\
    m * getItemWeight itemId rules <= capacity
      < (m + 1) * getItemWeight itemId rules /\
    (findMaterial itemId rules = None -> m = capacity).
Proof.
  intros Hw. unfold getMaxStack.
  destruct (getItemWeight itemId rules =? 0) eqn:E; [apply Z.eqb_eq in E; lia |].
  eexists. split; [reflexivity |]. split.
  - pose proof (Z.mul_div_le capacity _ Hw).
    pose proof (Z.mul_succ_div_gt capacity _ Hw). lia.
  - intros Hnone. unfold getItemWeight. rewrite Hnone. apply Z.div_1_r.
Qed.

Lemma getMaxStack_largest_fit_witness :
  getMaxStack "planks" 101 sampleRules = Finite 50 /\
  getMaxStack "charcoal" 101 sampleRules = Finite 101.
Proof.
  destruct (getMaxStack_largest_fit "planks" 101 sampleRules) as (m & Hm & _ & _).
  - vm_compute. reflexivity.
  - split; [| reflexivity]. rewrite Hm. f_equal.
    assert (H : Finite m = Finite 50) by (rewrite <- Hm; reflexivity).
    by injection H.
Defined.

(** ** Extraction *)

Lemma extractNode_cases (rules : Rules) (space : Z) (inv : gmap string cell)
    (node : ExtractionNode) :
  extractNode rules space inv node = inv \/
  exists toAdd : Z,
    active node = true /\ 0 < toAdd /\ toAdd <= rate node /\
    (forall m, getMaxStack (resourceType node) space rules = Finite m ->
               toAdd <= m - orZero inv (resourceType node)) /\
    extractNode rules space inv node
      = <[resourceType node := Num (orZero inv (resourceType node) + toAdd)]> inv.
Proof.
  unfold extractNode. destruct (active node); [| by left].
  destruct (getMaxStack (resourceType node) space rules) as [m| | |] eqn:E;
    cbn [spaceLeftOf minWith]; try by left.
  - destruct (0 <? Z.min (rate node) (m - orZero inv (resourceType node))) eqn:Ea;
      [| by left].
    apply Z.ltb_lt in Ea. right. eexists.
    split; [reflexivity |]. split; [exact Ea |]. split; [lia |].
    split; [| reflexivity]. intros m' [= <-]. lia.
  - destruct (0 <? rate node) eqn:Ea; [| by left].
    apply Z.ltb_lt in Ea. right. exists (rate node).
    split; [reflexivity |]. split; [exact Ea |]. split; [lia |].
    split; [done | reflexivity].
Qed.

(** X4: the extraction phase never lowers a slot and touches only the
    resources of active nodes; a resource at or below its maximum stack
    stays at or below it, and a resource already at or above its maximum
    stack is left as it is, the extracted excess being discarded. *)
Theorem extraction_fills_to_the_stack (rules : Rules) (s : State) :
  let s' := extractionPhase rules s in
  (forall k, orZero (inventory s) k <= orZero (inventory s') k) /\
  (forall k,
     (forall node, node ∈ extractionNodes s -> active node = true ->
                   resourceType node <> k) ->
     inventory s' !! k = inventory s !! k) /\
  (forall k m,
     getMaxStack k (inventorySpace s) rules = Finite m ->
     (orZero (inventory s) k <= m -> orZero (inventory s') k <= m) /\
     (m <= orZero (inventory s) k -> inventory s' !! k = inventory s !! k)).
Proof.
  cbv zeta. unfold extractionPhase. cbn [inventory setInventory].
  generalize (inventory s) as inv. generalize (extractionNodes s) as nodes.
  induction nodes as [| node nodes IH]; intros inv; cbn [fold_left].
  - repeat split; auto with lia.
  - destruct (IH (extractNode rules (inventorySpace s) inv node)) as (Hmono & Hother & Hstack).
    destruct (extractNode_cases rules (inventorySpace s) inv node)
      as [Heq | (toAdd & Hact & Hpos & Hrate & Hroom & Heq)].
    + rewrite Heq in *. split; [done |]. split; [| done].
      intros k Hk. apply Hother. intros n Hn. apply Hk. by right.
    + assert (Hstep : forall k,
                 orZero (extractNode rules (inventorySpace s) inv node) k
                 = if decide (resourceType node = k)
                   then orZero inv k + toAdd else orZero inv k).
      { intros k. rewrite Heq. destruct (decide (resourceType node = k)) as [<- | Hne].
        - apply orZero_insert.
        - by apply orZero_insert_ne. }
      split; [| split].
      * intros k. specialize (Hmono k). rewrite Hstep in Hmono.
        destruct (decide _); lia.
      * intros k Hk. rewrite Hother.
        -- rewrite Heq. apply lookup_insert_ne. apply Hk; [by left | done].
        -- intros n Hn. apply Hk. by right.
      * intros k m Hm. destruct (Hstack k m Hm) as [Hle Hfull]. split.
        -- intros Hk. apply Hle. rewrite Hstep.
           destruct (decide (resourceType node = k)) as [<- | Hne]; [| done].
           specialize (Hroom m Hm). lia.
        -- intros Hk.
           destruct (decide (resourceType node = k)) as [<- | Hne].
           ++ specialize (Hroom m Hm). lia.
           ++ rewrite Hfull.
              ** rewrite Heq. by apply lookup_insert_ne.
              ** rewrite Hstep. destruct (decide _); [done | lia].
Qed.

(** ** The pull phase *)

(** X5: the pull phase moves items from the inventory to the buffer and
    neither creates nor loses any: for every item the buffer and the
    inventory together hold what they held, the buffer does not shrink and
    the inventory does not grow.  For a recipe with distinct input keys, an
    input whose buffer does not exceed the need and whose stock is not
    negative ends with min(needed, buffer + stock) in the buffer, so the
    buffer never exceeds the required quantity. *)
Theorem pull_moves_what_is_needed (recipe : Recipe) (buffer inv : gmap string cell) :
  NoDup (inputs recipe).*1 ->
  let pulled := pullPhase recipe buffer inv in
  (forall k, orZero pulled.1 k + orZero pulled.2 k = orZero buffer k + orZero inv k) /\
  (forall k, orZero buffer k <= orZero pulled.1 k) /\
  (forall k, k ∉ (inputs recipe).*1 ->
             pulled.1 !! k = buffer !! k /\ pulled.2 !! k = inv !! k) /\
  (forall k needed,
     (k, needed) ∈ inputs recipe ->
     orZero buffer k <= needed -> 0 <= orZero inv k ->
     orZero pulled.1 k = Z.min needed (orZero buffer k + orZero inv k)).
Proof.
  cbv zeta. unfold pullPhase.
  generalize (inputs recipe) as entries. clear recipe.
  intros entries. revert buffer inv.
  induction entries as [| [k1 n1] rest IH]; intros buffer inv Hnd; cbn [fold_left].
  - cbn [fst snd]. repeat split; auto with lia.
    intros k needed Hk. by apply elem_of_nil in Hk.
  - rewrite fmap_cons in Hnd. apply NoDup_cons in Hnd as [Hfresh Hnd].
    cbn [fst] in Hfresh.
    assert (Hstep : exists b1 i1,
               pullItem (buffer, inv) (k1, n1) = (b1, i1) /\
               (forall k, k <> k1 -> b1 !! k = buffer !! k /\ i1 !! k = inv !! k) /\
               orZero b1 k1 + orZero i1 k1 = orZero buffer k1 + orZero inv k1 /\
               orZero buffer k1 <= orZero b1 k1 /\
               (orZero buffer k1 <= n1 -> 0 <= orZero inv k1 ->
                orZero b1 k1 = Z.min n1 (orZero buffer k1 + orZero inv k1))).
    { unfold pullItem.
      destruct (0 <? n1 - orZero buffer k1) eqn:E1.
      - apply Z.ltb_lt in E1.
        destruct (0 <? Z.min (n1 - orZero buffer k1) (orZero inv k1)) eqn:E2.
        + apply Z.ltb_lt in E2. eexists _, _. split; [reflexivity |].
          rewrite !orZero_insert.
          split; [| split; [lia | split; [lia | lia]]].
          intros k Hk. by rewrite !lookup_insert_ne.
        + apply Z.ltb_ge in E2. eexists _, _. split; [reflexivity |].
          split; [done |]. split; [done |]. split; [lia | lia].
      - apply Z.ltb_ge in E1. eexists _, _. split; [reflexivity |].
        split; [done |]. split; [done |]. split; [lia | lia]. }
    destruct Hstep as (b1 & i1 & -> & Hother & Hsum & Hmono & Hexact).
    destruct (IH b1 i1 Hnd) as (IHsum & IHmono & IHother & IHexact).
    assert (Hread : forall k, k <> k1 -> orZero b1 k = orZero buffer k /\
                                         orZero i1 k = orZero inv k).
    { intros k Hk. unfold orZero. destruct (Hother k Hk) as [-> ->]. done. }
    split; [| split; [| split]].
    + intros k. rewrite IHsum. destruct (decide (k = k1)) as [-> | Hne]; [done |].
      destruct (Hread k Hne). lia.
    + intros k. specialize (IHmono k). destruct (decide (k = k1)) as [-> | Hne]; [lia |].
      destruct (Hread k Hne). lia.
    + intros k Hk. rewrite fmap_cons in Hk. apply not_elem_of_cons in Hk as [Hne Hk].
      destruct (IHother k Hk) as [-> ->]. by apply Hother.
    + intros k needed Hk Hbuf Hinv. apply elem_of_cons in Hk as [[= -> ->] | Hk].
      * destruct (IHother k1 Hfresh) as [Hb _].
        unfold orZero at 1. rewrite Hb. fold (orZero b1 k1). by apply Hexact.
      * assert (k <> k1).
        { intros ->. apply Hfresh. apply list_elem_of_fmap. by exists (k1, needed). }
        destruct (Hread k ltac:(done)) as [Hb Hi].
        rewrite <- Hb, <- Hi. apply IHexact; [done | lia | lia].
Qed.

Lemma pull_moves_what_is_needed_witness :
  orZero (pullPhase planksRecipe ∅ {[ "wood" := Num 1 ]}).1 "wood" = 1 /\
  orZero (pullPhase planksRecipe ∅ {[ "wood" := Num 1 ]}).2 "wood" = 0.
Proof.
  destruct (pull_moves_what_is_needed planksRecipe ∅ {[ "wood" := Num 1 ]})
    as (Hsum & _ & _ & Hexact).
  - apply NoDup_singleton.
  - assert (H1 : orZero (pullPhase planksRecipe ∅ {[ "wood" := Num 1 ]}).1 "wood" = 1).
    { rewrite (Hexact "wood" 2); [reflexivity | | |].
      - apply list_elem_of_singleton. reflexivity.
      - vm_compute. discriminate.
      - vm_compute. discriminate. }
    split; [exact H1 |].
    specialize (Hsum "wood"). rewrite H1 in Hsum.
    change (orZero ∅ "wood") with 0 in Hsum.
    change (orZero {[ "wood" := Num 1 ]} "wood") with 1 in Hsum. lia.
Defined.

(** ** Collision *)

(** X6: for a square of positive side and placements of positive side,
    [isColliding] answers true exactly when the square shares a floor cell
    with one of the placements. *)
Theorem isColliding_shares_a_cell (x y size : Z) (pl : list Placement) :
  0 < size ->
  Forall (fun p => 0 < p_size p) pl ->
  isColliding x y size pl = true <->
  exists p a b,
    p ∈ pl /\
    (x <= a < x + size /\ y <= b < y + size) /\
    (p_x p <= a < p_x p + p_size p /\ p_y p <= b < p_y p + p_size p).
Proof.
  intros Hs Hpl. rewrite isColliding_spec. rewrite Forall_forall in Hpl. split.
  - intros (p & Hp & Hn). specialize (Hpl p Hp).
    exists p, (Z.max x (p_x p)), (Z.max y (p_y p)).
    split; [done |]. unfold apart in Hn. lia.
  - intros (p & a & b & Hp & H). exists p. split; [done |].
    intros Ha. apply apart_no_shared_cell in Ha; auto. apply Ha. by exists a, b.
Qed.

Lemma isColliding_shares_a_cell_witness :
  isColliding 1 1 2 [mkPlacement "m1" 0 0 2 type_machine] = true /\
  isColliding 2 0 2 [mkPlacement "m1" 0 0 2 type_machine] = false.
Proof.
  split; [| reflexivity].
  apply (isColliding_shares_a_cell 1 1 2 [mkPlacement "m1" 0 0 2 type_machine]).
  - lia.
  - repeat constructor.
  - exists (mkPlacement "m1" 0 0 2 type_machine), 1, 1.
    split; [apply list_elem_of_singleton; reflexivity | simpl; lia].
Defined.

(** ** Floor expansion *)

(** What the loop returns: the chunk and the target after [k] doublings,
    where [k] is the first count at which the target exceeds one of the
    dimensions. *)
Lemma chunkLoop_doublings (fuel : nat) (w h : Z) :
  forall c t c' t' : Z,
  chunkLoop fuel w h c t = Some (c', t') ->
  exists k : nat,
    c' = c * 2 ^ Z.of_nat k /\ t' = t * 2 ^ Z.of_nat k /\
    Z.min w h < t' /\
    forall j : nat, (j < k)%nat -> t * 2 ^ Z.of_nat j <= Z.min w h.
Proof.
  induction fuel as [| fuel IH]; intros c t c' t'; cbn [chunkLoop];
    destruct ((t <=? w) && (t <=? h)) eqn:E; try done.
  - intros [= <- <-]. exists O.
    apply andb_false_iff in E. rewrite !Z.leb_gt in E.
    repeat split; [lia | lia | lia | intros; lia].
  - intros Hrun. apply IH in Hrun as (k & -> & -> & Hstop & Hrun).
    apply andb_true_iff in E as [E1%Z.leb_le E2%Z.leb_le].
    exists (S k). rewrite Nat2Z.inj_succ, Z.pow_succ_r by lia.
    repeat split; [lia | lia | lia |].
    intros [| j] Hj; [simpl; lia |].
    rewrite Nat2Z.inj_succ, Z.pow_succ_r by lia.
    specialize (Hrun j ltac:(lia)). lia.
  - intros [= <- <-]. exists O.
    apply andb_false_iff in E. rewrite !Z.leb_gt in E.
    repeat split; [lia | lia | lia | intros; lia].
Qed.

Lemma getNextExpansionChunk_shape (s : State) (rules : Rules) :
  0 < initialWidth (floorRules rules) ->
  let w := width (floorSpace s) in
  let h := height (floorSpace s) in
  let fr := floorRules rules in
  exists (e : Expansion) (k : nat),
    getNextExpansionChunk s rules = Some e /\
    chunkSize e = initialChunkSize fr * 2 ^ Z.of_nat k /\
    Z.min w h < initialWidth fr * 2 * 2 ^ Z.of_nat k /\
    (forall j : nat, (j < k)%nat -> initialWidth fr * 2 * 2 ^ Z.of_nat j <= Z.min w h) /\
    expandWidth e = (w <? initialWidth fr * 2 * 2 ^ Z.of_nat k) /\
    (newWidth e, newHeight e)
      = (if expandWidth e then (w + chunkSize e, h) else (w, h + chunkSize e)) /\
    cost e = chunkSize e * chunkSize e * costPerCell fr.
Proof.
  intros Hw. cbv zeta.
  destruct (getNextExpansionChunk_total s rules Hw) as [e He].
  unfold getNextExpansionChunk in *.
  destruct (chunkLoop _ _ _ _ _) as [[c t]|] eqn:Eloop; [| done].
  apply chunkLoop_doublings in Eloop as (k & -> & -> & Hstop & Hrun).
  injection He as <-. eexists. exists k. split; [reflexivity |]. cbn.
  repeat split; auto.
  destruct (_ <? _); reflexivity.
Qed.

(** X7: with a positive initial width the next expansion is always
    computed.  Its chunk and its target are the initial chunk size and
    twice the initial width, both doubled [k] times, where [k] is the
    first count at which the target exceeds the smaller dimension of the
    floor; the width grows by the chunk when it is below the target, the
    height otherwise, and the cost is the chunk squared times the
    per-cell cost. *)
Theorem expansion_chunk_and_target (s : State) (rules : Rules) :
  0 < initialWidth (floorRules rules) ->
  let w := width (floorSpace s) in
  let h := height (floorSpace s) in
  let fr := floorRules rules in
  exists (e : Expansion) (k : nat),
    getNextExpansionChunk s rules = Some e /\
    chunkSize e = initialChunkSize fr * 2 ^ Z.of_nat k /\
    Z.min w h < initialWidth fr * 2 * 2 ^ Z.of_nat k /\
    (forall j : nat, (j < k)%nat -> initialWidth fr * 2 * 2 ^ Z.of_nat j <= Z.min w h) /\
    expandWidth e = (w <? initialWidth fr * 2 * 2 ^ Z.of_nat k) /\
    (newWidth e, newHeight e)
      = (if expandWidth e then (w + chunkSize e, h) else (w, h + chunkSize e)) /\
    cost e = chunkSize e * chunkSize e * costPerCell fr.
Proof. exact (getNextExpansionChunk_shape s rules). Qed.

Lemma expansion_chunk_and_target_witness :
  exists e, getNextExpansionChunk floor16x8 sampleRules = Some e /\
            chunkSize e = 8 /\ (newWidth e, newHeight e) = (16, 16) /\ cost e = 640.
Proof.
  destruct (expansion_chunk_and_target floor16x8 sampleRules)
    as (e & k & He & _). { simpl. lia. }
  exists e. split; [exact He |].
  vm_compute in He. injection He as <-. repeat split.
Defined.

(** X8: the engine returns on every command but one: BUY_FLOOR_SPACE runs
    forever exactly when twice the initial width is not positive and does
    not exceed the width nor the height of the floor (the target never
    overtakes the floor). *)
Theorem engine_returns_unless_target_stuck (randomId : string) (s : State)
    (rules : Rules) (a : Action) :
  engine randomId s rules a = None <->
  a = BUY_FLOOR_SPACE /\
  initialWidth (floorRules rules) * 2 <= 0 /\
  initialWidth (floorRules rules) * 2 <= width (floorSpace s) /\
  initialWidth (floorRules rules) * 2 <= height (floorSpace s).
Proof.
  split.
  - destruct a; simpl; try done.
    unfold buyFloorSpace, deepClone.
    destruct (getNextExpansionChunk s rules) as [e|] eqn:E.
    + destruct (credits s <? cost e); done.
    + intros _. split; [done |]. by apply getNextExpansionChunk_None.
  - intros (-> & H). simpl. unfold buyFloorSpace, deepClone.
    apply getNextExpansionChunk_None in H. by rewrite H.
Qed.

Lemma doublings_of_square (c m : Z) (j k : nat) :
  0 < c -> m = c * 2 ^ Z.of_nat j ->
  m < c * 2 * 2 ^ Z.of_nat k ->
  (forall i : nat, (i < k)%nat -> c * 2 * 2 ^ Z.of_nat i <= m) ->
  k = j.
Proof.
  intros Hc -> Hstop Hrun.
  assert (Hpj : 0 < 2 ^ Z.of_nat j) by (apply Z.pow_pos_nonneg; lia).
  destruct (decide (k <= j)%nat) as [Hle | Hgt].
  - destruct (decide (k = j)) as [| Hne]; [done |]. exfalso.
    assert (Hpow : 2 ^ Z.of_nat (S k) <= 2 ^ Z.of_nat j)
      by (apply Z.pow_le_mono_r; lia).
    rewrite Nat2Z.inj_succ, Z.pow_succ_r in Hpow by lia. nia.
  - exfalso. specialize (Hrun j ltac:(lia)). nia.
Qed.

(** X9: when the initial chunk size equals the initial width [c > 0], a
    square floor of side [n = c * 2^j] expands by a chunk of [n]: first
    the width, to [2n x n], then the height, to [2n x 2n], each step at
    the price of [n * n] cells. *)
Theorem square_floor_doubles (s : State) (rules : Rules) (j : nat) :
  let c := initialWidth (floorRules rules) in
  let n := c * 2 ^ Z.of_nat j in
  0 < c ->
  initialChunkSize (floorRules rules) = c ->
  height (floorSpace s) = n ->
  (width (floorSpace s) = n \/ width (floorSpace s) = 2 * n) ->
  exists e,
    getNextExpansionChunk s rules = Some e /\
    chunkSize e = n /\
    cost e = n * n * costPerCell (floorRules rules) /\
    (width (floorSpace s) = n -> (newWidth e, newHeight e) = (2 * n, n)) /\
    (width (floorSpace s) = 2 * n -> (newWidth e, newHeight e) = (2 * n, 2 * n)).
Proof.
  cbv zeta. intros Hc Hchunk Hh Hw.
  destruct (getNextExpansionChunk_shape s rules Hc)
    as (e & k & He & Hsize & Hstop & Hrun & Hdir & Hnew & Hcost).
  assert (Hpj : 0 < 2 ^ Z.of_nat j) by (apply Z.pow_pos_nonneg; lia).
  assert (Hmin : Z.min (width (floorSpace s)) (height (floorSpace s))
                 = initialWidth (floorRules rules) * 2 ^ Z.of_nat j)
    by (destruct Hw; nia).
  rewrite Hmin in Hstop, Hrun.
  assert (k = j) as -> by exact (doublings_of_square _ _ j k Hc eq_refl Hstop Hrun).
  rewrite Hchunk in Hsize.
  exists e. split; [done |]. split; [done |]. split; [by rewrite Hcost, Hsize |].
  rewrite Hnew, Hdir, Hsize, Hh. split; intros Hw'; rewrite Hw'.
  - assert ((initialWidth (floorRules rules) * 2 ^ Z.of_nat j
             <? initialWidth (floorRules rules) * 2 * 2 ^ Z.of_nat j) = true) as ->
      by (apply Z.ltb_lt; nia).
    f_equal. lia.
  - assert ((2 * (initialWidth (floorRules rules) * 2 ^ Z.of_nat j)
             <? initialWidth (floorRules rules) * 2 * 2 ^ Z.of_nat j) = false) as ->
      by (apply Z.ltb_ge; nia).
    f_equal. lia.
Qed.

Lemma square_floor_doubles_witness :
  exists e,
    getNextExpansionChunk
      (setFloorSpace (mkFloorSpace 32 32 []) sampleState) sampleRules = Some e /\
    chunkSize e = 32 /\ (newWidth e, newHeight e) = (64, 32).
Proof.
  destruct (square_floor_doubles
              (setFloorSpace (mkFloorSpace 32 32 []) sampleState) sampleRules 2)
    as (e & He & Hsize & _ & Hfirst & _).
  - simpl. lia.
  - reflexivity.
  - reflexivity.
  - left. reflexivity.
  - exists e. split; [exact He |]. split; [exact Hsize |].
    apply Hfirst. reflexivity.
Defined.

(** ** The tick as a whole *)

Lemma setDiscovered_same (s : State) : setDiscovered (discoveredRecipes s) s = s.
Proof. by destruct s. Qed.

Lemma setMachines_same (s : State) : setMachines (machines s) s = s.
Proof. by destruct s. Qed.

Lemma allocatePower_shape (s : State) :
  exists e ms, allocatePower s = setEnergy e (setMachines ms s) /\
               e = calculateEnergy (setMachines ms s).
Proof.
  unfold allocatePower. destruct (_ <? _).
  - eexists _, _. split; reflexivity.
  - exists (calculateEnergy s), (machines s). by rewrite setMachines_same.
Qed.

Lemma machinePhase_shape (rules : Rules) (s : State) :
  exists ms inv, machinePhase rules s = setInventory inv (setMachines ms s).
Proof. unfold machinePhase. destruct (machineLoop _ _ _ _ _). by eexists _, _. Qed.

Lemma researchPhase_shape (rules : Rules) (seed : Z) (s : State) :
  exists d, (researchPhase rules seed s).1 = setDiscovered d s.
Proof.
  unfold researchPhase.
  repeat case_match; cbn [fst]; try (eexists; reflexivity);
    exists (discoveredRecipes s); by rewrite setDiscovered_same.
Qed.

Lemma tickedMachine_refl (m : Machine) : tickedMachine m m.
Proof. unfold tickedMachine. tauto. Qed.

Lemma tickedMachine_trans (m1 m2 m3 : Machine) :
  tickedMachine m1 m2 -> tickedMachine m2 m3 -> tickedMachine m1 m3.
Proof.
  unfold tickedMachine.
  intros (? & ? & ? & ? & ? & ? & ? & H12) (? & ? & ? & ? & ? & ? & ? & H23).
  repeat split; try congruence.
  intros Hb. specialize (H12 Hb). subst m2. by apply H23.
Qed.

Lemma tickedMachine_blockIfDrawing (m : Machine) : tickedMachine m (blockIfDrawing m).
Proof.
  unfold blockIfDrawing. destruct (drawsPower m) eqn:E; [| apply tickedMachine_refl].
  unfold tickedMachine. simpl. repeat split; try done.
  intros Hb. unfold drawsPower in E. rewrite Hb in E.
  rewrite bool_decide_eq_true_2 in E by done. by rewrite andb_false_r in E.
Qed.

Lemma allocatePower_machines (s : State) :
  exists k : nat,
    machines (allocatePower s)
    = take k (machines s) ++ (blockIfDrawing <$> drop k (machines s)).
Proof.
  unfold allocatePower. destruct (_ <? _).
  - cbn [machines setEnergy setMachines].
    destruct (blockLoop_walk (machines s) []
                (consumed (calculateEnergy s) - produced (calculateEnergy s)))
      as (k & _ & Heq & _).
    rewrite !app_nil_r in Heq. exists k. by rewrite Heq.
  - exists (length (machines s)). cbn [machines setEnergy].
    by rewrite take_ge, drop_ge, app_nil_r by lia.
Qed.

Lemma allocatePower_ticked (s : State) :
  Forall2 tickedMachine (machines s) (machines (allocatePower s)).
Proof.
  destruct (allocatePower_machines s) as [k ->].
  rewrite <- (take_drop k (machines s)) at 1.
  apply Forall2_app.
  - apply Forall_Forall2_diag, Forall_forall. intros. apply tickedMachine_refl.
  - apply Forall2_fmap_r, Forall_Forall2_diag, Forall_forall.
    intros. apply tickedMachine_blockIfDrawing.
Qed.

Lemma processMachine_ticked (rules : Rules) (space : Z) (unlocked : list string)
    (m : Machine) (inv : gmap string cell) :
  tickedMachine m (processMachine rules space unlocked m inv).1 /\
  drawsPower (processMachine rules space unlocked m inv).1 = drawsPower m.
Proof.
  unfold processMachine.
  destruct (enabled m) eqn:Een; cbn [negb orb];
    [| split; [apply tickedMachine_refl | done]].
  destruct (truthy (recipeId m)) eqn:Etr; cbn [negb orb];
    [| split; [apply tickedMachine_refl | done]].
  destruct (bool_decide (status m = blocked)) eqn:Ebl;
    [split; [apply tickedMachine_refl | done] |].
  apply bool_decide_eq_false in Ebl.
  assert (Hdraw : forall st b, st <> blocked ->
            drawsPower (setBuffer b (setStatus st m)) = drawsPower m).
  { intros st b Hst. unfold drawsPower. simpl. rewrite Een, Etr.
    by rewrite !bool_decide_eq_false_2 by done. }
  assert (Hticked : forall st b, tickedMachine m (setBuffer b (setStatus st m))).
  { intros st b. unfold tickedMachine. simpl. repeat split; done. }
  destruct (findRecipe _ rules) as [recipe|];
    [| split; [exact (Hticked idle (internalBuffer m))
              | exact (Hdraw idle (internalBuffer m) ltac:(done))]].
  destruct (negb (includes unlocked (rec_id recipe))).
  - split; [exact (Hticked idle (internalBuffer m))
           | exact (Hdraw idle (internalBuffer m) ltac:(done))].
  - destruct (pullPhase _ _ _) as [b1 i1]. destruct (completion _ _ _ _ _) as [b2 i2].
    cbn [fst]. split; [exact (Hticked working b2) | exact (Hdraw working b2 ltac:(done))].
Qed.

Lemma machineLoop_ticked (rules : Rules) (space : Z) (unlocked : list string)
    (ms : list Machine) (inv : gmap string cell) :
  Forall2 tickedMachine ms (machineLoop rules space unlocked ms inv).1 /\
  drawOf (machineLoop rules space unlocked ms inv).1 = drawOf ms.
Proof.
  revert inv. induction ms as [| m ms IH]; intros inv; simpl; [by split |].
  destruct (processMachine_ticked rules space unlocked m inv) as [Ht Hd].
  destruct (processMachine rules space unlocked m inv) as [m' inv'].
  destruct (IH inv') as [IHt IHd].
  destruct (machineLoop rules space unlocked ms inv') as [ms' inv''].
  cbn [fst] in *. split; [by constructor |].
  simpl. rewrite Hd, IHd.
  destruct Ht as (_ & _ & _ & _ & -> & _). done.
Qed.

Lemma machinePhase_ticked (rules : Rules) (s : State) :
  Forall2 tickedMachine (machines s) (machines (machinePhase rules s)) /\
  drawOf (machines (machinePhase rules s)) = drawOf (machines s) /\
  generators (machinePhase rules s) = generators s.
Proof.
  unfold machinePhase.
  destruct (machineLoop_ticked rules (inventorySpace s) (unlockedRecipes s)
              (machines s) (inventory s)) as [Ht Hd].
  by destruct (machineLoop _ _ _ _ _) as [ms inv].
Qed.

Lemma Forall2_tickedMachine_trans (l1 l2 l3 : list Machine) :
  Forall2 tickedMachine l1 l2 -> Forall2 tickedMachine l2 l3 ->
  Forall2 tickedMachine l1 l3.
Proof.
  intros H12. revert l3. induction H12 as [| m1 m2 l1 l2 Hm H12 IH]; intros l3 H23.
  - by inversion H23.
  - inversion H23 as [| ? m3 ? l3' Hm' H23']; subst. constructor.
    + by eapply tickedMachine_trans.
    + by apply IH.
Qed.

Lemma calculateEnergy_parts (s : State) :
  calculateEnergy s
  = mkEnergy (fold_left (fun sum g => sum + energyOutput g) (generators s) 0)
             (drawOf (machines s)).
Proof. unfold calculateEnergy. by rewrite consumed_fold. Qed.

Lemma simulateTick_unlocked (s : State) (rules : Rules) :
  unlockedRecipes (simulateTick s rules) = unlockedRecipes s.
Proof.
  rewrite simulateTick_unfold. cbv zeta.
  destruct (researchPhase_shape rules (rngSeed s) (beforeResearch s rules)) as [d ->].
  unfold beforeResearch, deepClone.
  destruct (machinePhase_shape rules (extractionPhase rules (allocatePower s)))
    as (ms & inv & ->).
  unfold extractionPhase.
  destruct (allocatePower_shape s) as (e & ms0 & -> & _). reflexivity.
Qed.

(** X10: a tick advances the tick counter by one and leaves the credits,
    the floor, the weight capacity, the generators, the extraction nodes,
    the unlocked recipes and the research toggle as they were.  It keeps
    every machine in its place with its id, recipe, enabled flag, footprint,
    draw and position, and does not touch a machine that was blocked. *)
Theorem tick_changes_only (s : State) (rules : Rules) :
  let s' := simulateTick s rules in
  tick s' = tick s + 1 /\
  credits s' = credits s /\
  floorSpace s' = floorSpace s /\
  inventorySpace s' = inventorySpace s /\
  generators s' = generators s /\
  extractionNodes s' = extractionNodes s /\
  unlockedRecipes s' = unlockedRecipes s /\
  research s' = research s /\
  Forall2 tickedMachine (machines s) (machines s').
Proof.
  cbv zeta. rewrite simulateTick_unfold. cbv zeta.
  destruct (researchPhase_shape rules (rngSeed s) (beforeResearch s rules)) as [d ->].
  unfold beforeResearch, deepClone.
  pose proof (machinePhase_ticked rules (extractionPhase rules (allocatePower s)))
    as (Hticked & _ & _).
  destruct (machinePhase_shape rules (extractionPhase rules (allocatePower s)))
    as (ms & inv & Hshape).
  rewrite Hshape in *. unfold extractionPhase in *.
  pose proof (allocatePower_ticked s) as Halloc.
  destruct (allocatePower_shape s) as (e & ms0 & Ha & _). rewrite Ha in *.
  cbn in *. repeat split; try reflexivity.
  by eapply Forall2_tickedMachine_trans.
Qed.

Lemma simulateTick_energy (s : State) (rules : Rules) :
  energy (simulateTick s rules)
  = mkEnergy (fold_left (fun sum g => sum + energyOutput g)
                        (generators (simulateTick s rules)) 0)
             (drawOf (machines (simulateTick s rules))).
Proof.
  rewrite simulateTick_unfold. cbv zeta.
  destruct (researchPhase_shape rules (rngSeed s) (beforeResearch s rules)) as [d ->].
  cbn [energy machines generators setTickSeed marketRecovery setMarketPopularity
       setDiscovered].
  unfold beforeResearch, deepClone.
  destruct (machinePhase_ticked rules (extractionPhase rules (allocatePower s)))
    as (_ & -> & ->).
  destruct (machinePhase_fields rules (extractionPhase rules (allocatePower s)))
    as (_ & -> & _).
  unfold extractionPhase. cbn [energy machines generators setInventory].
  destruct (allocatePower_shape s) as (e & ms0 & -> & ->).
  cbn [energy machines generators setEnergy setMachines].
  apply calculateEnergy_parts.
Qed.

(** X11: the energy snapshot a tick leaves is the energy of the state it
    returns: produced is the summed output of its generators and consumed
    the summed draw of its machines that are enabled, assigned and not
    blocked. *)
Theorem tick_snapshot_is_current (s : State) (rules : Rules) :
  energy (simulateTick s rules) = calculateEnergy (simulateTick s rules).
Proof.
  rewrite (calculateEnergy_parts (simulateTick s rules)).
  apply simulateTick_energy.
Qed.

(** X12: a tick draws from the generator only in its research phase.  With
    research off, or too little spare energy, the seed is left exactly as
    it was; when research runs, one value is drawn, and a second one only
    if some recipe is undiscovered and the first draw is below the
    discovery chance. *)
Theorem tick_draws_at_most_twice (s : State) (rules : Rules) :
  let spare := produced (energy (allocatePower s))
               - consumed (energy (allocatePower s)) in
  let und := undiscoveredRecipes rules (discoveredRecipes s) in
  rngSeed (simulateTick s rules) =
    if r_active (research s) && (energyCost (researchRules rules) <=? spare) then
      if (0 <? length und)%nat
         && Qltb (next (rngSeed s)).1 (discoveryChance (researchRules rules))
      then seedAfter 2 (rngSeed s)
      else seedAfter 1 (rngSeed s)
    else rngSeed s.
Proof.
  cbv zeta. rewrite simulateTick_unfold. cbv zeta. cbn [rngSeed setTickSeed seedAfter].
  destruct (beforeResearch_fields s rules) as (_ & Hen & _ & Hdisc & Hres).
  unfold researchPhase. rewrite Hen, Hdisc, Hres.
  destruct (r_active (research s) && _); [| done].
  destruct (next (rngSeed s)) as [roll seed1]. cbn [fst snd].
  destruct ((0 <? length _)%nat && Qltb roll _); [| done].
  destruct (next seed1) as [draw seed2]. cbn [snd].
  by destruct (selectLoop _ _).
Qed.

Lemma simulateTick_popularity (s : State) (rules : Rules) :
  marketPopularity (simulateTick s rules)
  = (fun p => Qmin (maxPopularity (market rules)) (p + recoveryRate (market rules))%Q)
      <$> marketPopularity s.
Proof.
  rewrite simulateTick_unfold. cbv zeta.
  cbn [marketPopularity setTickSeed marketRecovery setMarketPopularity].
  destruct (researchPhase_shape rules (rngSeed s) (beforeResearch s rules)) as [d ->].
  unfold beforeResearch, deepClone.
  destruct (machinePhase_shape rules (extractionPhase rules (allocatePower s)))
    as (ms & inv & ->).
  unfold extractionPhase.
  destruct (allocatePower_shape s) as (e & ms0 & -> & _). reflexivity.
Qed.


(** ** Invariants of the engine *)

Lemma undiscovered_not_in (rules : Rules) (discovered : list string) (r : Recipe) :
  r ∈ undiscoveredRecipes rules discovered -> rec_id r ∉ discovered.
Proof.
  unfold undiscoveredRecipes. intros H.
  apply list_elem_of_filter in H as [H _].
  apply Is_true_true in H. apply negb_true_iff in H. by apply includes_false.
Qed.

Lemma simulateTick_discovered (s : State) (rules : Rules) :
  discoveredRecipes (simulateTick s rules) = discoveredRecipes s \/
  exists id, (id ∉ discoveredRecipes s) /\
             discoveredRecipes (simulateTick s rules) = discoveredRecipes s ++ [id].
Proof.
  rewrite simulateTick_unfold. cbv zeta.
  cbn [discoveredRecipes setTickSeed marketRecovery setMarketPopularity].
  rewrite researchPhase_discovered.
  destruct (beforeResearch_fields s rules) as (_ & _ & _ & -> & _).
  destruct (_ && _); [| by left].
  destruct (selectLoop _ _) as [r|] eqn:E; [| by left].
  right. exists (rec_id r). split; [| done].
  apply selectLoop_selected, selected_in in E. by eapply undiscovered_not_in.
Qed.

Ltac frame_cases :=
  repeat (simpl in *; simplify_eq; try done; case_match).

(** X14: every command and every tick, accepted or not, keeps the
    discovered and the unlocked recipes free of duplicates and the
    unlocked recipes among the discovered ones. *)
Theorem recipes_stay_sets (randomId : string) (s : State) (rules : Rules)
    (a : Action) (res : Result) :
  recipesOk s ->
  engine randomId s rules a = Some res ->
  recipesOk (state res).
Proof.
  intros (Hd & Hu & Hsub) Hrun. unfold recipesOk.
  destruct a; simpl in Hrun.
  all: try (injection Hrun as <-).
  - cbn [state].
    rewrite simulateTick_unlocked.
    destruct (simulateTick_discovered s rules) as [-> | (id & Hid & ->)]; [done |].
    split; [| split; [done |]].
    + apply NoDup_app. split; [done |]. split; [| apply NoDup_singleton].
      intros x Hx Hx'. apply list_elem_of_singleton in Hx'. by subst.
    + intros x Hx. apply elem_of_app. left. by apply Hsub.
  - unfold addMachine, deepClone in *. frame_cases.
  - unfold removeMachine, deepClone in *. frame_cases.
  - unfold assignRecipe, deepClone in *. frame_cases.
  - unfold addGenerator, deepClone in *. frame_cases.
  - unfold removeGenerator, deepClone in *. frame_cases.
  - unfold buyFloorSpace, deepClone in *. frame_cases.
  - unfold sellGoods, deepClone in *. frame_cases.
  - done.
  - unfold unlockRecipe, deepClone in *.
    destruct (includes (discoveredRecipes s) _) eqn:Ed; cbn [negb]; [| done].
    destruct (includes (unlockedRecipes s) _) eqn:Eu; [done |].
    apply includes_spec in Ed. apply includes_false in Eu. cbn.
    split; [done |]. split.
    + apply NoDup_app. split; [done |]. split; [| apply NoDup_singleton].
      intros x Hx Hx'. apply list_elem_of_singleton in Hx'. by subst.
    + intros x Hx. apply elem_of_app in Hx as [Hx | Hx]; [by apply Hsub |].
      apply list_elem_of_singleton in Hx. by subst.
  - unfold unblockMachine, deepClone in *. frame_cases.
  - unfold toggleMachine, deepClone in *. frame_cases.
  - unfold buyInventorySpace, deepClone in *. frame_cases.
  - done.
Qed.

Lemma recipes_stay_sets_witness :
  recipesOk (simulateTick (researchState 7) sampleRules) /\
  discoveredRecipes (simulateTick (researchState 7) sampleRules) = ["planks"; "charcoal"].
Proof.
  split; [| reflexivity].
  apply (recipes_stay_sets "id" (researchState 7) sampleRules SIMULATE
           (mkResult (simulateTick (researchState 7) sampleRules) None)).
  - split; [apply NoDup_singleton | split; [apply NoDup_singleton | done]].
  - reflexivity.
Defined.

(** X15: no command draws from the generator or advances time: whatever
    is dispatched other than a tick, accepted or rejected, the tick
    counter and the persisted seed stay as they were. *)
Theorem commands_keep_tick_and_seed (randomId : string) (s : State) (rules : Rules)
    (a : Action) (res : Result) :
  a <> SIMULATE ->
  engine randomId s rules a = Some res ->
  tick (state res) = tick s /\ rngSeed (state res) = rngSeed s.
Proof.
  intros Ha Hrun. destruct a; simpl in Hrun; try congruence.
  all: try (injection Hrun as <-); try done.
  - unfold addMachine, deepClone in *. split; frame_cases.
  - unfold removeMachine, deepClone in *. split; frame_cases.
  - unfold assignRecipe, deepClone in *. split; frame_cases.
  - unfold addGenerator, deepClone in *. split; frame_cases.
  - unfold removeGenerator, deepClone in *. split; frame_cases.
  - unfold buyFloorSpace, deepClone in *. split; frame_cases.
  - unfold sellGoods, deepClone in *. split; frame_cases.
  - unfold unlockRecipe, deepClone in *. split; frame_cases.
  - unfold unblockMachine, deepClone in *. split; frame_cases.
  - unfold toggleMachine, deepClone in *. split; frame_cases.
  - unfold buyInventorySpace, deepClone in *. split; frame_cases.
Qed.

Lemma commands_keep_tick_and_seed_witness :
  exists res,
    engine "id" sampleState sampleRules (SELL_GOODS "wood" 5) = Some res /\
    tick (state res) = 0 /\ rngSeed (state res) = 12345.
Proof.
  eexists. split; [reflexivity |].
  apply (commands_keep_tick_and_seed "id" sampleState sampleRules (SELL_GOODS "wood" 5)).
  - discriminate.
  - reflexivity.
Defined.

Lemma popularityOr_bounded (rules : Rules) (s : State) (k : string) :
  marketOk rules -> popularityOk rules s ->
  (popularityOr (maxPopularity (market rules)) (marketPopularity s) k
   <= maxPopularity (market rules))%Q.
Proof.
  intros _ Hok. unfold popularityOr.
  destruct (marketPopularity s !! k) as [p|] eqn:E; [| lra].
  destruct (Qeq_bool p 0); [lra |]. by destruct (Hok k p E).
Qed.

(** X16: with market constants in order (minimum <= maximum, decay and
    recovery not negative), multipliers that all lie between the minimum
    and the maximum stay there through every tick and every command, a
    sale being of a quantity that is not negative. *)
Theorem multipliers_stay_in_bounds (randomId : string) (s : State) (rules : Rules)
    (a : Action) (res : Result) :
  marketOk rules ->
  popularityOk rules s ->
  sellsNonNegative a ->
  engine randomId s rules a = Some res ->
  popularityOk rules (state res).
Proof.
  intros Hm Hok Hq Hrun.
  pose proof Hm as (Hminmax & Hdecay & Hrec).
  destruct a; simpl in Hrun.
  all: try (injection Hrun as <-).
  - intros k p Hk. cbn [state] in Hk.
    rewrite simulateTick_popularity, lookup_fmap in Hk.
    destruct (marketPopularity s !! k) as [p0|] eqn:E; [| done].
    injection Hk as <-. destruct (Hok k p0 E) as [Hlo Hhi]. split.
    + apply Q.min_glb; lra.
    + apply Q.le_min_l.
  - unfold addMachine, deepClone in *. frame_cases.
  - unfold removeMachine, deepClone in *. frame_cases.
  - unfold assignRecipe, deepClone in *. frame_cases.
  - unfold addGenerator, deepClone in *. frame_cases.
  - unfold removeGenerator, deepClone in *. frame_cases.
  - unfold buyFloorSpace, deepClone in *. frame_cases.
  - unfold sellGoods, deepClone in *. simpl in Hq.
    destruct (_ <? _); [done |]. destruct (findMaterial _ _); [| done].
    intros k p Hk. cbn in Hk.
    destruct (decide (itemId = k)) as [-> | Hne].
    + rewrite lookup_insert_eq in Hk. injection Hk as <-.
      pose proof (popularityOr_bounded rules s k Hm Hok) as Hstart.
      assert (0 <= inject_Z quantity)%Q
        by (change 0%Q with (inject_Z 0); by rewrite <- Zle_Qle).
      split; [apply Q.le_max_l |].
      apply Q.max_lub; [done |]. nra.
    + rewrite lookup_insert_ne in Hk by done. exact (Hok k p Hk).
  - done.
  - unfold unlockRecipe, deepClone in *. frame_cases.
  - unfold unblockMachine, deepClone in *. frame_cases.
  - unfold toggleMachine, deepClone in *. frame_cases.
  - unfold buyInventorySpace, deepClone in *. frame_cases.
  - done.
Qed.

Lemma multipliers_stay_in_bounds_witness :
  exists res,
    engine "id" sampleState sampleRules (SELL_GOODS "wood" 5) = Some res /\
    popularityOk sampleRules (state res).
Proof.
  eexists. split; [reflexivity |].
  apply (multipliers_stay_in_bounds "id" sampleState sampleRules (SELL_GOODS "wood" 5)).
  - repeat split; vm_compute; discriminate.
  - intros k p Hk.
    change (marketPopularity sampleState) with ({[ "wood" := 1%Q ]} : gmap string Q) in Hk.
    apply lookup_singleton_Some in Hk as [<- <-]. split; vm_compute; discriminate.
  - simpl. lia.
  - reflexivity.
Defined.

(** ** Finding by id *)

Lemma findIndex_None {A} (f : A -> bool) (l : list A) :
  findIndex f l = None <-> forall a, a ∈ l -> f a = false.
Proof.
  induction l as [| b l IH]; simpl.
  - split; [intros _ a Ha; by apply elem_of_nil in Ha | done].
  - destruct (f b) eqn:E.
    + split; [done |]. intros H. specialize (H b ltac:(left)). congruence.
    + rewrite fmap_None, IH. split.
      * intros H a Ha. apply elem_of_cons in Ha as [-> | Ha]; [done | by apply H].
      * intros H a Ha. apply H. by right.
Qed.

(** [findIndex] returns the first element that satisfies the test. *)
Lemma findIndex_Some {A} (f : A -> bool) (l : list A) (i : nat) (a : A) :
  findIndex f l = Some (i, a) <->
  l !! i = Some a /\ f a = true /\
  forall (j : nat) (b : A), (j < i)%nat -> l !! j = Some b -> f b = false.
Proof.
  revert i. induction l as [| b l IH]; intros i; simpl.
  - split; [done | intros (H & _); by destruct i].
  - destruct (f b) eqn:E.
    + split.
      * intros [= <- <-]. repeat split; [done |]. intros j b' Hj. lia.
      * intros (Hi & Ha & Hfirst). destruct i as [| i]; [simpl in Hi; congruence |].
        specialize (Hfirst O b ltac:(lia) eq_refl). congruence.
    + rewrite fmap_Some. split.
      * intros ([i' a'] & Hfind & [= -> ->]). cbn [fst snd].
        apply IH in Hfind as (Hi & Ha & Hfirst).
        repeat split; [done | done |].
        intros [| j] b' Hj Hb'; simpl in Hb'; [congruence |].
        apply (Hfirst j); [lia | done].
      * intros (Hi & Ha & Hfirst). destruct i as [| i]; [simpl in Hi; congruence |].
        simpl in Hi. exists (i, a). split; [| done].
        apply IH. repeat split; [done | done |].
        intros j b' Hj Hb'. apply (Hfirst (S j)); [lia | done].
Qed.

Lemma orZero_returnBuffer (buffer inv : gmap string cell) (k : string) :
  orZero (returnBuffer buffer inv) k = orZero inv k + orZero buffer k.
Proof.
  unfold orZero, returnBuffer. rewrite lookup_merge.
  destruct (inv !! k) as [c|], (buffer !! k) as [q|]; simpl; lia.
Qed.

Lemma returnBuffer_empty (inv : gmap string cell) : returnBuffer ∅ inv = inv.
Proof.
  apply map_eq. intros k. unfold returnBuffer. rewrite lookup_merge, lookup_empty.
  by destruct (inv !! k).
Qed.

(** ** Building and removing *)

Lemma orZero_debit_one (inv : gmap string cell) (k : string) :
  1 <= orZero inv k -> orZero (debit inv k 1) k = orZero inv k - 1.
Proof.
  intros H. destruct (orZero_pos_present inv k ltac:(lia)) as (c & Hc & Heq).
  rewrite (orZero_debit_present _ _ _ _ Hc). lia.
Qed.

Lemma addMachine_accepted (randomId : string) (s : State) (rules : Rules) (x y : Z) :
  error (addMachine randomId s rules (Some x) (Some y)) = None ->
  valid (canPlaceAt s x y (getStructureSize (baseSpace (machineRules rules)))) = true /\
  1 <= orZero (inventory s) (mr_itemId (machineRules rules)).
Proof.
  unfold addMachine, deepClone, generateId.
  destruct (valid (canPlaceAt s x y _)) eqn:Ev; cbn [negb].
  - destruct (orZero (inventory s) _ <? 1) eqn:Ei; cbn [error]; [done |].
    apply Z.ltb_ge in Ei. done.
  - cbn [error]. intros Herr.
    unfold canPlaceAt in *. repeat case_match; simpl in *; done.
Qed.

Lemma getStructureSize_square (side : Z) :
  0 <= side -> getStructureSize (side * side) = side.
Proof. intros H. unfold getStructureSize. by apply Z.sqrt_square. Qed.

(** X17: for a machine footprint that is a perfect square, of side
    [side], ADD_MACHINE at a given position is accepted exactly when
    [canPlaceAt] accepts the square of that side there and the inventory
    holds at least one of the machine item.  It then takes exactly one of
    that item and no other, appends an enabled idle machine without recipe
    and with an empty buffer, appends its placement, of that side, and
    leaves the credits, the generators and the energy snapshot as they
    were. *)
Theorem build_machine_outcome (randomId : string) (s : State) (rules : Rules)
    (x y side : Z) :
  0 <= side ->
  baseSpace (machineRules rules) = side * side ->
  let item := mr_itemId (machineRules rules) in
  let res := addMachine randomId s rules (Some x) (Some y) in
  (error res = None <->
   valid (canPlaceAt s x y side) = true /\ 1 <= orZero (inventory s) item) /\
  (error res = None ->
   machines (state res)
     = machines s ++ [mkMachine randomId None ∅ idle true
                                (baseSpace (machineRules rules))
                                (baseEnergy (machineRules rules)) x y] /\
   floorSpace (state res)
     = mkFloorSpace (width (floorSpace s)) (height (floorSpace s))
         (placements (floorSpace s) ++ [mkPlacement randomId x y side type_machine]) /\
   orZero (inventory (state res)) item = orZero (inventory s) item - 1 /\
   (forall k, k <> item -> inventory (state res) !! k = inventory s !! k) /\
   credits (state res) = credits s /\
   generators (state res) = generators s /\
   energy (state res) = energy s).
Proof.
  intros Hside Hsquare. cbv zeta. unfold addMachine, deepClone, generateId.
  rewrite Hsquare, (getStructureSize_square side Hside), <- Hsquare.
  destruct (valid (canPlaceAt s x y side)) eqn:Ev; cbn [negb].
  - destruct (orZero (inventory s) _ <? 1) eqn:Ei; cbn [error state].
    + apply Z.ltb_lt in Ei. split; [split; [done | lia] | done].
    + apply Z.ltb_ge in Ei. split; [split; [done |]; done |].
      intros _. cbn. repeat split; try done.
      * by apply orZero_debit_one.
      * intros k Hk. by apply debit_other.
  - cbn [error state]. split; [| intros Herr].
    + split; [| intros [? _]; done]. intros Herr.
      unfold canPlaceAt in *. repeat case_match; simpl in *; done.
    + unfold canPlaceAt in *. repeat case_match; simpl in *; done.
Qed.

Lemma build_machine_outcome_witness :
  let res := addMachine "m1" readyToBuild sampleRules (Some 6) (Some 6) in
  error res = None /\
  placements (floorSpace (state res)) = [mkPlacement "m1" 6 6 2 type_machine] /\
  orZero (inventory (state res)) "production_machine" = 0.
Proof.
  cbv zeta.
  destruct (build_machine_outcome "m1" readyToBuild sampleRules 6 6 2) as [Hiff Hok].
  - lia.
  - reflexivity.
  - assert (Herr : error (addMachine "m1" readyToBuild sampleRules (Some 6) (Some 6))
                   = None)
      by (apply Hiff; split; [reflexivity | vm_compute; discriminate]).
    destruct (Hok Herr) as (_ & Hfloor & Hitem & _).
    split; [exact Herr |]. split; [by rewrite Hfloor |].
    change "production_machine" with (mr_itemId (machineRules sampleRules)).
    rewrite Hitem. reflexivity.
Defined.

Lemma produced_fold (gs : list Generator) (a : Z) :
  fold_left (fun sum g => sum + energyOutput g) gs a
  = a + fold_left (fun sum g => sum + energyOutput g) gs 0.
Proof.
  revert a. induction gs as [| g gs IH]; intros a; simpl; [lia |].
  rewrite IH, (IH (0 + energyOutput g)). lia.
Qed.

(** X18: ADD_GENERATOR of a type that is not in the rules is rejected.
    For a type of the rules whose footprint is a perfect square, of side
    [side], it is accepted at a given position exactly when [canPlaceAt]
    accepts the square of that side there and the inventory holds at least
    one of the type's item.  It then takes one of that item, appends the
    generator and its placement, of that side, and recomputes the energy
    snapshot: produced rises by the output of the type, consumed is the
    draw of the machines. *)
Theorem build_generator_outcome (randomId : string) (s : State) (rules : Rules)
    (generatorType : string) (x y : Z) :
  let res := addGenerator randomId s rules generatorType (Some x) (Some y) in
  (findGeneratorType generatorType rules = None ->
   error res = Some "Generator type not found") /\
  (forall genConfig side,
     findGeneratorType generatorType rules = Some genConfig ->
     0 <= side ->
     spaceCost genConfig = side * side ->
     (error res = None <->
      valid (canPlaceAt s x y side) = true /\
      1 <= orZero (inventory s) (gt_itemId genConfig)) /\
     (error res = None ->
      generators (state res)
        = generators s ++ [mkGenerator randomId generatorType (gt_energyOutput genConfig)
                                       (spaceCost genConfig) x y] /\
      placements (floorSpace (state res))
        = placements (floorSpace s)
          ++ [mkPlacement randomId x y side type_generator] /\
      orZero (inventory (state res)) (gt_itemId genConfig)
        = orZero (inventory s) (gt_itemId genConfig) - 1 /\
      machines (state res) = machines s /\
      produced (energy (state res))
        = produced (calculateEnergy s) + gt_energyOutput genConfig /\
      consumed (energy (state res)) = consumed (calculateEnergy s))).
Proof.
  cbv zeta. unfold addGenerator, deepClone, generateId.
  destruct (findGeneratorType generatorType rules) as [cfg|] eqn:Ecfg.
  - split; [done |]. intros c side [= <-] Hside Hsquare.
    rewrite Hsquare, (getStructureSize_square side Hside), <- Hsquare.
    destruct (valid (canPlaceAt s x y side)) eqn:Ev; cbn [negb].
    + destruct (orZero (inventory s) _ <? 1) eqn:Ei; cbn [error state].
      * apply Z.ltb_lt in Ei. split; [split; [done | lia] | done].
      * apply Z.ltb_ge in Ei. split; [done |].
        intros _. cbn. repeat split; try done.
        -- by apply orZero_debit_one.
        -- rewrite fold_left_app. simpl. lia.
    + assert (Hsome : place_error (canPlaceAt s x y side) <> None).
      { unfold canPlaceAt in *. repeat case_match; simpl in *; done. }
      cbn [error state]. split; [| done].
      split; [done | intros [? _]; done].
  - cbn [error state]. split; [done |]. intros c side ?. done.
Qed.

(** X19: REMOVE_MACHINE is rejected exactly when no machine has the id.
    Otherwise it removes the first machine with that id and the first
    placement with that id, and hands every buffered item back: each
    inventory slot ends with what it held plus what the buffer held.  The
    credits, the capacity and the energy snapshot are left as they were. *)
Theorem remove_machine_outcome (s : State) (rules : Rules) (machineId : string) :
  let res := removeMachine s rules machineId in
  (error res <> None <-> forall m, m ∈ machines s -> m_id m <> machineId) /\
  (error res = None ->
   exists (i : nat) (m : Machine),
     machines s !! i = Some m /\ m_id m = machineId /\
     (forall j m', (j < i)%nat -> machines s !! j = Some m' -> m_id m' <> machineId) /\
     machines (state res) = delete i (machines s) /\
     floorSpace (state res) = removePlacement machineId (floorSpace s) /\
     (forall k, orZero (inventory (state res)) k
                = orZero (inventory s) k + orZero (internalBuffer m) k) /\
     credits (state res) = credits s /\
     inventorySpace (state res) = inventorySpace s /\
     energy (state res) = energy s).
Proof.
  cbv zeta. unfold removeMachine, deepClone.
  destruct (findIndex _ (machines s)) as [[i m]|] eqn:E.
  - cbn [error state]. apply findIndex_Some in E as (Hi & Hid & Hfirst).
    apply String.eqb_eq in Hid. split.
    + split; [done |]. intros Hnone. exfalso. apply (Hnone m); [| done].
      apply list_elem_of_lookup. by exists i.
    + intros _. exists i, m. cbn. repeat split; try done.
      * intros j m' Hj Hm'. apply String.eqb_neq. by apply (Hfirst j).
      * intros k. apply orZero_returnBuffer.
  - cbn [error state]. split; [| done]. split; [| done].
    intros _ m Hm. apply String.eqb_neq.
    by apply (proj1 (findIndex_None _ _) E).
Qed.

Lemma findIndex_snoc_fresh {A} (f : A -> bool) (l : list A) (a : A) :
  (forall b, b ∈ l -> f b = false) -> f a = true ->
  findIndex f (l ++ [a]) = Some (length l, a).
Proof.
  intros Hl Ha. apply findIndex_Some. split; [| split; [done |]].
  - by rewrite lookup_app_r, Nat.sub_diag by lia.
  - intros j b Hj Hb. rewrite lookup_app_l in Hb by done.
    apply Hl. apply list_elem_of_lookup. by exists j.
Qed.

Lemma delete_snoc {A} (l : list A) (a : A) : delete (length l) (l ++ [a]) = l.
Proof. induction l as [| b l IH]; simpl; [done | by rewrite IH]. Qed.

(** X20: removing a machine right after it was built, under an id that no
    other machine or placement carries, gives back the machines and the
    floor of before; the item spent on the build is not returned. *)
Theorem build_then_remove (randomId : string) (s : State) (rules : Rules) (x y : Z) :
  (forall m, m ∈ machines s -> m_id m <> randomId) ->
  (forall p, p ∈ placements (floorSpace s) -> p_id p <> randomId) ->
  error (addMachine randomId s rules (Some x) (Some y)) = None ->
  let built := state (addMachine randomId s rules (Some x) (Some y)) in
  let res := removeMachine built rules randomId in
  error res = None /\
  state res = setInventory (debit (inventory s) (mr_itemId (machineRules rules)) 1) s.
Proof.
  intros Hms Hps Hok. cbv zeta.
  apply addMachine_accepted in Hok as [Hvalid Hitem].
  unfold addMachine, deepClone, generateId. rewrite Hvalid. cbn [negb].
  assert ((orZero (inventory s) (mr_itemId (machineRules rules)) <? 1) = false) as ->
    by (apply Z.ltb_ge; lia).
  cbn [state]. unfold removeMachine, deepClone. cbn [machines setFloorSpace setMachines].
  rewrite findIndex_snoc_fresh.
  - cbn [error state]. split; [done |].
    unfold removePlacement.
    cbn [floorSpace placements width height inventory machines internalBuffer
         setFloorSpace setInventory setMachines].
    rewrite findIndex_snoc_fresh.
    + rewrite !delete_snoc, returnBuffer_empty. by destruct s as [? ? ? []].
    + intros p Hp. apply String.eqb_neq. by apply Hps.
    + apply String.eqb_refl.
  - intros m Hm. apply String.eqb_neq. by apply Hms.
  - apply String.eqb_refl.
Qed.

Lemma build_then_remove_witness :
  state (removeMachine
           (state (addMachine "m1" readyToBuild sampleRules (Some 0) (Some 0)))
           sampleRules "m1")
  = setInventory ∅ readyToBuild.
Proof.
  destruct (build_then_remove "m1" readyToBuild sampleRules 0 0) as [_ H].
  - intros m Hm. by apply elem_of_nil in Hm.
  - intros p Hp. by apply elem_of_nil in Hp.
  - reflexivity.
  - rewrite H. reflexivity.
Defined.

(** ** Recipes and machines *)

(** X21: ASSIGN_RECIPE is accepted exactly when some machine has the id
    and the recipe is either none or a recipe of the rules that is
    unlocked.  It then acts on the first machine with that id: the buffer
    goes back to the inventory slot by slot, the machine gets the recipe
    and an empty buffer, and its status becomes working for a recipe and
    idle for none; the other machines, the floor and the energy snapshot
    stay as they were. *)
Theorem assign_recipe_outcome (s : State) (rules : Rules) (machineId : string)
    (newRecipe : option string) :
  let res := assignRecipe s rules machineId newRecipe in
  (error res = None <->
   (exists m, m ∈ machines s /\ m_id m = machineId) /\
   (forall rid, newRecipe = Some rid ->
                is_Some (findRecipe rid rules) /\ rid ∈ unlockedRecipes s)) /\
  (error res = None ->
   exists (i : nat) (m : Machine),
     machines s !! i = Some m /\ m_id m = machineId /\
     (forall j m', (j < i)%nat -> machines s !! j = Some m' -> m_id m' <> machineId) /\
     machines (state res)
       = <[i := mkMachine (m_id m) newRecipe ∅
                          (if truthy newRecipe then working else idle) (enabled m)
                          (m_spaceUsed m) (energyConsumption m) (m_x m) (m_y m)]>
           (machines s) /\
     (forall k, orZero (inventory (state res)) k
                = orZero (inventory s) k + orZero (internalBuffer m) k) /\
     floorSpace (state res) = floorSpace s /\
     energy (state res) = energy s).
Proof.
  cbv zeta. unfold assignRecipe, deepClone.
  destruct (findIndex _ (machines s)) as [[i m]|] eqn:E.
  - apply findIndex_Some in E as (Hi & Hid & Hfirst). apply String.eqb_eq in Hid.
    assert (Hex : exists m0, m0 ∈ machines s /\ m_id m0 = machineId).
    { exists m. split; [| done]. apply list_elem_of_lookup. by exists i. }
    assert (Hdone : forall st,
              st = setMachines
                     (<[i := setStatus (if truthy newRecipe then working else idle)
                                       (setBuffer ∅ (setRecipe newRecipe m))]> (machines s))
                     (setInventory (returnBuffer (internalBuffer m) (inventory s)) s) ->
              exists (i0 : nat) (m0 : Machine),
                machines s !! i0 = Some m0 /\ m_id m0 = machineId /\
                (forall j m', (j < i0)%nat -> machines s !! j = Some m' ->
                              m_id m' <> machineId) /\
                machines st
                  = <[i0 := mkMachine (m_id m0) newRecipe ∅
                                      (if truthy newRecipe then working else idle)
                                      (enabled m0) (m_spaceUsed m0)
                                      (energyConsumption m0) (m_x m0) (m_y m0)]>
                      (machines s) /\
                (forall k, orZero (inventory st) k
                           = orZero (inventory s) k + orZero (internalBuffer m0) k) /\
                floorSpace st = floorSpace s /\ energy st = energy s).
    { intros st ->. exists i, m. cbn. repeat split; try done.
      - intros j m' Hj Hm'. apply String.eqb_neq. by apply (Hfirst j).
      - intros k. apply orZero_returnBuffer. }
    destruct newRecipe as [rid|].
    + destruct (findRecipe rid rules) as [r|] eqn:Er.
      * destruct (includes (unlockedRecipes s) rid) eqn:Eu; cbn [negb error state].
        -- apply includes_spec in Eu. split.
           ++ split; [| done]. intros _. split; [done |].
              intros ? [= <-]. by rewrite Er.
           ++ intros _. by apply Hdone.
        -- apply includes_false in Eu. split; [| done].
           split; [done |]. intros (_ & H). by destruct (H rid eq_refl).
      * cbn [error state]. split; [| done].
        split; [done |]. intros (_ & H). destruct (H rid eq_refl) as [[r Hr] _]. congruence.
    + cbn [error state]. split.
      * split; [| done]. intros _. split; [done | done].
      * intros _. by apply Hdone.
  - cbn [error state]. split; [| done]. split; [done |].
    intros ((m & Hm & Hid) & _).
    pose proof (proj1 (findIndex_None _ _) E m Hm) as Hne.
    apply String.eqb_neq in Hne. done.
Qed.

Lemma findIndex_insert_same {A} (f : A -> bool) (l : list A) (i : nat) (a a' : A) :
  findIndex f l = Some (i, a) -> f a' = true ->
  findIndex f (<[i := a']> l) = Some (i, a').
Proof.
  intros Hfind Ha'. apply findIndex_Some in Hfind as (Hi & Ha & Hfirst).
  apply findIndex_Some. split; [| split; [done |]].
  - apply list_lookup_insert_eq. by eapply lookup_lt_Some.
  - intros j b Hj Hb. rewrite list_lookup_insert_ne in Hb by lia. by apply (Hfirst j).
Qed.

Lemma toggleMachine_eq (s : State) (rules : Rules) (machineId : string) :
  toggleMachine s rules machineId =
    match findIndex (fun m => String.eqb (m_id m) machineId) (machines s) with
    | None => mkResult s (Some "Machine not found")
    | Some (i, m) =>
        let st := setMachines (<[i := setEnabled (negb (enabled m)) m]> (machines s)) s in
        mkResult (setEnergy (calculateEnergy st) st) None
    end.
Proof. unfold toggleMachine, deepClone. by destruct (findIndex _ _) as [[i m]|]. Qed.

(** X22: TOGGLE_MACHINE is rejected exactly when no machine has the id;
    it flips the enabled flag of the first machine with that id, and
    toggling the same id twice gives back the state of before, but for the
    energy snapshot, which is the recomputed one. *)
Theorem toggle_machine_twice (s : State) (rules : Rules) (machineId : string) :
  let once := toggleMachine s rules machineId in
  let twice := toggleMachine (state once) rules machineId in
  (error once <> None <-> forall m, m ∈ machines s -> m_id m <> machineId) /\
  (error once = None ->
   (exists (i : nat) (m : Machine),
      machines s !! i = Some m /\ m_id m = machineId /\
      machines (state once) = <[i := setEnabled (negb (enabled m)) m]> (machines s) /\
      energy (state once) = calculateEnergy (state once)) /\
   error twice = None /\
   state twice = setEnergy (calculateEnergy s) s).
Proof.
  cbv zeta. rewrite !(toggleMachine_eq s).
  destruct (findIndex _ (machines s)) as [[i m]|] eqn:E.
  - cbv zeta. cbn [error state]. pose proof E as E'.
    apply findIndex_Some in E' as (Hi & Hid & Hfirst).
    split.
    + split; [done |]. intros Hnone. exfalso.
      apply String.eqb_eq in Hid. apply (Hnone m); [| done].
      apply list_elem_of_lookup. by exists i.
    + intros _. split.
      * exists i, m. apply String.eqb_eq in Hid.
        split; [done |]. split; [done |]. split; reflexivity.
      * rewrite toggleMachine_eq. cbn [machines setEnergy setMachines].
        rewrite (findIndex_insert_same _ _ _ _ (setEnabled (negb (enabled m)) m) E)
          by exact Hid.
        cbv zeta. cbn [error state]. split; [done |].
        cbn [machines setEnergy setMachines].
        rewrite list_insert_insert_eq.
        assert (Hback : setEnabled (negb (enabled (setEnabled (negb (enabled m)) m)))
                                   (setEnabled (negb (enabled m)) m) = m).
        { destruct m. unfold setEnabled. simpl. by rewrite negb_involutive. }
        rewrite Hback, list_insert_id by done.
        destruct s. reflexivity.
  - cbn [error state]. split; [| done]. split; [| done].
    intros _ m Hm. apply String.eqb_neq. by apply (proj1 (findIndex_None _ _) E).
Qed.

Lemma allocatePower_walk (s : State) :
  exists k : nat,
    machines (allocatePower s)
    = take k (machines s) ++ (blockIfDrawing <$> drop k (machines s)) /\
    (produced (calculateEnergy s) < consumed (calculateEnergy s) ->
     k = O \/ deficitAfter s k <= 0).
Proof.
  unfold allocatePower. destruct (_ <? _) eqn:E.
  - cbn [machines setEnergy setMachines].
    destruct (blockLoop_walk (machines s) []
                (consumed (calculateEnergy s) - produced (calculateEnergy s)))
      as (k & _ & Heq & Hstop & _).
    rewrite !app_nil_r in Heq. exists k. rewrite Heq. split; [done |].
    intros _. exact Hstop.
  - exists (length (machines s)). cbn [machines setEnergy].
    rewrite take_ge, drop_ge, app_nil_r by lia. split; [done |].
    apply Z.ltb_ge in E. lia.
Qed.

(** With a deficit, the last machine of the list is shed if it draws. *)
Lemma allocatePower_blocks_last (s : State) (pre : list Machine) (m : Machine) :
  machines s = pre ++ [m] ->
  drawsPower m = true ->
  produced (calculateEnergy s) < consumed (calculateEnergy s) ->
  machines (allocatePower s) !! length pre = Some (setStatus blocked m).
Proof.
  intros Hms Hdraw Hdef.
  destruct (allocatePower_walk s) as (k & -> & Hstop).
  specialize (Hstop Hdef).
  assert (Hk : (k <= length pre)%nat).
  { destruct Hstop as [-> | Hle]; [lia |].
    destruct (decide (k <= length pre)%nat); [done |]. exfalso.
    unfold deficitAfter in Hle. rewrite drop_ge in Hle; [cbn [drawOf] in Hle; lia |].
    rewrite Hms, length_app. simpl. lia. }
  rewrite Hms. rewrite take_app_le, drop_app_le by done.
  rewrite fmap_app. rewrite app_assoc.
  rewrite lookup_app_r; rewrite !length_app, length_take, length_fmap, length_drop; [| lia].
  replace (length pre - (k `min` length pre + (length pre - k)))%nat with O by lia.
  simpl. unfold blockIfDrawing. by rewrite Hdraw.
Qed.

Lemma simulateTick_machines (s : State) (rules : Rules) :
  Forall2 tickedMachine (machines (allocatePower s)) (machines (simulateTick s rules)).
Proof.
  rewrite simulateTick_unfold. cbv zeta.
  destruct (researchPhase_shape rules (rngSeed s) (beforeResearch s rules)) as [d ->].
  cbn [machines setTickSeed marketRecovery setMarketPopularity setDiscovered].
  unfold beforeResearch, deepClone.
  destruct (machinePhase_ticked rules (extractionPhase rules (allocatePower s)))
    as (H & _). exact H.
Qed.

(** X23: UNBLOCK_MACHINE is accepted exactly when the first machine with
    the id is blocked.  It sets that machine to working if it has a recipe
    and to idle otherwise, and recomputes the energy snapshot.  If the
    machine is the last of the list, is enabled and assigned, and the
    recomputed snapshot shows a deficit, the next tick blocks it again. *)
Theorem unblock_and_reblock (s : State) (rules : Rules) (machineId : string) :
  let res := unblockMachine s rules machineId in
  (error res = None <->
   exists i m, findIndex (fun m => String.eqb (m_id m) machineId) (machines s)
               = Some (i, m) /\ status m = blocked) /\
  (forall i m,
     findIndex (fun m => String.eqb (m_id m) machineId) (machines s) = Some (i, m) ->
     status m = blocked ->
     machines (state res)
       = <[i := setStatus (if truthy (recipeId m) then working else idle) m]>
           (machines s) /\
     energy (state res) = calculateEnergy (state res) /\
     (S i = length (machines s) ->
      enabled m = true -> truthy (recipeId m) = true ->
      produced (energy (state res)) < consumed (energy (state res)) ->
      exists m', machines (simulateTick (state res) rules) !! i = Some m' /\
                 status m' = blocked)).
Proof.
  cbv zeta. unfold unblockMachine, deepClone.
  destruct (findIndex _ (machines s)) as [[i m]|] eqn:E.
  - destruct (bool_decide (status m = blocked)) eqn:Eb; cbn [negb error state].
    + apply bool_decide_eq_true in Eb. split.
      * split; [| done]. intros _. by exists i, m.
      * intros i' m' [= <- <-] _. split; [reflexivity |]. split; [reflexivity |].
        intros Hlast Hen Htr Hdef.
        apply findIndex_Some in E as (Hi & _).
        set (m1 := setStatus (if truthy (recipeId m) then working else idle) m) in *.
        set (st := setEnergy _ _) in *.
        assert (Hms : machines st = take i (machines s) ++ [m1]).
        { subst st. cbn [machines setEnergy setMachines].
          rewrite <- (take_drop i (machines s)) at 1.
          rewrite insert_app_r_alt; rewrite length_take; [| lia].
          replace (i - i `min` length (machines s))%nat with O by lia.
          rewrite (drop_S _ m i Hi), drop_ge by lia. done. }
        assert (Hdraw : drawsPower m1 = true).
        { subst m1. unfold drawsPower. cbn. rewrite Hen, Htr. done. }
        assert (Hdef' : produced (calculateEnergy st) < consumed (calculateEnergy st))
          by exact Hdef.
        pose proof (allocatePower_blocks_last st _ m1 Hms Hdraw Hdef') as Hblocked.
        rewrite length_take in Hblocked.
        replace (i `min` length (machines s))%nat with i in Hblocked by lia.
        pose proof (simulateTick_machines st rules) as Hticked.
        destruct (Forall2_lookup_l _ _ _ _ _ Hticked Hblocked) as (m' & Hm' & Hrel).
        exists m'. split; [exact Hm' |].
        destruct Hrel as (_ & _ & _ & _ & _ & _ & _ & Hsame).
        by rewrite (Hsame eq_refl).
    + apply bool_decide_eq_false in Eb. split; [| by intros i' m' [= <- <-] ?].
      split; [done |]. intros (i' & m' & [= <- <-] & ?). done.
  - cbn [error state]. split; [| done]. split; [done |].
    intros (i' & m' & ? & _). done.
Qed.

Lemma unblock_and_reblock_witness :
  status <$> machines (state (unblockMachine shedState sampleRules "m2"))
    = [working; working] /\
  exists m', machines (simulateTick (state (unblockMachine shedState sampleRules "m2"))
                                    sampleRules) !! 1%nat = Some m' /\
             status m' = blocked.
Proof.
  split; [reflexivity |].
  destruct (unblock_and_reblock shedState sampleRules "m2") as [_ H].
  destruct (H 1%nat (mkMachine "m2" (Some "planks") ∅ blocked true 4 2 2 0))
    as (_ & _ & Hre); [reflexivity | reflexivity |].
  apply Hre; [reflexivity | reflexivity | reflexivity | vm_compute; reflexivity].
Defined.

(** ** Unlocking *)

(** X25: UNLOCK_RECIPE is accepted exactly when the recipe is discovered
    and not yet unlocked; it appends the recipe to the unlocked ones and
    changes nothing else, and unlocking the same recipe once more is
    rejected as already unlocked. *)
Theorem unlock_once (s : State) (rules : Rules) (rid : string) :
  let res := unlockRecipe s rules rid in
  (error res = None <-> rid ∈ discoveredRecipes s /\ rid ∉ unlockedRecipes s) /\
  (error res = None ->
   state res = setUnlocked (unlockedRecipes s ++ [rid]) s /\
   error (unlockRecipe (state res) rules rid) = Some "Recipe already unlocked").
Proof.
  cbv zeta.
  assert (Hres : unlockRecipe s rules rid
                 = if negb (includes (discoveredRecipes s) rid)
                   then mkResult s (Some "Recipe not discovered yet")
                   else if includes (unlockedRecipes s) rid
                        then mkResult s (Some "Recipe already unlocked")
                        else mkResult (setUnlocked (unlockedRecipes s ++ [rid]) s) None)
    by reflexivity.
  rewrite !Hres. clear Hres.
  destruct (includes (discoveredRecipes s) rid) eqn:Ed; cbn [negb].
  - destruct (includes (unlockedRecipes s) rid) eqn:Eu; cbn [error state].
    + apply includes_spec in Ed, Eu. split; [| done].
      split; [done |]. intros [_ ?]. done.
    + split; [split; [| done]; intros _; split;
              [by apply includes_spec | by apply includes_false] |].
      intros _. split; [done |].
      unfold unlockRecipe, deepClone.
      cbn [discoveredRecipes unlockedRecipes setUnlocked]. rewrite Ed. cbn [negb].
      assert (includes (unlockedRecipes s ++ [rid]) rid = true) as ->; [| done].
      apply includes_spec, elem_of_app. right. by apply list_elem_of_singleton.
  - apply includes_false in Ed. cbn [error state]. split; [| done].
    split; [done |]. intros [? _]. done.
Qed.

(** ** The energy snapshot *)

Lemma calculateEnergy_frame (s s' : State) :
  generators s' = generators s -> machines s' = machines s ->
  calculateEnergy s' = calculateEnergy s.
Proof. intros Hg Hm. unfold calculateEnergy. by rewrite Hg, Hm. Qed.

(** X26: a snapshot that is current stays current through every tick and
    every command other than REMOVE_MACHINE and ASSIGN_RECIPE: the tick
    and the commands that touch generators, the research toggle or a
    machine's flags recompute it, and a newly built machine draws nothing.
    (REMOVE_MACHINE and ASSIGN_RECIPE change the machines and leave the
    snapshot as it was.) *)
Theorem snapshot_stays_current (randomId : string) (s : State) (rules : Rules)
    (a : Action) (res : Result) :
  snapshotCurrent s ->
  keepsSnapshot a ->
  engine randomId s rules a = Some res ->
  snapshotCurrent (state res).
Proof.
  unfold snapshotCurrent. intros Hcur Hkeep Hrun.
  destruct a; simpl in Hrun; try done.
  all: try (injection Hrun as <-).
  - cbn [state]. rewrite (calculateEnergy_parts (simulateTick s rules)).
    apply simulateTick_energy.
  - unfold addMachine, deepClone in *.
    repeat case_match; cbn [state]; try done.
    rewrite calculateEnergy_parts.
    cbn [energy generators machines setFloorSpace setMachines setInventory].
    rewrite drawOf_app. cbn [drawOf]. unfold drawsPower at 1. cbn.
    rewrite Hcur, calculateEnergy_parts. f_equal. lia.
  - unfold addGenerator, deepClone. repeat case_match; cbn [state]; done.
  - unfold removeGenerator, deepClone. repeat case_match; cbn [state]; done.
  - unfold buyFloorSpace, deepClone in *.
    destruct (getNextExpansionChunk s rules); [| done].
    destruct (_ <? _); injection Hrun as <-; cbn [state]; done.
  - unfold sellGoods, deepClone. repeat case_match; cbn [state]; done.
  - unfold toggleResearch, deepClone. repeat case_match; cbn [state]; done.
  - unfold unlockRecipe, deepClone. repeat case_match; cbn [state]; done.
  - unfold unblockMachine, deepClone. repeat case_match; cbn [state]; done.
  - unfold toggleMachine, deepClone. repeat case_match; cbn [state]; done.
  - unfold buyInventorySpace, deepClone. repeat case_match; cbn [state]; done.
  - done.
Qed.

Lemma snapshot_stays_current_witness :
  exists res,
    engine "m1" (setEnergy (mkEnergy 0 0) readyToBuild) sampleRules
           (ADD_MACHINE (Some 0) (Some 0)) = Some res /\
    error res = None /\ snapshotCurrent (state res).
Proof.
  eexists. split; [reflexivity |]. split; [reflexivity |].
  apply (snapshot_stays_current "m1" (setEnergy (mkEnergy 0 0) readyToBuild) sampleRules
           (ADD_MACHINE (Some 0) (Some 0))).
  - reflexivity.
  - exact I.
  - reflexivity.
Defined.

(** X27: REMOVE_GENERATOR is rejected exactly when no generator has the
    id; otherwise it removes the first generator with that id and the
    first placement with that id, leaves the machines and the inventory
    alone, and recomputes the snapshot, whose produced energy falls by the
    output of the generator removed. *)
Theorem remove_generator_outcome (s : State) (rules : Rules) (generatorId : string) :
  let res := removeGenerator s rules generatorId in
  (error res <> None <-> forall g, g ∈ generators s -> g_id g <> generatorId) /\
  (error res = None ->
   exists (i : nat) (g : Generator),
     generators s !! i = Some g /\ g_id g = generatorId /\
     (forall j g', (j < i)%nat -> generators s !! j = Some g' -> g_id g' <> generatorId) /\
     generators (state res) = delete i (generators s) /\
     floorSpace (state res) = removePlacement generatorId (floorSpace s) /\
     machines (state res) = machines s /\
     inventory (state res) = inventory s /\
     produced (energy (state res)) = produced (calculateEnergy s) - energyOutput g /\
     consumed (energy (state res)) = consumed (calculateEnergy s)).
Proof.
  cbv zeta. unfold removeGenerator, deepClone.
  destruct (findIndex _ (generators s)) as [[i g]|] eqn:E.
  - cbn [error state]. apply findIndex_Some in E as (Hi & Hid & Hfirst).
    apply String.eqb_eq in Hid. split.
    + split; [done |]. intros Hnone. exfalso. apply (Hnone g); [| done].
      apply list_elem_of_lookup. by exists i.
    + intros _. exists i, g. cbn. repeat split; try done.
      * intros j g' Hj Hg'. apply String.eqb_neq. by apply (Hfirst j).
      * rewrite <- (take_drop_middle _ _ _ Hi) at 2.
        rewrite delete_take_drop, !fold_left_app. cbn [fold_left].
        rewrite (produced_fold (drop (S i) (generators s)) (_ + energyOutput g)).
        rewrite (produced_fold (drop (S i) (generators s))
                   (fold_left _ (take i (generators s)) 0)). lia.
  - cbn [error state]. split; [| done]. split; [| done].
    intros _ g Hg. apply String.eqb_neq.
    by apply (proj1 (findIndex_None _ _) E).
Qed.

(** ** Storage upgrades *)



(** ** The frontend's dispatch *)

Ltac nonempty_error :=
  repeat case_match; simplify_eq; try done;
  cbn [error truthy String.append String.eqb negb];
  symmetry; by apply bool_decide_eq_true_2.

Lemma engine_error_truthy (randomId : string) (s : State) (rules : Rules)
    (a : Action) (res : Result) :
  engine randomId s rules a = Some res ->
  truthy (error res) = bool_decide (error res <> None).
Proof.
  intros Hrun. destruct a; simpl in Hrun.
  all: try (injection Hrun as <-).
  - done.
  - unfold addMachine, canPlaceAt. nonempty_error.
  - unfold removeMachine. nonempty_error.
  - unfold assignRecipe. nonempty_error.
  - unfold addGenerator, canPlaceAt. nonempty_error.
  - unfold removeGenerator. nonempty_error.
  - unfold buyFloorSpace in Hrun. nonempty_error.
  - unfold sellGoods. nonempty_error.
  - done.
  - unfold unlockRecipe. nonempty_error.
  - unfold unblockMachine. nonempty_error.
  - unfold toggleMachine. nonempty_error.
  - unfold buyInventorySpace. nonempty_error.
  - cbn [error truthy String.append String.eqb negb]. done.
Qed.

Lemma removelast_take {A} (l : list A) : removelast l = take (length l - 1) l.
Proof.
  induction l as [| a [| b l] IH]; [done | done |].
  change (removelast (a :: b :: l)) with (a :: removelast (b :: l)).
  rewrite IH. cbn [length]. replace (S (S (length l)) - 1)%nat with (S (length l)) by lia.
  replace (S (length l) - 1)%nat with (length l) by lia. done.
Qed.

(** X29: the page's dispatch.  When the engine reports an error the page
    keeps its game state and its log; otherwise it takes the state the
    engine returns.  Only a tick adds to the log: the new entry goes to the
    front and the log is cut to its newest [MAX_LOG_ENTRIES] (100) entries,
    so a log within that length stays within it. *)
Theorem dispatch_state_and_log {LogEntry : Type}
    (generateTickLog : State -> State -> LogEntry)
    (randomId : string) (rules : Rules) (page : Page LogEntry)
    (a : Action) (res : Result) :
  (length (tickLog page) <= MAX_LOG_ENTRIES)%nat ->
  engine randomId (gameState page) rules a = Some res ->
  exists page' : Page LogEntry,
    dispatch generateTickLog randomId rules page a = Some page' /\
    (error res <> None -> page' = page) /\
    (error res = None ->
     gameState page' = state res /\
     tickLog page'
       = if isSimulate a
         then take MAX_LOG_ENTRIES
                   (generateTickLog (gameState page) (state res) :: tickLog page)
         else tickLog page) /\
    (length (tickLog page') <= MAX_LOG_ENTRIES)%nat.
Proof.
  intros Hlen Hrun. unfold dispatch. rewrite Hrun.
  rewrite (engine_error_truthy _ _ _ _ _ Hrun).
  destruct (error res) as [e |] eqn:Eerr.
  - rewrite bool_decide_eq_true_2 by done. exists page. repeat split; done.
  - rewrite bool_decide_eq_false_2 by (intros H; by apply H).
    eexists. split; [reflexivity |]. cbn [gameState tickLog].
    split; [done |].
    assert (Hpush : forall entry : LogEntry,
              pushLog entry (tickLog page)
              = take MAX_LOG_ENTRIES (entry :: tickLog page)).
    { intros entry. unfold pushLog. cbv zeta.
      destruct (_ <? _)%nat eqn:E.
      - apply Nat.ltb_lt in E. rewrite removelast_take. f_equal.
        cbn [length] in *. lia.
      - apply Nat.ltb_ge in E. by rewrite take_ge. }
    destruct (isSimulate a).
    + rewrite Hpush. split; [done |]. rewrite length_take. lia.
    + done.
Qed.

Lemma dispatch_state_and_log_witness :
  exists page' : Page Z,
    dispatch (fun _ newState => tick newState) "id" sampleRules
             (mkPage sampleState [0]) SIMULATE = Some page' /\
    tickLog page' = [1; 0].
Proof.
  destruct (dispatch_state_and_log (fun _ newState => tick newState) "id" sampleRules
              (mkPage sampleState [0]) SIMULATE
              (mkResult (simulateTick sampleState sampleRules) None))
    as (page' & Hrun & _ & Hok & _).
  - simpl. unfold MAX_LOG_ENTRIES. lia.
  - reflexivity.
  - exists page'. split; [exact Hrun |].
    destruct (Hok eq_refl) as [_ ->]. reflexivity.
Defined.

(** ** Stock that is never negative *)

Lemma nonNegative_orZero (m : gmap string cell) (k : string) :
  nonNegative m -> 0 <= orZero m k.
Proof.
  intros Hm. unfold orZero. destruct (m !! k) as [c|] eqn:E; [by eapply Hm | done].
Qed.

Lemma nonNegative_empty : nonNegative ∅.
Proof. intros k c Hk. by rewrite lookup_empty in Hk. Qed.

Lemma nonNegative_insert (m : gmap string cell) (k : string) (c : cell) :
  nonNegative m -> 0 <= cellZ c -> nonNegative (<[k := c]> m).
Proof.
  intros Hm Hc j c' Hj. destruct (decide (k = j)) as [<- | Hne].
  - rewrite lookup_insert_eq in Hj. by injection Hj as <-.
  - rewrite lookup_insert_ne in Hj by done. by eapply Hm.
Qed.

Lemma nonNegative_delete (m : gmap string cell) (k : string) :
  nonNegative m -> nonNegative (delete k m).
Proof.
  intros Hm j c Hj. destruct (decide (k = j)) as [<- | Hne].
  - by rewrite lookup_delete_eq in Hj.
  - rewrite lookup_delete_ne in Hj by done. by eapply Hm.
Qed.

(** A debit of at most what the slot holds. *)
Lemma nonNegative_debit (m : gmap string cell) (k : string) (q : Z) :
  nonNegative m -> q <= orZero m k -> nonNegative (debit m k q).
Proof.
  intros Hm Hq. unfold debit, orZero in *.
  destruct (m !! k) as [c|] eqn:E.
  - destruct (cellZ c - q =? 0); [by apply nonNegative_delete |].
    apply nonNegative_insert; [done | simpl; lia].
  - by apply nonNegative_insert.
Qed.

Lemma nonNegative_returnBuffer (buffer inv : gmap string cell) :
  nonNegative buffer -> nonNegative inv -> nonNegative (returnBuffer buffer inv).
Proof.
  intros Hb Hi k c. unfold returnBuffer. rewrite lookup_merge.
  destruct (inv !! k) as [slot|] eqn:Ei, (buffer !! k) as [q|] eqn:Eb; simpl.
  - intros [= <-]. simpl. specialize (Hi k slot Ei). specialize (Hb k q Eb). lia.
  - intros [= <-]. by eapply Hi.
  - intros [= <-]. simpl. specialize (Hb k q Eb). lia.
  - done.
Qed.

Lemma nonNegative_extraction (rules : Rules) (space : Z)
    (nodes : list ExtractionNode) (inv : gmap string cell) :
  nonNegative inv ->
  nonNegative (fold_left (extractNode rules space) nodes inv).
Proof.
  revert inv. induction nodes as [| node nodes IH]; intros inv Hinv; simpl; [done |].
  apply IH.
  destruct (extractNode_cases rules space inv node) as [-> | (toAdd & _ & Hpos & _ & _ & ->)];
    [done |].
  apply nonNegative_insert; [done |].
  pose proof (nonNegative_orZero inv (resourceType node) Hinv). simpl. lia.
Qed.

Lemma nonNegative_pull (entries : list (string * Z)) (buffer inv : gmap string cell) :
  nonNegative buffer -> nonNegative inv ->
  nonNegative (fold_left pullItem entries (buffer, inv)).1 /\
  nonNegative (fold_left pullItem entries (buffer, inv)).2.
Proof.
  revert buffer inv.
  induction entries as [| [k needed] rest IH]; intros buffer inv Hb Hi; simpl; [done |].
  destruct (0 <? needed - orZero buffer k); [| by apply IH].
  destruct (0 <? Z.min (needed - orZero buffer k) (orZero inv k)) eqn:E; [| by apply IH].
  apply Z.ltb_lt in E. pose proof (nonNegative_orZero buffer k Hb).
  apply IH; (apply nonNegative_insert; [done | simpl; lia]).
Qed.

Lemma nonNegative_consume (entries : list (string * Z)) (buffer : gmap string cell) :
  NoDup entries.*1 ->
  (forall e, e ∈ entries -> e.2 <= orZero buffer e.1) ->
  nonNegative buffer ->
  nonNegative (fold_left (fun b (entry : string * Z) => debit b entry.1 entry.2)
                         entries buffer).
Proof.
  revert buffer.
  induction entries as [| [k q] rest IH]; intros buffer Hnd Hfull Hb; [done |].
  cbn [fold_left fst snd].
  rewrite fmap_cons in Hnd. apply NoDup_cons in Hnd as [Hfresh Hnd].
  apply IH; [done | |].
  - intros e He.
    assert (k <> e.1).
    { intros ->. apply Hfresh. apply list_elem_of_fmap. by exists e. }
    rewrite orZero_debit_other by done. apply Hfull. by right.
  - apply nonNegative_debit; [done |]. apply (Hfull (k, q)). by left.
Qed.

Lemma nonNegative_outputs (entries : list (string * Z)) (inv : gmap string cell) :
  Forall (fun e : string * Z => 0 <= e.2) entries ->
  nonNegative inv ->
  nonNegative (fold_left (fun i (entry : string * Z) =>
                            <[entry.1 := Num (orZero i entry.1 + entry.2)]> i)
                         entries inv).
Proof.
  revert inv.
  induction entries as [| [k q] rest IH]; intros inv Hpos Hinv; [done |].
  cbn [fold_left fst snd]. apply Forall_cons in Hpos as [Hq Hpos].
  apply IH; [done |]. apply nonNegative_insert; [done |].
  pose proof (nonNegative_orZero inv k Hinv). simpl in *. lia.
Qed.

Lemma nonNegative_processMachine (rules : Rules) (space : Z) (unlocked : list string)
    (m : Machine) (inv : gmap string cell) :
  recipeTablesOk rules ->
  nonNegative (internalBuffer m) -> nonNegative inv ->
  nonNegative (internalBuffer (processMachine rules space unlocked m inv).1) /\
  nonNegative (processMachine rules space unlocked m inv).2.
Proof.
  intros Hrules Hb Hi. unfold processMachine.
  destruct (negb (enabled m) || negb (truthy (recipeId m))
            || bool_decide (status m = blocked)); [done |].
  destruct (findRecipe _ rules) as [recipe|] eqn:Efind; [| done].
  destruct (negb (includes unlocked (rec_id recipe))); [done |].
  assert (Hin : recipe ∈ recipes rules).
  { unfold findRecipe in Efind. by apply find_elem_of in Efind as [? _]. }
  destruct (Hrules recipe Hin) as [Hnd Hout].
  pose proof (nonNegative_pull (inputs recipe) (internalBuffer (setStatus working m)) inv
                Hb Hi) as [Hb1 Hi1].
  unfold pullPhase. destruct (fold_left pullItem _ _) as [buffer1 inv1].
  cbn [fst snd] in Hb1, Hi1. unfold completion.
  destruct (bufferComplete recipe buffer1) eqn:Efull; [| done].
  destruct (canProduce rules space recipe inv1); [| done].
  cbn [fst snd internalBuffer setBuffer]. split.
  - apply nonNegative_consume; [done | | done].
    by apply bufferComplete_spec.
  - by apply nonNegative_outputs.
Qed.

Lemma nonNegative_machineLoop (rules : Rules) (space : Z) (unlocked : list string)
    (ms : list Machine) (inv : gmap string cell) :
  recipeTablesOk rules ->
  Forall (fun m => nonNegative (internalBuffer m)) ms -> nonNegative inv ->
  Forall (fun m => nonNegative (internalBuffer m))
         (machineLoop rules space unlocked ms inv).1 /\
  nonNegative (machineLoop rules space unlocked ms inv).2.
Proof.
  intros Hrules. revert inv.
  induction ms as [| m ms IH]; intros inv Hms Hinv; simpl; [done |].
  apply Forall_cons in Hms as [Hm Hms].
  pose proof (nonNegative_processMachine rules space unlocked m inv Hrules Hm Hinv)
    as [Hm' Hinv'].
  destruct (processMachine rules space unlocked m inv) as [m' inv'].
  cbn [fst snd] in Hm', Hinv'.
  specialize (IH inv' Hms Hinv') as [Hrest Hinv''].
  destruct (machineLoop rules space unlocked ms inv') as [rest' inv''].
  cbn [fst snd] in *. split; [by constructor | done].
Qed.

Lemma nonNegative_blockIfDrawing (m : Machine) :
  nonNegative (internalBuffer m) -> nonNegative (internalBuffer (blockIfDrawing m)).
Proof. unfold blockIfDrawing. by destruct (drawsPower m). Qed.

Lemma simulateTick_stock (s : State) (rules : Rules) :
  recipeTablesOk rules -> stockOk s -> stockOk (simulateTick s rules).
Proof.
  intros Hrules [Hinv Hms]. unfold stockOk.
  rewrite simulateTick_unfold. cbv zeta.
  destruct (researchPhase_shape rules (rngSeed s) (beforeResearch s rules)) as [d ->].
  cbn [inventory machines setTickSeed marketRecovery setMarketPopularity setDiscovered].
  unfold beforeResearch, deepClone, machinePhase.
  pose proof (nonNegative_machineLoop rules
                (inventorySpace (extractionPhase rules (allocatePower s)))
                (unlockedRecipes (extractionPhase rules (allocatePower s)))
                (machines (extractionPhase rules (allocatePower s)))
                (inventory (extractionPhase rules (allocatePower s))) Hrules) as Hloop.
  destruct (machineLoop _ _ _ _ _) as [ms inv].
  cbn [inventory machines setInventory setMachines fst snd] in *.
  destruct Hloop as [H1 H2]; [| | done].
  - unfold extractionPhase. cbn [machines setInventory].
    destruct (allocatePower_walk s) as (k & -> & _).
    apply Forall_app. split; [by apply Forall_take |].
    apply Forall_fmap. eapply Forall_impl; [by apply Forall_drop |].
    intros m Hm. by apply nonNegative_blockIfDrawing.
  - unfold extractionPhase. cbn [inventory setInventory].
    apply nonNegative_extraction.
    destruct (allocatePower_shape s) as (e & ms0 & -> & _). done.
Qed.

(** X30: with recipes whose inputs have distinct keys and whose output
    quantities are not negative, the stock never goes negative: if no slot
    of the inventory and of the machines' buffers holds a negative number,
    none does after any tick or command, accepted or rejected. *)
Theorem stock_never_negative (randomId : string) (s : State) (rules : Rules)
    (a : Action) (res : Result) :
  recipeTablesOk rules ->
  stockOk s ->
  engine randomId s rules a = Some res ->
  stockOk (state res).
Proof.
  intros Hrules Hok Hrun. pose proof Hok as [Hinv Hms].
  destruct a; simpl in Hrun.
  all: try (injection Hrun as <-).
  - by apply simulateTick_stock.
  - unfold addMachine, deepClone. repeat case_match; cbn [state]; try done.
    split; cbn.
    + apply nonNegative_debit; [done |]. lia.
    + apply Forall_app. split; [done |]. constructor; [| done].
      apply nonNegative_empty.
  - unfold removeMachine, deepClone.
    destruct (findIndex _ _) as [[i m]|] eqn:E; cbn [state]; [| done].
    apply findIndex_Some in E as (Hi & _).
    split; cbn.
    + apply nonNegative_returnBuffer; [| done].
      by apply (Forall_lookup_1 _ _ _ _ Hms Hi).
    + by apply Forall_delete.
  - unfold assignRecipe, deepClone.
    destruct (findIndex _ _) as [[i m]|] eqn:E; cbn [state]; [| done].
    apply findIndex_Some in E as (Hi & _).
    repeat case_match; cbn [state]; try done.
    all: split; cbn;
      [ apply nonNegative_returnBuffer; [| done];
        by apply (Forall_lookup_1 _ _ _ _ Hms Hi)
      | apply Forall_insert; [done |]; apply nonNegative_empty ].
  - unfold addGenerator, deepClone. repeat case_match; cbn [state]; try done.
    split; cbn; [| done].
    apply nonNegative_debit; [done |]. lia.
  - unfold removeGenerator, deepClone. repeat case_match; cbn [state]; done.
  - unfold buyFloorSpace, deepClone in Hrun.
    repeat case_match; simplify_eq; cbn [state]; done.
  - unfold sellGoods, deepClone. repeat case_match; cbn [state]; try done.
    split; cbn; [| done].
    apply nonNegative_debit; [done |]. lia.
  - done.
  - unfold unlockRecipe, deepClone. repeat case_match; cbn [state]; done.
  - unfold unblockMachine, deepClone.
    destruct (findIndex _ _) as [[i m]|] eqn:E; cbn [state]; [| done].
    apply findIndex_Some in E as (Hi & _).
    destruct (negb _); cbn [state]; [done |].
    split; cbn; [done |]. apply Forall_insert; [done |].
    by apply (Forall_lookup_1 _ _ _ _ Hms Hi).
  - unfold toggleMachine, deepClone.
    destruct (findIndex _ _) as [[i m]|] eqn:E; cbn [state]; [| done].
    apply findIndex_Some in E as (Hi & _).
    split; cbn; [done |]. apply Forall_insert; [done |].
    by apply (Forall_lookup_1 _ _ _ _ Hms Hi).
  - unfold buyInventorySpace, deepClone. repeat case_match; cbn [state]; done.
  - done.
Qed.

Lemma stock_never_negative_witness :
  let res := removeMachine halfFedState sampleRules "m1" in
  error res = None /\
  inventory (state res) = {[ "wood" := Num 2 ]} /\
  stockOk (state res).
Proof.
  cbv zeta. split; [reflexivity |]. split; [reflexivity |].
  apply (stock_never_negative "id" halfFedState sampleRules (REMOVE_MACHINE "m1")).
  - intros r Hr. cbn in Hr.
    repeat (apply elem_of_cons in Hr as [-> | Hr]);
      [| | | by apply elem_of_nil in Hr].
    all: split; [apply NoDup_singleton | repeat constructor; simpl; lia].
  - split.
    + intros k c Hk. cbn in Hk.
      apply lookup_singleton_Some in Hk as [_ <-]. simpl. lia.
    + repeat constructor. intros k c Hk. cbn in Hk.
      apply lookup_singleton_Some in Hk as [_ <-]. simpl. lia.
  - reflexivity.
Defined.
